(** * webgpu-babylon-demo: model normalisation, UV repair, bounds, framing,
      hover and camera snapping

    A shallow embedding of the scene logic of
    [src/components/CanvasHost.tsx], [src/core/sceneControls.ts] and
    [src/core/SceneManager.ts].

    Numbers.  A JavaScript number is modelled by [num]: the three special
    values NaN, +Infinity and -Infinity, or a finite value carried as an
    exact rational.  Comparisons, arithmetic on the special values, [isFinite],
    truthiness and [Math.round] follow ECMAScript; rounding error, overflow
    and the sign of zero of binary64 are abstracted away, so a statement
    made "within floating-point tolerance" is proved as an exact equation of
    rationals. *)

From Stdlib Require Import QArith Qround Qminmax ZArith List Bool String Lia Lqa.
From Stdlib Require Import Permutation.
Import ListNotations.
Open Scope Q_scope.

(** ** JavaScript numbers *)

Module JS.

Inductive num : Type :=
| NaN
| PInf
| NInf
| Fin (q : Q).

(** [x < y]; every comparison with NaN is false. *)
Definition ltb (a b : num) : bool :=
  match a, b with
  | NaN, _ | _, NaN => false
  | PInf, _ => false
  | _, NInf => false
  | NInf, _ => true
  | Fin _, PInf => true
  | Fin p, Fin q => negb (Qle_bool q p)
  end.

(** [x > y] *)
Definition gtb (a b : num) : bool := ltb b a.

(** [x <= y] *)
Definition leb (a b : num) : bool :=
  match a, b with
  | NaN, _ | _, NaN => false
  | NInf, _ => true
  | _, PInf => true
  | PInf, _ => false
  | Fin _, NInf => false
  | Fin p, Fin q => Qle_bool p q
  end.

(** [x === y] on numbers; NaN is different from itself. *)
Definition eqb (a b : num) : bool :=
  match a, b with
  | PInf, PInf | NInf, NInf => true
  | Fin p, Fin q => Qeq_bool p q
  | _, _ => false
  end.

(** [x !== y] *)
Definition neqb (a b : num) : bool := negb (eqb a b).

Definition isFinite (a : num) : bool :=
  match a with Fin _ => true | _ => false end.

(** Truthiness of a number: 0 and NaN are falsy. *)
Definition truthy (a : num) : bool :=
  match a with
  | NaN => false
  | Fin q => negb (Qeq_bool q 0)
  | _ => true
  end.

(** [a || b] on numbers *)
Definition or_else (a b : num) : num := if truthy a then a else b.

Definition neg (a : num) : num :=
  match a with
  | NaN => NaN
  | PInf => NInf
  | NInf => PInf
  | Fin q => Fin (- q)
  end.

Definition add (a b : num) : num :=
  match a, b with
  | NaN, _ | _, NaN => NaN
  | PInf, NInf | NInf, PInf => NaN
  | PInf, _ | _, PInf => PInf
  | NInf, _ | _, NInf => NInf
  | Fin p, Fin q => Fin (p + q)
  end.

Definition sub (a b : num) : num := add a (neg b).

(** Sign of a rational as a comparison with 0. *)
Definition sgn (q : Q) : comparison := Qcompare q 0.

Definition mul (a b : num) : num :=
  match a, b with
  | NaN, _ | _, NaN => NaN
  | Fin p, Fin q => Fin (p * q)
  | Fin p, PInf | PInf, Fin p =>
      match sgn p with Gt => PInf | Lt => NInf | Eq => NaN end
  | Fin p, NInf | NInf, Fin p =>
      match sgn p with Gt => NInf | Lt => PInf | Eq => NaN end
  | PInf, PInf | NInf, NInf => PInf
  | PInf, NInf | NInf, PInf => NInf
  end.

Definition div (a b : num) : num :=
  match a, b with
  | NaN, _ | _, NaN => NaN
  | Fin p, Fin q =>
      match sgn q with
      | Eq => match sgn p with Gt => PInf | Lt => NInf | Eq => NaN end
      | _ => Fin (p / q)
      end
  | Fin _, _ => Fin 0
  | PInf, Fin q => match sgn q with Lt => NInf | _ => PInf end
  | NInf, Fin q => match sgn q with Lt => PInf | _ => NInf end
  | _, _ => NaN
  end.

(** [Math.max(a, b)]: NaN as soon as one argument is NaN. *)
Definition max2 (a b : num) : num :=
  match a, b with
  | NaN, _ | _, NaN => NaN
  | _, _ => if ltb a b then b else a
  end.

(** [Math.max(a, b, c)] *)
Definition max3 (a b c : num) : num := max2 (max2 a b) c.

(** [Math.round]: the nearest integer, ties towards +Infinity. *)
Definition round (a : num) : num :=
  match a with
  | Fin q => Fin (inject_Z (Qfloor (q + (1 # 2))))
  | _ => a
  end.

(** Reading past the end of an array gives [undefined], which every
    arithmetic operator and comparison turns into NaN. *)
Definition of_undefined (o : option num) : num :=
  match o with Some v => v | None => NaN end.

(** Two numbers denote the same value (rationals up to [Qeq]). *)
Definition same (a b : num) : Prop :=
  match a, b with
  | NaN, NaN | PInf, PInf | NInf, NInf => True
  | Fin p, Fin q => p == q
  | _, _ => False
  end.

End JS.

Import JS.

Declare Scope js_scope.
Delimit Scope js_scope with js.
Bind Scope js_scope with JS.num.
Infix "+" := JS.add : js_scope.
Infix "-" := JS.sub : js_scope.
Infix "*" := JS.mul : js_scope.
Infix "/" := JS.div : js_scope.
Notation "- x" := (JS.neg x) : js_scope.
Infix "<?" := JS.ltb : js_scope.
Infix ">?" := JS.gtb : js_scope.
Infix "<=?" := JS.leb : js_scope.
Infix "=~" := JS.same (at level 70) : js_scope.

(** Number literals of the source. *)
Definition n_ (z : Z) : num := Fin (inject_Z z).

(** ** Engine vectors ([Vector3]) *)

Record Vec3 : Type := vec3 { vx : num; vy : num; vz : num }.

Module Vector3.
Local Open Scope js_scope.

(** [Vector3.Minimize(left, right)]: start from [left] and take a component
    of [right] where it is strictly smaller. *)
Definition Minimize (l r : Vec3) : Vec3 :=
  vec3 (if vx r <? vx l then vx r else vx l)
       (if vy r <? vy l then vy r else vy l)
       (if vz r <? vz l then vz r else vz l).

(** [Vector3.Maximize(left, right)] *)
Definition Maximize (l r : Vec3) : Vec3 :=
  vec3 (if vx r >? vx l then vx r else vx l)
       (if vy r >? vy l then vy r else vy l)
       (if vz r >? vz l then vz r else vz l).

Definition add (a b : Vec3) : Vec3 :=
  vec3 (vx a + vx b) (vy a + vy b) (vz a + vz b).

Definition subtract (a b : Vec3) : Vec3 :=
  vec3 (vx a - vx b) (vy a - vy b) (vz a - vz b).

Definition scale (a : Vec3) (k : num) : Vec3 :=
  vec3 (vx a * k) (vy a * k) (vz a * k).

Definition same (a b : Vec3) : Prop :=
  vx a =~ vx b /\ vy a =~ vy b /\ vz a =~ vz b.

End Vector3.

Definition finiteVec (v : Vec3) : bool :=
  isFinite (vx v) && isFinite (vy v) && isFinite (vz v).

(** ** Meshes *)

(** The texture-coordinate kinds, in the order of [UV_KIND_ORDER]. *)
Inductive UVChannel : Type := UVKind | UV2Kind | UV3Kind | UV4Kind | UV5Kind | UV6Kind.

Definition UV_KIND_ORDER : list UVChannel :=
  [UVKind; UV2Kind; UV3Kind; UV4Kind; UV5Kind; UV6Kind].

(** What the scene logic reads and writes of a mesh: its identity, the
    vertex count the engine reports, the vertex buffers ([None] when
    [getVerticesData] answers null, which is also when
    [isVerticesDataPresent] answers false), and the bounding box of
    [getBoundingInfo] in local and in world space, as it is after
    [computeWorldMatrix(true)] and [refreshBoundingInfo(true, false)]. *)
Record Mesh : Type := mkMesh {
  uniqueId : nat;
  totalVertices : nat;
  positions : option (list num);
  uv : option (list num);
  uv2 : option (list num);
  uv3 : option (list num);
  uv4 : option (list num);
  uv5 : option (list num);
  uv6 : option (list num);
  minimum : Vec3;
  maximum : Vec3;
  minimumWorld : Vec3;
  maximumWorld : Vec3
}.

Definition getUVData (m : Mesh) (k : UVChannel) : option (list num) :=
  match k with
  | UVKind => uv m
  | UV2Kind => uv2 m
  | UV3Kind => uv3 m
  | UV4Kind => uv4 m
  | UV5Kind => uv5 m
  | UV6Kind => uv6 m
  end.

(** [mesh.setVerticesData(VertexBuffer.UVKind, data, false)] *)
Definition setUV (m : Mesh) (data : list num) : Mesh :=
  mkMesh (uniqueId m) (totalVertices m) (positions m) (Some data) (uv2 m) (uv3 m) (uv4 m)
         (uv5 m) (uv6 m) (minimum m) (maximum m) (minimumWorld m)
         (maximumWorld m).

(** [mesh.getTotalVertices()] *)
Definition getTotalVertices (m : Mesh) : nat := totalVertices m.

(** ** UV repair (CanvasHost.tsx, the first [forEach] of [loadModels]) *)

Module UVRepair.
Local Open Scope js_scope.

(** The [for (const kind of UV_KIND_ORDER.slice(1))] loop: the first
    alternative channel that is present and not empty. *)
Fixpoint firstAlt (m : Mesh) (kinds : list UVChannel) : option (list num) :=
  match kinds with
  | [] => None
  | k :: rest =>
      match getUVData m k with
      | Some (c :: alt) => Some (c :: alt)
      | _ => firstAlt m rest
      end
  end.

(** [v => !isFinite(v) || v < -1 || v > 10] *)
Definition badUV (v : num) : bool :=
  negb (isFinite v) || (v <? n_ (-1))%js || (v >? n_ 10)%js.

(** [!uvs || uvs.some(...)] *)
Definition needsFix (uvs : option (list num)) : bool :=
  match uvs with
  | None => true
  | Some l => existsb badUV l
  end.

(** The four running extremes of the first loop over [positions]. *)
Record Extent : Type := extent { minX : num; maxX : num; minZ : num; maxZ : num }.

Definition extent0 : Extent := extent PInf NInf PInf NInf.

Definition widen (e : Extent) (x z : num) : Extent :=
  extent (if (x <? minX e)%js then x else minX e)
         (if (x >? maxX e)%js then x else maxX e)
         (if (z <? minZ e)%js then z else minZ e)
         (if (z >? maxZ e)%js then z else maxZ e).

(** [for (let i = 0; i < positions.length; i += 3)] reading [positions[i]]
    and [positions[i + 2]]; a read past the end is [undefined]. *)
Fixpoint scan (ps : list num) (e : Extent) : Extent :=
  match ps with
  | [] => e
  | x :: _ :: z :: rest => scan rest (widen e x z)
  | x :: _ => widen e x (of_undefined None)
  end.

Definition rangeX (e : Extent) : num := or_else (maxX e - minX e)%js (n_ 1).
Definition rangeZ (e : Extent) : num := or_else (maxZ e - minZ e)%js (n_ 1).

(** The second loop, which fills [newUVs] two entries per position triple. *)
Fixpoint emit (ps : list num) (e : Extent) : list num :=
  match ps with
  | [] => []
  | x :: _ :: z :: rest =>
      ((x - minX e) / rangeX e)%js :: ((z - minZ e) / rangeZ e)%js :: emit rest e
  | x :: _ =>
      [((x - minX e) / rangeX e)%js;
       ((of_undefined None - minZ e) / rangeZ e)%js]
  end.

(** [new Array((positions.length / 3) * 2)] raises a RangeError when the
    length is not a whole number. *)
Definition arrayLengthOk (ps : list num) : bool :=
  Nat.eqb (Nat.modulo (List.length ps) 3) 0.

Definition newUVs (ps : list num) : list num := emit ps (scan ps extent0).

(** How the callback ends: normally, or by an exception that leaves the
    mesh as it was at that point. *)
Inductive Outcome : Type :=
| Done (m : Mesh)
| Thrown (m : Mesh).

Definition meshOf (o : Outcome) : Mesh :=
  match o with Done m | Thrown m => m end.

(** The part of the callback after [uvs] has been read. *)
Definition fix_ (m : Mesh) (uvs : option (list num)) : Outcome :=
  if needsFix uvs then
    match positions m with
    | None => Done m
    | Some ps =>
        if arrayLengthOk ps then Done (setUV m (newUVs ps)) else Thrown m
    end
  else Done m.

(** The callback [mesh => { ... }] of [meshesWithGeom.forEach]. *)
Definition repairUVs (m : Mesh) : Outcome :=
  match positions m with
  | None => Done m
  | Some _ =>
      match uv m with
      | Some uvs => fix_ m (Some uvs)
      | None =>
          match firstAlt m (tl UV_KIND_ORDER) with
          | Some alt => fix_ (setUV m alt) (Some alt)
          | None => fix_ m None
          end
      end
  end.

End UVRepair.

(** ** Bounding boxes over a set of meshes *)

Record Bounds : Type := mkBounds { bmin : Vec3; bmax : Vec3 }.

Definition infinityBox : Bounds :=
  mkBounds (vec3 PInf PInf PInf) (vec3 NInf NInf NInf).

(** One round of the [meshes.forEach] accumulation: [min] and [max] are
    replaced by [Vector3.Minimize(min, lo)] and [Vector3.Maximize(max, hi)]. *)
Definition grow (b : Bounds) (lo hi : Vec3) : Bounds :=
  mkBounds (Vector3.Minimize (bmin b) lo) (Vector3.Maximize (bmax b) hi).

(** The accumulation over the world boxes, from the box at infinity. *)
Definition accumulateWorld (meshes : list Mesh) : Bounds :=
  fold_left (fun b m => grow b (minimumWorld m) (maximumWorld m)) meshes infinityBox.

(** The same over the local boxes. *)
Definition accumulateLocal (meshes : list Mesh) : Bounds :=
  fold_left (fun b m => grow b (minimum m) (maximum m)) meshes infinityBox.

(** [if (!isFinite(min.x) || !isFinite(max.x)) return null; return { min, max }] *)
Definition finiteOrNull (b : Bounds) : option Bounds :=
  if negb (isFinite (vx (bmin b))) || negb (isFinite (vx (bmax b)))
  then None else Some b.

Definition centerOf (b : Bounds) : Vec3 :=
  Vector3.scale (Vector3.add (bmin b) (bmax b)) (Fin (1 # 2)).

Definition sizeOf (b : Bounds) : Vec3 := Vector3.subtract (bmax b) (bmin b).

(** [Math.max(size.x, size.y, size.z)] *)
Definition maxDimOf (b : Bounds) : num :=
  let s := sizeOf b in max3 (vx s) (vy s) (vz s).

(** The orbit camera as the scene logic drives it: the two properties it
    assigns. *)
Record Camera : Type := mkCamera { target : Vec3; radius : num }.

(** [camera.setTarget(t)] replaces the target, and the engine then rebuilds
    the angles and the radius of the camera from its position; [rebuilt] is
    the radius it derives, which the repository does not determine.
    [camera.radius = r] assigns the radius and leaves the target. *)
Definition setTarget (c : Camera) (t : Vec3) (rebuilt : num) : Camera :=
  mkCamera t rebuilt.
Definition setRadius (c : Camera) (r : num) : Camera := mkCamera (target c) r.

(** [camera.setTarget(t)] followed by [camera.radius = r]: whatever radius
    the engine derived for the new target is overwritten by the assignment. *)
Definition setTargetThenRadius (c : Camera) (t : Vec3) (r : num) : Camera :=
  mkCamera t r.

(** A JavaScript object used as a map from names (none of which is written
    like an array index): keys keep their insertion order, and assigning to a
    key that exists replaces its value in place.  [get] and [set] are the
    lookup and the assignment on the keys of the object itself; the names it
    inherits are told apart by [inherited], and [set] stands for the
    assignment to a name other than [__proto__] (which in JavaScript replaces
    the prototype and adds no key). *)
Module Obj.
Section Obj.
Context {A : Type}.

Definition t : Type := list (string * A).

Fixpoint get (o : t) (k : string) : option A :=
  match o with
  | [] => None
  | (k', v) :: rest => if String.eqb k' k then Some v else get rest k
  end.

Fixpoint set (o : t) (k : string) (v : A) : t :=
  match o with
  | [] => [(k, v)]
  | (k', v') :: rest =>
      if String.eqb k' k then (k, v) :: rest else (k', v') :: set rest k v
  end.

Definition keys (o : t) : list string := map fst o.
Definition values (o : t) : list A := map snd o.

(** The property names an object literal inherits from [Object.prototype]:
    for them [o[k]] answers a function or the prototype, which is truthy,
    although [o] has no such key. *)
Definition inherited (k : string) : bool :=
  existsb (String.eqb k)
    ["constructor"; "__defineGetter__"; "__defineSetter__"; "hasOwnProperty";
     "__lookupGetter__"; "__lookupSetter__"; "isPrototypeOf";
     "propertyIsEnumerable"; "toString"; "valueOf"; "__proto__";
     "toLocaleString"]%string.

(** Whether [o[k]] is truthy, the values stored being objects. *)
Definition truthyAt (o : t) (k : string) : bool :=
  match get o k with
  | Some _ => true
  | None => inherited k
  end.

End Obj.
Arguments t : clear implicits.
End Obj.

(** ** sceneControls.ts *)

Module SceneControls.

(** [computeWorldBounds(node)], on [node.getChildMeshes(false)] with the
    bounding info the engine reports after the forced refresh. *)
Definition computeWorldBounds (meshes : list Mesh) : option Bounds :=
  match meshes with
  | [] => None
  | _ => finiteOrNull (accumulateWorld meshes)
  end.

Definition DEFAULT_LOWER_RADIUS : num := Fin (2 # 10).
Definition DEFAULT_UPPER_RADIUS : num := n_ 1500.

(** The end state [focusModel] hands to [animateCameraTo], for an anchor
    given by its child meshes; [None] when it returns early. *)
Definition focusModel (anchors : Obj.t (list Mesh)) (name : string)
  : option Camera :=
  match Obj.get anchors name with
  | None => None
  | Some meshes =>
      match computeWorldBounds meshes with
      | None => None
      | Some b =>
          let center := centerOf b in
          let size := sizeOf b in
          let center' :=
            vec3 (vx center)
                 (vy center + max2 (vy size * Fin (1 # 10)) (Fin (3 # 2)))%js
                 (vz center) in
          let radius := (max3 (vx size) (vy size) (vz size) * Fin (11 # 10))%js in
          Some (mkCamera center' (max2 radius (n_ 2)))
      end
  end.

End SceneControls.

(** ** models.config.ts *)

Record ModelConfig : Type := mkModelConfig {
  name : string;
  file : string;
  scale : option num;
  rotation : option Vec3;
  position : option Vec3;
  pickable : option bool;
  fitSize : option num
}.

(** What [LoadAssetContainerAsync] resolves to, as far as the scene logic
    reads it. *)
Record AssetContainer : Type := mkContainer { meshes : list Mesh }.

(** The asset loader: [None] when the promise is rejected. *)
Definition Loader : Type := string -> option AssetContainer.

(** Exceptions of the model loops. *)
Inductive Exn : Type :=
| LoadRejected
| RangeError.

Inductive Result (A : Type) : Type :=
| Ok (a : A)
| Throw (e : Exn).
Arguments Ok {A} a.
Arguments Throw {A} e.

Definition zero3 : Vec3 := vec3 (n_ 0) (n_ 0) (n_ 0).

(** [cfg.fitSize ?? 30], [cfg.position ?? [0, 0, 0]],
    [cfg.rotation ?? [0, 0, 0]] *)
Definition targetSizeOf (cfg : ModelConfig) : num :=
  match fitSize cfg with Some s => s | None => n_ 30 end.
Definition positionOf (cfg : ModelConfig) : Vec3 :=
  match position cfg with Some p => p | None => zero3 end.
Definition rotationOf (cfg : ModelConfig) : Vec3 :=
  match rotation cfg with Some r => r | None => zero3 end.

(** ** CanvasHost.tsx *)

Module CanvasHost.
Local Open Scope js_scope.

(** The transform chain [loadModels] builds for one model and registers
    under the model's name: the anchor node with its position and rotation,
    the scaler node parented to it, the offset node parented to the scaler,
    and the meshes that end up below the offset node. *)
Record Anchor : Type := mkAnchor {
  anchorName : string;
  anchorPosition : Vec3;
  anchorRotation : Vec3;
  scalerScaling : Vec3;
  offsetPosition : Vec3;
  anchorPickable : bool;
  anchorMeshes : list Mesh
}.

(** [meshesWithGeom.forEach(mesh => { ...repair... })]: an exception in one
    callback ends the loop. *)
Fixpoint repairAll (ms : list Mesh) : Result (list Mesh) :=
  match ms with
  | [] => Ok []
  | m :: rest =>
      match UVRepair.repairUVs m with
      | UVRepair.Thrown _ => Throw RangeError
      | UVRepair.Done m' =>
          match repairAll rest with
          | Ok rest' => Ok (m' :: rest')
          | Throw e => Throw e
          end
      end
  end.

(** Lines 509-540: from the accumulated [min] and [max] to the chain. *)
Definition normalize (cfg : ModelConfig) (b : Bounds) (ms : list Mesh) : Anchor :=
  let min := bmin b in
  let max := bmax b in
  let rawSize := Vector3.subtract max min in
  let maxDim := max3 (vx rawSize) (vy rawSize) (vz rawSize) in
  let rawCenter := Vector3.scale (Vector3.add min max) (Fin (1 # 2)) in
  let targetSize := targetSizeOf cfg in
  let scale := targetSize / maxDim in
  let p := positionOf cfg in
  let r := rotationOf cfg in
  mkAnchor (String.append (name cfg) "_anchor") p r
           (vec3 scale scale scale)
           (vec3 (- vx rawCenter) (- vy min) (- vz rawCenter))
           (match pickable cfg with Some false => false | _ => true end)
           ms.

(** The body of the [try] block for one configuration entry.  [Ok] with
    the registry unchanged is the [continue]; [Throw] is what the [catch]
    will swallow. *)
Definition loadOne (load : Loader) (cfg : ModelConfig) (anchors : Obj.t Anchor)
  : Result (Obj.t Anchor) :=
  match load (String.append "/assets/" (file cfg)) with
  | None => Throw LoadRejected
  | Some container =>
      let meshesWithGeom :=
        filter (fun m => Nat.ltb 0 (getTotalVertices m)) (meshes container) in
      match repairAll meshesWithGeom with
      | Throw e => Throw e
      | Ok meshesWithGeom =>
          if Nat.eqb (List.length meshesWithGeom) 0 then Ok anchors
          else
            let b := accumulateWorld meshesWithGeom in
            Ok (Obj.set anchors (name cfg) (normalize cfg b meshesWithGeom))
      end
  end.

(** The [for (const cfg of configs) { try { ... } catch { } }] loop. *)
Fixpoint loadEach (load : Loader) (configs : list ModelConfig)
  (anchors : Obj.t Anchor) : Obj.t Anchor :=
  match configs with
  | [] => anchors
  | cfg :: rest =>
      match loadOne load cfg anchors with
      | Ok anchors' => loadEach load rest anchors'
      | Throw _ => loadEach load rest anchors
      end
  end.

(** Lines 623-633: the camera is aimed at the mean anchor position. *)
Definition frameAnchors (anchors : Obj.t Anchor) (camera : Camera) : Camera :=
  let anchorNames := Obj.keys anchors in
  let n := n_ (Z.of_nat (List.length anchorNames)) in
  if Nat.ltb 0 (List.length anchorNames) then
    let sumX := fold_left (fun s a => s + vx (anchorPosition a)) (Obj.values anchors) (n_ 0) in
    let sumZ := fold_left (fun s a => s + vz (anchorPosition a)) (Obj.values anchors) (n_ 0) in
    setTargetThenRadius camera (vec3 (sumX / n) (n_ 20) (sumZ / n)) (n_ 150)
  else setRadius camera (n_ 150).

Definition loadModels (load : Loader) (configs : list ModelConfig)
  (camera : Camera) (anchors : Obj.t Anchor) : Obj.t Anchor * Camera :=
  let anchors' := loadEach load configs anchors in
  (anchors', frameAnchors anchors' camera).

(** [applySnap], run on every view-matrix change, with [snap] the current
    [snapRef.current].  [rebuilt cam t] is the radius the engine derives
    when [cam.setTarget(t)] replaces the target of [cam] in that run (it
    comes from the position of the camera, which the scene logic does not
    read). *)
Definition applySnap (rebuilt : Camera -> Vec3 -> num) (snap : num) (cam : Camera)
  : Camera :=
  if snap <=? n_ 0 then cam
  else
    let t := target cam in
    let snappedX := round (vx t / snap) * snap in
    let snappedZ := round (vz t / snap) * snap in
    if neqb snappedX (vx t) || neqb snappedZ (vz t)
    then
      let t' := vec3 snappedX (vy t) snappedZ in
      setTarget cam t' (rebuilt cam t')
    else cam.

(** *** Hover and interaction state *)

(** The module-level variables [isInteracting], [interactionTimeout] (armed
    or not) and [lastHoveredMesh], with the two places a highlight can live:
    the [renderOutline] flag of each mesh and the meshes of the highlight
    layer.  Meshes are named by their [uniqueId]. *)
Record HoverState : Type := mkHover {
  isInteracting : bool;
  interactionTimeout : bool;
  lastHoveredMesh : option nat;
  renderOutline : nat -> bool;
  layerMeshes : nat -> bool
}.

Definition setFlag (f : nat -> bool) (k : nat) (v : bool) : nat -> bool :=
  fun i => if Nat.eqb i k then v else f i.

Definition initialHover : HoverState :=
  mkHover false false None (fun _ => false) (fun _ => false).

Definition setInteracting (active : bool) (s : HoverState) : HoverState :=
  if active
  then mkHover true false (lastHoveredMesh s) (renderOutline s) (layerMeshes s)
  else mkHover (isInteracting s) true (lastHoveredMesh s) (renderOutline s)
               (layerMeshes s).

(** The callback of the armed timeout. *)
Definition timeoutFires (s : HoverState) : HoverState :=
  if interactionTimeout s
  then mkHover false false (lastHoveredMesh s) (renderOutline s) (layerMeshes s)
  else s.

(** [highlightLayer.removeMesh(m)] or [m.renderOutline = false] *)
Definition unmark (highlightLayer : bool) (m : nat) (s : HoverState) : HoverState :=
  if highlightLayer
  then mkHover (isInteracting s) (interactionTimeout s) (lastHoveredMesh s)
               (renderOutline s) (setFlag (layerMeshes s) m false)
  else mkHover (isInteracting s) (interactionTimeout s) (lastHoveredMesh s)
               (setFlag (renderOutline s) m false) (layerMeshes s).

(** [highlightLayer.addMesh(m, hoverColor)] or [m.renderOutline = true] *)
Definition mark (highlightLayer : bool) (m : nat) (s : HoverState) : HoverState :=
  if highlightLayer
  then mkHover (isInteracting s) (interactionTimeout s) (lastHoveredMesh s)
               (renderOutline s) (setFlag (layerMeshes s) m true)
  else mkHover (isInteracting s) (interactionTimeout s) (lastHoveredMesh s)
               (setFlag (renderOutline s) m true) (layerMeshes s).

Definition setLast (l : option nat) (s : HoverState) : HoverState :=
  mkHover (isInteracting s) (interactionTimeout s) l (renderOutline s)
          (layerMeshes s).

(** The [OnPointerOverTrigger] action of mesh [mesh]. *)
Definition onPointerOver (highlightLayer : bool) (mesh : nat) (s : HoverState)
  : HoverState :=
  if isInteracting s then s
  else
    match lastHoveredMesh s with
    | Some l =>
        if Nat.eqb l mesh then s
        else mark highlightLayer mesh
               (setLast (Some mesh) (unmark highlightLayer l s))
    | None => mark highlightLayer mesh (setLast (Some mesh) s)
    end.

(** The [OnPointerOutTrigger] action of mesh [mesh]. *)
Definition onPointerOut (highlightLayer : bool) (mesh : nat) (s : HoverState)
  : HoverState :=
  if isInteracting s then s
  else
    let s' :=
      match lastHoveredMesh s with
      | Some l => if Nat.eqb l mesh then setLast None s else s
      | None => s
      end in
    unmark highlightLayer mesh s'.

Inductive Event : Type :=
| PointerOver (mesh : nat)
| PointerOut (mesh : nat)
| PointerDown
| PointerUp
| Wheel
| TimeoutFires.

Definition handle (highlightLayer : bool) (s : HoverState) (e : Event) : HoverState :=
  match e with
  | PointerOver m => onPointerOver highlightLayer m s
  | PointerOut m => onPointerOut highlightLayer m s
  | PointerDown => setInteracting true s
  | PointerUp => setInteracting false s
  | Wheel => setInteracting false (setInteracting true s)
  | TimeoutFires => timeoutFires s
  end.

Definition run (highlightLayer : bool) (events : list Event) (s : HoverState)
  : HoverState :=
  fold_left (handle highlightLayer) events s.

(** The mesh carries the hover highlight. *)
Definition highlighted (highlightLayer : bool) (s : HoverState) (m : nat) : bool :=
  if highlightLayer then layerMeshes s m else renderOutline s m.

End CanvasHost.

(** ** SceneManager.ts *)

Module SceneManager.
Local Open Scope js_scope.

(** [computeLocalBounds(node)] on [node.getChildMeshes(false)] *)
Definition computeLocalBounds (meshes : list Mesh) : option Bounds :=
  match meshes with
  | [] => None
  | _ => finiteOrNull (accumulateLocal meshes)
  end.

(** [computeWorldBounds(node)] on [node.getChildMeshes(false)] *)
Definition computeWorldBounds (meshes : list Mesh) : option Bounds :=
  match meshes with
  | [] => None
  | _ => finiteOrNull (accumulateWorld meshes)
  end.

(** The anchor node with the group node below it, which carries rotation,
    scaling and position together. *)
Record Anchor : Type := mkAnchor {
  anchorName : string;
  anchorPosition : Vec3;
  groupRotation : Vec3;
  groupScaling : Vec3;
  groupPosition : Vec3;
  groupMeshes : list Mesh
}.

Record State : Type := mkState {
  anchors : Obj.t Anchor;
  errors : list string
}.

Definition onError (msg : string) (s : State) : State :=
  mkState (anchors s) (errors s ++ [msg]).

(** The body of the [try] block of [loadModels] for one entry. *)
Definition place (cfg : ModelConfig) (rawBounds : Bounds) (ms : list Mesh) : Anchor :=
  let rawSize := Vector3.subtract (bmax rawBounds) (bmin rawBounds) in
  let maxDim := max3 (vx rawSize) (vy rawSize) (vz rawSize) in
  let targetSize := targetSizeOf cfg in
  let scale := targetSize / maxDim in
  let rawCenter :=
    Vector3.scale (Vector3.add (bmin rawBounds) (bmax rawBounds)) (Fin (1 # 2)) in
  let p := positionOf cfg in
  let r := rotationOf cfg in
  let scaledCenter := Vector3.scale rawCenter scale in
  let scaledMinY := vy (bmin rawBounds) * scale in
  mkAnchor (String.append (name cfg) "_anchor") p r
           (vec3 scale scale scale)
           (vec3 (- vx scaledCenter) (- scaledMinY) (- vz scaledCenter))
           ms.

(** One round of the loop of [loadModels]: the guard
    [if (this.anchors[cfg.name]) continue], which is also passed for a name
    the object only inherits, then the [try] block with its [catch]. *)
Definition loadOne (load : Loader) (cfg : ModelConfig) (s : State) : State :=
  if Obj.truthyAt (anchors s) (name cfg) then s
  else
    match load (String.append "/assets/" (file cfg)) with
    | None => onError (String.append "Failed to load " (name cfg)) s
    | Some container =>
        match computeLocalBounds (meshes container) with
        | None => s
        | Some rawBounds =>
            mkState
              (Obj.set (anchors s) (name cfg)
                 (place cfg rawBounds (meshes container)))
              (errors s)
        end
    end.

(** The [for] loop of [loadModels], when the scene exists. *)
Definition loadEach (load : Loader) (configs : list ModelConfig) (s : State) : State :=
  fold_left (fun s cfg => loadOne load cfg s) configs s.

(** The accumulation of [frameAll] over [Object.values(this.anchors)], each
    anchor given by its child meshes: the running box and [hasModels]. *)
Definition frameStep (acc : Bounds * bool) (anchorMeshes : list Mesh)
  : Bounds * bool :=
  match computeWorldBounds anchorMeshes with
  | Some bounds => (grow (fst acc) (bmin bounds) (bmax bounds), true)
  | None => acc
  end.

Definition defaultView (cam : Camera) : Camera :=
  setTargetThenRadius cam (vec3 (n_ 0) (n_ 10) (n_ 0)) (n_ 150).

(** What [frameAll] does with the accumulated box. *)
Definition frameBox (b : Bounds) (cam : Camera) : Camera :=
  let center := centerOf b in
  let size := sizeOf b in
  let radius := max3 (vx size) (vy size) (vz size) * Fin (15 # 10) in
  setTargetThenRadius cam center (max2 radius (n_ 100)).

Definition frameAll (anchors : Obj.t (list Mesh)) (camera : option Camera)
  : option Camera :=
  match camera with
  | None => None
  | Some cam =>
      let '(box, hasModels) :=
        fold_left frameStep (Obj.values anchors) (infinityBox, false) in
      if negb hasModels then Some (defaultView cam)
      else Some (frameBox box cam)
  end.

End SceneManager.

(** ** The engine's placement of a point below a chain *)

(** World position of a point that sits below the offset node of a
    [CanvasHost] chain: offset translation, then uniform scaling, then the
    anchor's rotation and translation.  The rotation an engine derives from
    Euler angles is the parameter [rotateBy]. *)
Definition worldOf (rotateBy : Vec3 -> Vec3 -> Vec3) (a : CanvasHost.Anchor)
  (p : Vec3) : Vec3 :=
  let q := Vector3.add (CanvasHost.offsetPosition a) p in
  let s := CanvasHost.scalerScaling a in
  let scaled := vec3 (vx s * vx q)%js (vy s * vy q)%js (vz s * vz q)%js in
  Vector3.add (CanvasHost.anchorPosition a)
              (rotateBy (CanvasHost.anchorRotation a) scaled).

(** The same below the group node of a [SceneManager] anchor, which scales,
    rotates and translates in that order. *)
Definition worldOfGroup (rotateBy : Vec3 -> Vec3 -> Vec3) (a : SceneManager.Anchor)
  (p : Vec3) : Vec3 :=
  let s := SceneManager.groupScaling a in
  let scaled := vec3 (vx s * vx p)%js (vy s * vy p)%js (vz s * vz p)%js in
  Vector3.add (SceneManager.anchorPosition a)
    (Vector3.add (SceneManager.groupPosition a)
                 (rotateBy (SceneManager.groupRotation a) scaled)).

(** ** Finite inputs *)

(** A vertex with finite coordinates, and the position buffer of a list of
    such vertices. *)
Definition Vertex : Type := (Q * Q * Q)%type.

Definition vX (v : Vertex) : Q := fst (fst v).
Definition vZ (v : Vertex) : Q := snd v.

Definition flatten (vs : list Vertex) : list num :=
  flat_map (fun v => [Fin (fst (fst v)); Fin (snd (fst v)); Fin (snd v)]) vs.

Definition fin3 (x y z : Q) : Vec3 := vec3 (Fin x) (Fin y) (Fin z).

(** [m] is a least (greatest) element of [l]. *)
Definition isMin (m : Q) (l : list Q) : Prop :=
  In m l /\ forall q, In q l -> m <= q.
Definition isMax (m : Q) (l : list Q) : Prop :=
  In m l /\ forall q, In q l -> q <= m.

(** ** The specification's reading of some operations *)

Module Spec.
Local Open Scope js_scope.

(** Section 4.2: [range = max(max - min, 1)]. *)
Definition range (lo hi : num) : num := max2 (hi - lo) (n_ 1).

(** Section 4.2: the texture coordinates of one vertex under that range. *)
Definition uvOf (e : UVRepair.Extent) (x z : num) : num * num :=
  ((x - UVRepair.minX e) / range (UVRepair.minX e) (UVRepair.maxX e),
   (z - UVRepair.minZ e) / range (UVRepair.minZ e) (UVRepair.maxZ e)).

(** Section 4.1: the accumulated box is non-finite when any of its six
    components is. *)
Definition nonFinite (b : Bounds) : bool :=
  negb (finiteVec (bmin b) && finiteVec (bmax b)).

End Spec.

(** ** Auxiliary definitions of the proofs *)

(** One step of a running minimum, respectively maximum, as the loops and
    [Vector3.Minimize] / [Vector3.Maximize] take it. *)
Definition lower (acc v : num) : num := if (v <? acc)%js then v else acc.
Definition upper (acc v : num) : num := if (v >? acc)%js then v else acc.

(** One round of each of the two loops of the repair, on a finite vertex. *)
Definition widenBy (e : UVRepair.Extent) (v : Vertex) : UVRepair.Extent :=
  UVRepair.widen e (Fin (vX v)) (Fin (vZ v)).

Definition uvPair (e : UVRepair.Extent) (v : Vertex) : list num :=
  [((Fin (vX v) - UVRepair.minX e) / UVRepair.rangeX e)%js;
   ((Fin (vZ v) - UVRepair.minZ e) / UVRepair.rangeZ e)%js].

(** The divisor the second loop uses on an axis whose least and greatest
    coordinates are [lo] and [hi]. *)
Definition divisor (lo hi : Q) : Q :=
  if Qeq_bool (hi - lo) 0 then inject_Z 1 else hi - lo.

(** A box with finite corners. *)
Record QBox : Type := qbox { loX : Q; loY : Q; loZ : Q; hiX : Q; hiY : Q; hiZ : Q }.

Definition boxOf (b : QBox) : Bounds :=
  mkBounds (fin3 (loX b) (loY b) (loZ b)) (fin3 (hiX b) (hiY b) (hiZ b)).

(** The world box and the local box of a mesh, and a mesh that has just a
    box. *)
Definition worldBox (m : Mesh) : Bounds := mkBounds (minimumWorld m) (maximumWorld m).
Definition localBox (m : Mesh) : Bounds := mkBounds (minimum m) (maximum m).

Definition boxMesh (id : nat) (lo hi : Vec3) : Mesh :=
  mkMesh id 0 None None None None None None None lo hi lo hi.

(** Growing a box by a list of boxes, one after the other. *)
Definition growAll (boxes : list Bounds) (b : Bounds) : Bounds :=
  fold_left (fun u x => grow u (bmin x) (bmax x)) boxes b.

(** The world bounds of the anchors that have some, in registry order. *)
Definition worldBoundsOf (anchors : Obj.t (list Mesh)) : list Bounds :=
  flat_map (fun ms => match SceneManager.computeWorldBounds ms with
                      | Some b => [b]
                      | None => []
                      end) (Obj.values anchors).

(** The map [f] carries the corners of the box [U] onto the corners of the
    box [W], and every point of [U] into [W]. *)
Definition carriesOnto (f : Vec3 -> Vec3) (U W : QBox) : Prop :=
  f (bmin (boxOf U)) = bmin (boxOf W)
  /\ f (bmax (boxOf U)) = bmax (boxOf W)
  /\ forall x y z,
       loX U <= x <= hiX U -> loY U <= y <= hiY U -> loZ U <= z <= hiZ U ->
       exists x' y' z',
         f (fin3 x y z) = fin3 x' y' z'
         /\ loX W <= x' <= hiX W /\ loY W <= y' <= hiY W /\ loZ W <= z' <= hiZ W.

(** Every highlighted mesh is the one recorded in [lastHoveredMesh]. *)
Definition hoverInv (highlightLayer : bool) (s : CanvasHost.HoverState) : Prop :=
  forall m, CanvasHost.highlighted highlightLayer s m = true ->
            CanvasHost.lastHoveredMesh s = Some m.

(** ** The claims that do not hold, as propositions *)

(** Section 4.2 on a finite buffer: the coordinates written for every vertex
    are those of [Spec.uvOf]. *)
Definition emitsSpecRange (vs : list Vertex) : Prop :=
  forall k v, nth_error vs k = Some v ->
    exists u w,
      nth_error (UVRepair.newUVs (flatten vs)) (2 * k) = Some u
      /\ nth_error (UVRepair.newUVs (flatten vs)) (2 * k + 1) = Some w
      /\ (u =~ fst (Spec.uvOf (UVRepair.scan (flatten vs) UVRepair.extent0)
                              (Fin (vX v)) (Fin (vZ v))))%js
      /\ (w =~ snd (Spec.uvOf (UVRepair.scan (flatten vs) UVRepair.extent0)
                              (Fin (vX v)) (Fin (vZ v))))%js.

(** Section 8 on a finite buffer: both coordinates of every vertex lie in
    [0,1], a vertex of least X gets u = 0 and one of greatest X gets u = 1,
    and likewise for Z and v. *)
Definition spansUnitSquare (vs : list Vertex) : Prop :=
  forall k v, nth_error vs k = Some v ->
    exists u w,
      nth_error (UVRepair.newUVs (flatten vs)) (2 * k) = Some (Fin u)
      /\ nth_error (UVRepair.newUVs (flatten vs)) (2 * k + 1) = Some (Fin w)
      /\ 0 <= u <= 1 /\ 0 <= w <= 1
      /\ ((forall v', In v' vs -> vX v <= vX v') -> u == 0)
      /\ ((forall v', In v' vs -> vX v' <= vX v) -> u == 1)
      /\ ((forall v', In v' vs -> vZ v <= vZ v') -> w == 0)
      /\ ((forall v', In v' vs -> vZ v' <= vZ v) -> w == 1).

(** Section 4.1: null exactly for an empty mesh set or an accumulated box
    with a non-finite component. *)
Definition nullIffNonFinite (ms : list Mesh) : Prop :=
  SceneControls.computeWorldBounds ms = None
  <-> (ms = [] \/ Spec.nonFinite (accumulateWorld ms) = true).

(** The world box of an anchor of [CanvasHost]: the image of the raw box of
    its meshes under its chain. *)
Definition anchorWorldBox (rotateBy : Vec3 -> Vec3 -> Vec3) (a : CanvasHost.Anchor)
  : Bounds :=
  let raw := accumulateWorld (CanvasHost.anchorMeshes a) in
  mkBounds (worldOf rotateBy a (bmin raw)) (worldOf rotateBy a (bmax raw)).

(** Section 4.4, for the view [CanvasHost.loadModels] ends with: it frames
    the union of the world boxes of the registered anchors, or is the default
    view when there is none. *)
Definition framesUnionAfterLoad (rotateBy : Vec3 -> Vec3 -> Vec3) (load : Loader)
  (configs : list ModelConfig) (cam : Camera) : Prop :=
  snd (CanvasHost.loadModels load configs cam [])
  = match Obj.values (fst (CanvasHost.loadModels load configs cam [])) with
    | [] => SceneManager.defaultView cam
    | l => SceneManager.frameBox
             (growAll (map (anchorWorldBox rotateBy) l) infinityBox) cam
    end.

(** Sections 4.3 and 7: once the first of two descriptors of the same name
    is registered, the second one fails. *)
Definition rejectsDuplicate (load : Loader) (c1 c2 : ModelConfig) : Prop :=
  forall anchors1, CanvasHost.loadOne load c1 [] = Ok anchors1 ->
    exists e, CanvasHost.loadOne load c2 anchors1 = Throw e.

(** Sections 4.3 and 7: a loaded model whose largest extent is not positive
    is skipped (by an exception or by passing it over), so that its name
    stays unregistered. *)
Definition skipsDegenerate (load : Loader) (cfg : ModelConfig) : Prop :=
  forall container ms,
    load (String.append "/assets/" (file cfg)) = Some container ->
    CanvasHost.repairAll
      (filter (fun m => Nat.ltb 0 (getTotalVertices m)) (meshes container)) = Ok ms ->
    (maxDimOf (accumulateWorld ms) <=? n_ 0)%js = true ->
    forall anchors, Obj.get anchors (name cfg) = None ->
      match CanvasHost.loadOne load cfg anchors with
      | Ok anchors' => Obj.get anchors' (name cfg) = None
      | Throw _ => True
      end.

(** Section 4.3 on one model: the world box of the normalised model, taken
    over the images of the eight corners of its raw box, has the target
    footprint as its largest extent and the anchor's Y as its least Y. *)
Definition corners (U : QBox) : list Vec3 :=
  [fin3 (loX U) (loY U) (loZ U); fin3 (hiX U) (loY U) (loZ U);
   fin3 (loX U) (hiY U) (loZ U); fin3 (hiX U) (hiY U) (loZ U);
   fin3 (loX U) (loY U) (hiZ U); fin3 (hiX U) (loY U) (hiZ U);
   fin3 (loX U) (hiY U) (hiZ U); fin3 (hiX U) (hiY U) (hiZ U)].

Definition worldBoxUnder (f : Vec3 -> Vec3) (U : QBox) : Bounds :=
  fold_left (fun b p => grow b (f p) (f p)) (corners U) infinityBox.

Definition fitsFootprint (rotateBy : Vec3 -> Vec3 -> Vec3) (cfg : ModelConfig)
  (ms : list Mesh) (U : QBox) : Prop :=
  accumulateWorld ms = boxOf U ->
  (loX U < hiX U \/ loY U < hiY U \/ loZ U < hiZ U) ->
  (n_ 0 <? targetSizeOf cfg)%js = true ->
  let a := CanvasHost.normalize cfg (accumulateWorld ms) ms in
  let W := worldBoxUnder (worldOf rotateBy a) U in
  (maxDimOf W =~ targetSizeOf cfg)%js
  /\ (vy (bmin W) =~ vy (CanvasHost.anchorPosition a))%js.




(** ** Example scenes *)

(** Scenario 1 of section 8: the cube [-1,1]^3 with footprint 40 at (10,0,0). *)
Definition cubeMesh : Mesh := boxMesh 1 (fin3 (-1) (-1) (-1)) (fin3 1 1 1).

Definition cubeCfg : ModelConfig :=
  mkModelConfig "cube" "cube.glb" None (Some zero3) (Some (fin3 10 0 0))
                (Some true) (Some (Fin 40)).

(** The same cube turned about the vertical axis by the angle of cosine 3/5
    and sine 4/5 (0.9273 rad), and a turn about the vertical axis by the
    angle of cosine [c] and sine [s] as the rotation of an anchor. *)
Definition turnedCubeCfg : ModelConfig :=
  mkModelConfig "cube" "cube.glb" None (Some (fin3 0 (9273 # 10000) 0))
                (Some (fin3 10 0 0)) (Some true) (Some (Fin 40)).

Definition turnAboutY (c s : Q) : Vec3 -> Vec3 -> Vec3 :=
  fun _ v => vec3 (Fin c * vx v + Fin s * vz v)%js (vy v)
                  (Fin c * vz v - Fin s * vx v)%js.

(** A triangle in the ground plane with valid texture coordinates. *)
Definition triMesh : Mesh :=
  mkMesh 7 3 (Some (flatten [(0, 0, 0); (1, 0, 0); (0, 0, 1)]))
         (Some [Fin 0; Fin 0; Fin 1; Fin 0; Fin 0; Fin 1])
         None None None None None
         (fin3 0 0 0) (fin3 1 0 1) (fin3 0 0 0) (fin3 1 0 1).

(** A mesh whose three vertices coincide: geometry of extent zero. *)
Definition pointMesh : Mesh :=
  mkMesh 8 3 (Some (flatten [(1, 1, 1); (1, 1, 1); (1, 1, 1)]))
         (Some [Fin 0; Fin 0; Fin 0; Fin 0; Fin 0; Fin 0])
         None None None None None
         (fin3 1 1 1) (fin3 1 1 1) (fin3 1 1 1) (fin3 1 1 1).

Definition exampleLoader : Loader :=
  fun path =>
    if String.eqb path "/assets/tri.glb" then Some (mkContainer [triMesh])
    else if String.eqb path "/assets/point.glb" then Some (mkContainer [pointMesh])
    else None.

(** Two descriptors of the same name, 30 m west and 30 m east, and one for
    the degenerate asset. *)
Definition towerWest : ModelConfig :=
  mkModelConfig "tower" "tri.glb" None None (Some (fin3 (-30) 0 0)) None (Some (Fin 40)).
Definition towerEast : ModelConfig :=
  mkModelConfig "tower" "tri.glb" None None (Some (fin3 30 0 0)) None (Some (Fin 40)).
Definition dotCfg : ModelConfig :=
  mkModelConfig "dot" "point.glb" None None None None (Some (Fin 40)).

(** The camera as [initScene] creates it. *)
Definition camera0 : Camera := mkCamera (vec3 (n_ 0) (n_ 20) (n_ 0)) (n_ 150).

(** The registries after the western tower alone has been loaded. *)
Definition towerAnchors : Obj.t CanvasHost.Anchor :=
  fst (CanvasHost.loadModels exampleLoader [towerWest] camera0 []).
Definition towerState : SceneManager.State :=
  SceneManager.loadEach exampleLoader [towerWest] (SceneManager.mkState [] []).

(** ** map.config.ts *)

Module MapConfig.
Local Open Scope js_scope.

Definition METERS_PER_DEGREE_LAT : num := n_ 111132.

(** [Number.EPSILON], that is 2^-52. *)
Definition EPSILON : num := Fin (1 # 4503599627370496).

(** [metersPerLonDegree]; [cosDeg] stands for
    [lat => Math.cos((lat * Math.PI) / 180)]. *)
Definition metersPerLonDegree (cosDeg : num -> num) (lat : num) : num :=
  cosDeg lat * n_ 111321.

Record GeoExtent : Type := mkGeoExtent {
  minLat : num;
  maxLat : num;
  minLon : num;
  maxLon : num
}.

Record MapPresetConfig : Type := mkPreset {
  label : string;
  extent : GeoExtent;
  groundWidth : num;
  textureSize : option num;
  textureUrl : option string
}.

Record MapInfo : Type := mkMapInfo {
  infoLabel : string;
  infoTextureUrl : string;
  infoGroundWidth : num;
  infoGroundHeight : num;
  unitsPerMeter : num;
  project : num -> num -> num * num;
  centerLat : num;
  centerLon : num;
  infoExtent : GeoExtent
}.

(** [createMapInfo]; [buildUrl] stands for [buildOsmStaticMapUrl], which
    prints numbers into a query string.  [project] answers the pair (x, z). *)
Definition createMapInfo (cosDeg : num -> num) (buildUrl : GeoExtent -> num -> string)
  (config : MapPresetConfig) : MapInfo :=
  let extent := extent config in
  let groundWidth := groundWidth config in
  let latRange := max2 (maxLat extent - minLat extent) EPSILON in
  let lonRange := max2 (maxLon extent - minLon extent) EPSILON in
  let latMid := (minLat extent + maxLat extent) / n_ 2 in
  let lonMid := (minLon extent + maxLon extent) / n_ 2 in
  let latMetersRange := latRange * METERS_PER_DEGREE_LAT in
  let lonMetersRange := lonRange * metersPerLonDegree cosDeg latMid in
  let usableLonMeters := or_else lonMetersRange (n_ 1) in
  let unitsPerMeter := groundWidth / usableLonMeters in
  let groundHeight := max2 (latMetersRange * unitsPerMeter) (n_ 1) in
  let unitsPerDegreeLat := METERS_PER_DEGREE_LAT * unitsPerMeter in
  let unitsPerDegreeLon := metersPerLonDegree cosDeg latMid * unitsPerMeter in
  let textureSize := match textureSize config with Some s => s | None => n_ 2048 end in
  let textureUrl :=
    match textureUrl config with Some u => u | None => buildUrl extent textureSize end in
  mkMapInfo (label config) textureUrl groundWidth groundHeight unitsPerMeter
    (fun lat lon => ((lon - lonMid) * unitsPerDegreeLon,
                     (- (lat - latMid)) * unitsPerDegreeLat))
    latMid lonMid extent.

End MapConfig.

(** ** CanvasHost.tsx: the effects on the stored settings *)

Module CanvasEffects.
Local Open Scope js_scope.

(** What the [snapMeters] effect reads and writes: [snapRef.current] and,
    when [cameraLocalRef.current] is set, the [panningInertia] of that
    camera ([None] while no camera has been created). *)
Record SnapSetting : Type := mkSnapSetting {
  snapRef : num;
  panningInertia : option num
}.

(** The effect: [snapRef.current = snapMeters] and, if there is a camera,
    [panningInertia = snapMeters > 0 ? 0 : 0.5]. *)
Definition onSnapMeters (snapMeters : num) (st : SnapSetting) : SnapSetting :=
  mkSnapSetting snapMeters
    (match panningInertia st with
     | Some _ => Some (if snapMeters >? n_ 0 then n_ 0 else Fin (1 # 2))
     | None => None
     end).

(** The view-change callback under a setting. *)
Definition onViewChanged (rebuilt : Camera -> Vec3 -> num) (st : SnapSetting)
  (cam : Camera) : Camera :=
  CanvasHost.applySnap rebuilt (snapRef st) cam.

End CanvasEffects.

(** ** ControlsPanel.tsx: the frame counter *)

Module FpsCounter.
Local Open Scope js_scope.

(** [frameCount] and [lastTime] of the effect, and the [fps] state. *)
Record Counter : Type := mkCounter { frameCount : nat; lastTime : num; fps : nat }.

(** [useState(0)], [frameCount = 0], [lastTime = performance.now()]. *)
Definition start (now : num) : Counter := mkCounter 0 now 0.

(** One call of [measureFps], [now] being [performance.now()]. *)
Definition measureFps (c : Counter) (now : num) : Counter :=
  let frameCount := S (frameCount c) in
  if n_ 1000 <=? now - lastTime c
  then mkCounter 0 now frameCount
  else mkCounter frameCount (lastTime c) (fps c).

Definition frames (times : list num) (c : Counter) : Counter :=
  fold_left measureFps times c.

End FpsCounter.

(** ** sceneControls.ts: the references and the controls *)

Module Controls.
Local Open Scope js_scope.

(** The two animations [animateCameraTo] installs, by their keys at frame 0
    and at frame [totalFrames]. *)
Record CameraAnimations : Type := mkAnimations {
  frameRate : nat;
  totalFrames : nat;
  targetFrom : Vec3;
  targetTo : Vec3;
  radiusFrom : num;
  radiusTo : num
}.

Record ArcCamera : Type := mkArcCamera {
  camTarget : Vec3;
  camRadius : num;
  lowerRadiusLimit : num;
  upperRadiusLimit : num;
  animations : option CameraAnimations
}.

(** The module-level references.  The scene is its meshes, each with the
    [wireframe] flag of its material or without a material; an anchor is its
    child meshes with the bounding info the engine reports. *)
Record Refs : Type := mkRefs {
  sceneRef : option (list (option bool));
  cameraRef : option ArcCamera;
  highlightLayerRef : bool;
  anchorsRef : Obj.t (list Mesh)
}.

Definition noRefs : Refs := mkRefs None None false [].

Definition setSceneRefs (scene : option (list (option bool))) (camera : option ArcCamera)
  (highlightLayer : bool) (anchors : Obj.t (list Mesh)) : Refs :=
  mkRefs scene camera highlightLayer anchors.

Definition clearSceneRefs (r : Refs) : Refs := noRefs.

Definition withCamera (r : Refs) (c : ArcCamera) : Refs :=
  mkRefs (sceneRef r) (Some c) (highlightLayerRef r) (anchorsRef r).

Definition setLimits (c : ArcCamera) : ArcCamera :=
  mkArcCamera (camTarget c) (camRadius c) SceneControls.DEFAULT_LOWER_RADIUS
              SceneControls.DEFAULT_UPPER_RADIUS (animations c).

(** [animateCameraTo(target, radius)] *)
Definition animateCameraTo (r : Refs) (target : Vec3) (radius : num) : Refs :=
  match cameraRef r, sceneRef r with
  | Some cam, Some _ =>
      withCamera r
        (mkArcCamera (camTarget cam) (camRadius cam) (lowerRadiusLimit cam)
           (upperRadiusLimit cam)
           (Some (mkAnimations 60 30 (camTarget cam) target (camRadius cam) radius)))
  | _, _ => r
  end.

(** [focusModel(name)].  For a name the anchors object only inherits, the
    lookup answers a function and [computeWorldBounds] raises before
    anything is assigned: the references are then as before, as here. *)
Definition focusModel (r : Refs) (name : string) : Refs :=
  match Obj.get (anchorsRef r) name, cameraRef r, sceneRef r with
  | Some anchor, Some cam, Some _ =>
      match SceneControls.computeWorldBounds anchor with
      | None => r
      | Some bounds =>
          let center := Vector3.scale (Vector3.add (bmin bounds) (bmax bounds)) (Fin (1 # 2)) in
          let size := Vector3.subtract (bmax bounds) (bmin bounds) in
          let center' :=
            vec3 (vx center) (vy center + max2 (vy size * Fin (1 # 10)) (Fin (3 # 2)))
                 (vz center) in
          let radius := max3 (vx size) (vy size) (vz size) * Fin (11 # 10) in
          animateCameraTo (withCamera r (setLimits cam)) center' (max2 radius (n_ 2))
      end
  | _, _, _ => r
  end.

(** [resetView()] *)
Definition resetView (r : Refs) : Refs :=
  match cameraRef r, sceneRef r with
  | Some cam, Some _ =>
      animateCameraTo (withCamera r (setLimits cam)) (vec3 (n_ 0) (n_ 20) (n_ 0)) (n_ 150)
  | _, _ => r
  end.

(** [toggleWireframe(enabled)] *)
Definition toggleWireframe (r : Refs) (enabled : bool) : Refs :=
  match sceneRef r with
  | None => r
  | Some ms =>
      mkRefs (Some (map (fun material =>
                           match material with
                           | Some _ => Some enabled
                           | None => None
                           end) ms))
             (cameraRef r) (highlightLayerRef r) (anchorsRef r)
  end.

End Controls.

(** ** CanvasHost.tsx: pointer events together with the pick action *)

Module Session.

Record State : Type := mkState { hover : CanvasHost.HoverState; refs : Controls.Refs }.

(** A pointer event of the canvas or of a mesh, or the [OnPickTrigger]
    action of a mesh of the model [name]. *)
Inductive Input : Type :=
| Pointer (e : CanvasHost.Event)
| Pick (name : string).

Definition step (highlightLayer : bool) (s : State) (i : Input) : State :=
  match i with
  | Pointer e => mkState (CanvasHost.handle highlightLayer (hover s) e) (refs s)
  | Pick name =>
      if CanvasHost.isInteracting (hover s) then s
      else mkState (hover s) (Controls.focusModel (refs s) name)
  end.

Definition run (highlightLayer : bool) (inputs : list Input) (s : State) : State :=
  fold_left (step highlightLayer) inputs s.

End Session.

(** ** SceneManager.ts: the life cycle *)

Module Manager.
Local Open Scope js_scope.

(** The fields of the class the scene logic branches on: [inited], whether
    [scene] is set, [camera], and the registry with the [onError] log. *)
Record State : Type := mkState {
  inited : bool;
  hasScene : bool;
  camera : option Camera;
  core : SceneManager.State
}.

(** [new SceneManager(opts)] *)
Definition fresh : State := mkState false false None (SceneManager.mkState [] []).

Definition report (msg : string) (s : State) : State :=
  mkState (inited s) (hasScene s) (camera s) (SceneManager.onError msg (core s)).

(** [init(canvas)]; [gpu] is whether [navigator.gpu] exists and [engineOk]
    whether the engine is created and initialised without an exception. *)
Definition init (gpu engineOk : bool) (s : State) : State :=
  if inited s then s
  else if negb gpu then report "WebGPU is not available in this browser/device." s
  else if engineOk
       then mkState true true (Some (mkCamera (vec3 (n_ 0) (n_ 20) (n_ 0)) (n_ 150)))
                    (core s)
       else report "Failed to initialize WebGPU engine"
                   (mkState false (hasScene s) (camera s) (core s)).

(** [dispose()] *)
Definition dispose (s : State) : State :=
  mkState false false None (SceneManager.mkState [] (SceneManager.errors (core s))).

(** The engine's view of the registry: each anchor by its child meshes,
    [childMeshes] standing for [anchor.getChildMeshes(false)] with refreshed
    bounding info. *)
Definition viewOf (childMeshes : SceneManager.Anchor -> list Mesh)
  (anchors : Obj.t SceneManager.Anchor) : Obj.t (list Mesh) :=
  map (fun kv => (fst kv, childMeshes (snd kv))) anchors.

(** [frameAll()] and [resetPositions()] *)
Definition frameAll (childMeshes : SceneManager.Anchor -> list Mesh) (s : State) : State :=
  match SceneManager.frameAll (viewOf childMeshes (SceneManager.anchors (core s)))
                              (camera s) with
  | Some cam => mkState (inited s) (hasScene s) (Some cam) (core s)
  | None => s
  end.

(** [loadModels(configs)] *)
Definition loadModels (load : Loader) (childMeshes : SceneManager.Anchor -> list Mesh)
  (configs : list ModelConfig) (s : State) : State :=
  if negb (hasScene s) then report "Scene not initialized" s
  else
    frameAll childMeshes
      (mkState (inited s) (hasScene s) (camera s)
               (SceneManager.loadEach load configs (core s))).

(** [focusModel(name)].  For a name the anchors object only inherits, the
    lookup answers a function and [computeWorldBounds] raises before the
    camera is touched: the fields are then as before, as here. *)
Definition focusModel (childMeshes : SceneManager.Anchor -> list Mesh) (name : string)
  (s : State) : State :=
  match Obj.get (SceneManager.anchors (core s)) name, camera s with
  | Some anchor, Some cam =>
      match SceneManager.computeWorldBounds (childMeshes anchor) with
      | None => s
      | Some bounds =>
          let center := Vector3.scale (Vector3.add (bmin bounds) (bmax bounds)) (Fin (1 # 2)) in
          let size := Vector3.subtract (bmax bounds) (bmin bounds) in
          let radius := max3 (vx size) (vy size) (vz size) * n_ 2 in
          mkState (inited s) (hasScene s)
                  (Some (setTargetThenRadius cam center (max2 radius (n_ 60))))
                  (core s)
      end
  | _, _ => s
  end.

(** The calls a user of the class can make. *)
Inductive Call : Type :=
| Init (gpu engineOk : bool)
| Dispose
| LoadModels (load : Loader) (configs : list ModelConfig)
| ResetPositions
| FocusModel (name : string).

Definition call (childMeshes : SceneManager.Anchor -> list Mesh) (s : State) (c : Call)
  : State :=
  match c with
  | Init gpu engineOk => init gpu engineOk s
  | Dispose => dispose s
  | LoadModels load configs => loadModels load childMeshes configs s
  | ResetPositions => frameAll childMeshes s
  | FocusModel name => focusModel childMeshes name s
  end.

Definition calls (childMeshes : SceneManager.Anchor -> list Mesh) (cs : list Call)
  (s : State) : State :=
  fold_left (call childMeshes) cs s.

End Manager.

(** ** Auxiliary definitions of the further properties *)

(** Every mesh of the list has a finite world box. *)
Definition finiteBoxes (ms : list Mesh) : Prop :=
  Forall (fun m => exists q, worldBox m = boxOf q) ms.

(** Two boxes have the same corners. *)
Definition sameBounds (b b' : Bounds) : Prop :=
  Vector3.same (bmin b) (bmin b') /\ Vector3.same (bmax b) (bmax b').

(** One round of the accumulation over world boxes. *)
Definition growByMesh (b : Bounds) (m : Mesh) : Bounds :=
  grow b (minimumWorld m) (maximumWorld m).

(** The anchor [CanvasHost.loadModels] builds for a configuration entry, if
    the entry gets that far: the asset loads, the repair raises nothing and
    some mesh has vertices. *)
Definition builtBy (load : Loader) (cfg : ModelConfig) : option CanvasHost.Anchor :=
  match load (String.append "/assets/" (file cfg)) with
  | None => None
  | Some container =>
      match CanvasHost.repairAll
              (filter (fun m => Nat.ltb 0 (getTotalVertices m)) (meshes container)) with
      | Ok (m :: ms) =>
          Some (CanvasHost.normalize cfg (accumulateWorld (m :: ms)) (m :: ms))
      | _ => None
      end
  end.

(** The anchor [SceneManager.loadModels] builds for an entry whose name is
    free, if the asset loads and its local bounds are not null. *)
Definition placedBy (load : Loader) (cfg : ModelConfig) : option SceneManager.Anchor :=
  match load (String.append "/assets/" (file cfg)) with
  | None => None
  | Some container =>
      match SceneManager.computeLocalBounds (meshes container) with
      | Some rawBounds => Some (SceneManager.place cfg rawBounds (meshes container))
      | None => None
      end
  end.

(** One round of each loading loop, on the registry alone. *)
Definition registerBuilt (load : Loader) (anchors : Obj.t CanvasHost.Anchor)
  (cfg : ModelConfig) : Obj.t CanvasHost.Anchor :=
  match builtBy load cfg with
  | Some a => Obj.set anchors (name cfg) a
  | None => anchors
  end.

Definition registerPlaced (load : Loader) (anchors : Obj.t SceneManager.Anchor)
  (cfg : ModelConfig) : Obj.t SceneManager.Anchor :=
  if Obj.truthyAt anchors (name cfg) then anchors
  else
    match placedBy load cfg with
    | Some a => Obj.set anchors (name cfg) a
    | None => anchors
    end.

(** The mesh recorded in [lastHoveredMesh] carries the highlight. *)
Definition hoverRecorded (highlightLayer : bool) (s : CanvasHost.HoverState) : Prop :=
  forall m, CanvasHost.lastHoveredMesh s = Some m ->
            CanvasHost.highlighted highlightLayer s m = true.

(** The exported controls of sceneControls.ts as calls on the references. *)
Inductive ControlCall : Type :=
| CallFocusModel (name : string)
| CallResetView
| CallToggleWireframe (enabled : bool).

Definition controlCall (r : Controls.Refs) (c : ControlCall) : Controls.Refs :=
  match c with
  | CallFocusModel name => Controls.focusModel r name
  | CallResetView => Controls.resetView r
  | CallToggleWireframe enabled => Controls.toggleWireframe r enabled
  end.

Definition controlCalls (cs : list ControlCall) (r : Controls.Refs) : Controls.Refs :=
  fold_left controlCall cs r.

(** What the calls of [SceneManager] keep between its fields: anchors are
    registered only while the scene exists, and the scene, the camera and
    the [inited] flag go together. *)
Definition managerInv (s : Manager.State) : Prop :=
  (Manager.hasScene s = false ->
     SceneManager.anchors (Manager.core s) = [] /\ Manager.camera s = None)
  /\ (Manager.hasScene s = true ->
       Manager.camera s <> None /\ Manager.inited s = true).

(** The times [performance.now()] answers in [n] consecutive frames that are
    [d] milliseconds apart, the effect having started at [t0]. *)
Definition steadyFrames (t0 d : Q) (n : nat) : list num :=
  map (fun i => Fin (t0 + inject_Z (Z.of_nat i) * d)) (seq 1 n).

(** ** Numbers: basic facts *)

Lemma same_refl (a : num) : (a =~ a)%js.
Proof. destruct a; simpl; auto. reflexivity. Qed.

Lemma ltb_fin (p q : Q) : (Fin p <? Fin q)%js = true <-> p < q.
Proof.
  simpl. rewrite negb_true_iff. split; intro H.
  - apply Qnot_le_lt. intro Hle. apply Qle_bool_iff in Hle. congruence.
  - destruct (Qle_bool q p) eqn:E; auto.
    apply Qle_bool_iff in E. exfalso. apply (Qlt_not_le _ _ H E).
Qed.

Lemma ltb_fin_false (p q : Q) : (Fin p <? Fin q)%js = false <-> q <= p.
Proof.
  simpl. rewrite negb_false_iff. apply Qle_bool_iff.
Qed.


Lemma sgn_gt (q : Q) : 0 < q -> sgn q = Gt.
Proof. intro H. unfold sgn. apply Qgt_alt. exact H. Qed.

Lemma sgn_eq (q : Q) : q == 0 -> sgn q = Eq.
Proof. intro H. unfold sgn. apply Qeq_alt. exact H. Qed.

Lemma div_fin_pos (p q : Q) : 0 < q -> (Fin p / Fin q)%js = Fin (p / q).
Proof. intro H. simpl. rewrite (sgn_gt _ H). reflexivity. Qed.

Lemma lower_fin (a q : Q) :
  lower (Fin a) (Fin q) = Fin a /\ a <= q \/ lower (Fin a) (Fin q) = Fin q /\ q < a.
Proof.
  unfold lower. destruct (Fin q <? Fin a)%js eqn:E.
  - right. split; auto. apply ltb_fin. exact E.
  - left. split; auto. apply ltb_fin_false. exact E.
Qed.

Lemma upper_fin (a q : Q) :
  upper (Fin a) (Fin q) = Fin a /\ q <= a \/ upper (Fin a) (Fin q) = Fin q /\ a < q.
Proof.
  unfold upper, gtb. destruct (Fin a <? Fin q)%js eqn:E.
  - right. split; auto. apply ltb_fin. exact E.
  - left. split; auto. apply ltb_fin_false. exact E.
Qed.

(** Folding [lower] over finite numbers from a finite start gives the least
    value met. *)
Lemma fold_lower_fin (qs : list Q) : forall a,
  exists m, fold_left lower (map Fin qs) (Fin a) = Fin m
            /\ (m = a \/ In m qs) /\ m <= a /\ forall q, In q qs -> m <= q.
Proof.
  induction qs as [|q qs IH]; intro a; simpl.
  - exists a. repeat split; auto; try apply Qle_refl. intros q [].
  - destruct (lower_fin a q) as [[E Hle]|[E Hlt]]; rewrite E.
    + destruct (IH a) as (m & Hm & Hin & Hma & Hall).
      exists m. repeat split; auto.
      * destruct Hin; auto.
      * intros q' [<-|Hq']; [apply (Qle_trans _ a); auto | auto].
    + destruct (IH q) as (m & Hm & Hin & Hmq & Hall).
      exists m. repeat split; auto.
      * destruct Hin as [->|Hin]; auto.
      * apply (Qle_trans _ q); auto. apply Qlt_le_weak; auto.
      * intros q' [<-|Hq']; auto.
Qed.

Lemma fold_upper_fin (qs : list Q) : forall a,
  exists m, fold_left upper (map Fin qs) (Fin a) = Fin m
            /\ (m = a \/ In m qs) /\ a <= m /\ forall q, In q qs -> q <= m.
Proof.
  induction qs as [|q qs IH]; intro a; simpl.
  - exists a. repeat split; auto; try apply Qle_refl. intros q [].
  - destruct (upper_fin a q) as [[E Hle]|[E Hlt]]; rewrite E.
    + destruct (IH a) as (m & Hm & Hin & Hma & Hall).
      exists m. repeat split; auto.
      * destruct Hin; auto.
      * intros q' [<-|Hq']; [apply (Qle_trans _ a); auto | auto].
    + destruct (IH q) as (m & Hm & Hin & Hmq & Hall).
      exists m. repeat split; auto.
      * destruct Hin as [->|Hin]; auto.
      * apply (Qle_trans _ q); auto. apply Qlt_le_weak; auto.
      * intros q' [<-|Hq']; auto.
Qed.

(** From the infinite start, over a list that is not empty. *)
Lemma fold_lower_inf (q : Q) (qs : list Q) :
  exists m, fold_left lower (map Fin (q :: qs)) PInf = Fin m /\ isMin m (q :: qs).
Proof.
  simpl. change (lower PInf (Fin q)) with (Fin q).
  destruct (fold_lower_fin qs q) as (m & Hm & Hin & Hmq & Hall).
  exists m. split; auto. split.
  - destruct Hin as [->|Hin]; [left|right]; auto.
  - intros q' [<-|Hq']; auto.
Qed.

Lemma fold_upper_inf (q : Q) (qs : list Q) :
  exists m, fold_left upper (map Fin (q :: qs)) NInf = Fin m /\ isMax m (q :: qs).
Proof.
  simpl. change (upper NInf (Fin q)) with (Fin q).
  destruct (fold_upper_fin qs q) as (m & Hm & Hin & Hmq & Hall).
  exists m. split; auto. split.
  - destruct Hin as [->|Hin]; [left|right]; auto.
  - intros q' [<-|Hq']; auto.
Qed.

Lemma isMin_unique (a b : Q) (l : list Q) : isMin a l -> isMin b l -> a == b.
Proof.
  intros [Ha Hla] [Hb Hlb]. apply Qle_antisym; auto.
Qed.

Lemma isMax_unique (a b : Q) (l : list Q) : isMax a l -> isMax b l -> a == b.
Proof.
  intros [Ha Hla] [Hb Hlb]. apply Qle_antisym; auto.
Qed.

(** ** UV repair: the two loops on a finite position buffer *)

Section UVLoops.
Import UVRepair.

Lemma scan_flatten (vs : list Vertex) : forall e,
  scan (flatten vs) e = fold_left widenBy vs e.
Proof.
  induction vs as [|[[x y] z] vs IH]; intro e; simpl; auto.
Qed.

Lemma fold_widen_minX (vs : list Vertex) : forall e,
  minX (fold_left widenBy vs e) = fold_left lower (map Fin (map vX vs)) (minX e).
Proof. induction vs as [|v vs IH]; intro e; simpl; auto. Qed.

Lemma fold_widen_maxX (vs : list Vertex) : forall e,
  maxX (fold_left widenBy vs e) = fold_left upper (map Fin (map vX vs)) (maxX e).
Proof. induction vs as [|v vs IH]; intro e; simpl; auto. Qed.

Lemma fold_widen_minZ (vs : list Vertex) : forall e,
  minZ (fold_left widenBy vs e) = fold_left lower (map Fin (map vZ vs)) (minZ e).
Proof. induction vs as [|v vs IH]; intro e; simpl; auto. Qed.

Lemma fold_widen_maxZ (vs : list Vertex) : forall e,
  maxZ (fold_left widenBy vs e) = fold_left upper (map Fin (map vZ vs)) (maxZ e).
Proof. induction vs as [|v vs IH]; intro e; simpl; auto. Qed.

(** The extremes found by the first loop are the least and greatest X and Z
    of the vertices. *)
Lemma scan_extremes (v : Vertex) (vs : list Vertex) :
  exists mx Mx mz Mz,
    scan (flatten (v :: vs)) extent0 = extent (Fin mx) (Fin Mx) (Fin mz) (Fin Mz)
    /\ isMin mx (map vX (v :: vs)) /\ isMax Mx (map vX (v :: vs))
    /\ isMin mz (map vZ (v :: vs)) /\ isMax Mz (map vZ (v :: vs)).
Proof.
  destruct (fold_lower_inf (vX v) (map vX vs)) as (mx & Emx & Hmx).
  destruct (fold_upper_inf (vX v) (map vX vs)) as (Mx & EMx & HMx).
  destruct (fold_lower_inf (vZ v) (map vZ vs)) as (mz & Emz & Hmz).
  destruct (fold_upper_inf (vZ v) (map vZ vs)) as (Mz & EMz & HMz).
  exists mx, Mx, mz, Mz. split; [|auto].
  rewrite scan_flatten.
  pose proof (fold_widen_minX (v :: vs) extent0) as H1.
  pose proof (fold_widen_maxX (v :: vs) extent0) as H2.
  pose proof (fold_widen_minZ (v :: vs) extent0) as H3.
  pose proof (fold_widen_maxZ (v :: vs) extent0) as H4.
  change (minX extent0) with PInf in H1. change (maxX extent0) with NInf in H2.
  change (minZ extent0) with PInf in H3. change (maxZ extent0) with NInf in H4.
  change (map Fin (map vX (v :: vs))) with (map Fin (vX v :: map vX vs)) in H1, H2.
  change (map Fin (map vZ (v :: vs))) with (map Fin (vZ v :: map vZ vs)) in H3, H4.
  rewrite Emx in H1. rewrite EMx in H2. rewrite Emz in H3. rewrite EMz in H4.
  destruct (fold_left widenBy (v :: vs) extent0) as [a b c d].
  simpl in H1, H2, H3, H4. subst. reflexivity.
Qed.

Lemma emit_flatten (vs : list Vertex) (e : Extent) :
  emit (flatten vs) e = flat_map (uvPair e) vs.
Proof.
  induction vs as [|[[x y] z] vs IH]; simpl; auto.
  rewrite IH. reflexivity.
Qed.

Lemma nth_error_pairs {A B} (f : A -> list B) (g h : A -> B) (l : list A) :
  (forall a, f a = [g a; h a]) ->
  forall k a, nth_error l k = Some a ->
    nth_error (flat_map f l) (2 * k) = Some (g a)
    /\ nth_error (flat_map f l) (2 * k + 1) = Some (h a).
Proof.
  intro Hf. induction l as [|b l IH]; intros k a Hk.
  - destruct k; discriminate.
  - destruct k as [|k]; simpl in Hk.
    + injection Hk as ->. simpl. rewrite Hf. simpl. auto.
    + replace (2 * S k)%nat with (S (S (2 * k))) by lia.
      replace (S (S (2 * k)) + 1)%nat with (S (S (2 * k + 1))) by lia.
      simpl flat_map. rewrite Hf. simpl. apply IH. exact Hk.
Qed.

Lemma length_flatten (vs : list Vertex) :
  List.length (flatten vs) = (3 * List.length vs)%nat.
Proof. induction vs as [|v vs IH]; simpl; auto. rewrite IH. lia. Qed.

Lemma arrayLengthOk_flatten (vs : list Vertex) : arrayLengthOk (flatten vs) = true.
Proof.
  unfold arrayLengthOk. rewrite length_flatten.
  rewrite Nat.mul_comm, Nat.Div0.mod_mul. reflexivity.
Qed.

End UVLoops.

Lemma divisor_pos (lo hi : Q) : lo <= hi -> 0 < divisor lo hi.
Proof.
  intro H. unfold divisor. destruct (Qeq_bool (hi - lo) 0) eqn:E.
  - reflexivity.
  - apply Qeq_bool_neq in E. 
    destruct (Qlt_le_dec 0 (hi - lo)) as [Hlt|Hle]; auto.
    exfalso. apply E. lra.
Qed.

Lemma isMin_le_isMax (m M : Q) (l : list Q) : isMin m l -> isMax M l -> m <= M.
Proof. intros [Hin _] [_ HM]. auto. Qed.

(** The texture coordinates written for vertex [k] of a finite buffer. *)
Lemma uv_at (vs : list Vertex) (k : nat) (v : Vertex) :
  nth_error vs k = Some v ->
  exists mx Mx mz Mz,
    isMin mx (map vX vs) /\ isMax Mx (map vX vs)
    /\ isMin mz (map vZ vs) /\ isMax Mz (map vZ vs)
    /\ nth_error (UVRepair.newUVs (flatten vs)) (2 * k)
       = Some (Fin ((vX v - mx) / divisor mx Mx))
    /\ nth_error (UVRepair.newUVs (flatten vs)) (2 * k + 1)
       = Some (Fin ((vZ v - mz) / divisor mz Mz)).
Proof.
  intro Hk. destruct vs as [|v0 vs]; [destruct k; discriminate|].
  destruct (scan_extremes v0 vs) as (mx & Mx & mz & Mz & E & Hmx & HMx & Hmz & HMz).
  exists mx, Mx, mz, Mz. repeat (split; [assumption|]).
  unfold UVRepair.newUVs. rewrite E, emit_flatten.
  pose proof (divisor_pos _ _ (isMin_le_isMax _ _ _ Hmx HMx)) as Px.
  pose proof (divisor_pos _ _ (isMin_le_isMax _ _ _ Hmz HMz)) as Pz.
  set (e := UVRepair.extent (Fin mx) (Fin Mx) (Fin mz) (Fin Mz)).
  assert (Rx : UVRepair.rangeX e = Fin (divisor mx Mx)).
  { unfold UVRepair.rangeX, or_else, divisor. simpl.
    change (Mx + - mx) with (Mx - mx). destruct (Qeq_bool (Mx - mx) 0); reflexivity. }
  assert (Rz : UVRepair.rangeZ e = Fin (divisor mz Mz)).
  { unfold UVRepair.rangeZ, or_else, divisor. simpl.
    change (Mz + - mz) with (Mz - mz). destruct (Qeq_bool (Mz - mz) 0); reflexivity. }
  apply (nth_error_pairs (uvPair e)
           (fun v => Fin ((vX v - mx) / divisor mx Mx))
           (fun v => Fin ((vZ v - mz) / divisor mz Mz))); auto.
  intro a. unfold uvPair. rewrite Rx, Rz.
  change (UVRepair.minX e) with (Fin mx). change (UVRepair.minZ e) with (Fin mz).
  change (Fin (vX a) - Fin mx)%js with (Fin (vX a - mx)).
  change (Fin (vZ a) - Fin mz)%js with (Fin (vZ a - mz)).
  rewrite (div_fin_pos _ _ Px), (div_fin_pos _ _ Pz). reflexivity.
Qed.

(** C2, counterexample: two vertices half a unit apart on X and a quarter
    apart on Z.  The far vertex gets (1, 1): the divisors are the extents
    1/2 and 1/4, where the claimed [max(extent, 1)] would give (1/2, 1/4). *)
Lemma C2_small_extent_divides_by_extent :
  UVRepair.newUVs (flatten [(0, 0, 0); (1 # 2, 0, 1 # 4)])
  = [Fin (0 / (1 # 2)); Fin (0 / (1 # 4));
     Fin ((1 # 2) / (1 # 2)); Fin ((1 # 4) / (1 # 4))]
  /\ ~ emitsSpecRange [(0, 0, 0); (1 # 2, 0, 1 # 4)].
Proof.
  split; [reflexivity|].
  intro H. destruct (H 1%nat (1 # 2, 0, 1 # 4) eq_refl) as (u & w & Hu & _ & Su & _).
  vm_compute in Hu. injection Hu as <-. vm_compute in Su. discriminate Su.
Qed.

(** C2, as the code has it: on a finite buffer the coordinates of vertex
    [k] are [(x - minX) / dX] and [(z - minZ) / dZ], with [minX], [maxX],
    [minZ], [maxZ] the extreme coordinates of the buffer and the divisor of an
    axis its extent [max - min] whenever that is not zero (so also when it is
    below 1), and 1 when it is zero. *)
Theorem C2_repair_divides_by_nonzero_extent (vs : list Vertex) (k : nat) (v : Vertex) :
  nth_error vs k = Some v ->
  exists mx Mx mz Mz dX dZ,
    isMin mx (map vX vs) /\ isMax Mx (map vX vs)
    /\ isMin mz (map vZ vs) /\ isMax Mz (map vZ vs)
    /\ nth_error (UVRepair.newUVs (flatten vs)) (2 * k) = Some (Fin ((vX v - mx) / dX))
    /\ nth_error (UVRepair.newUVs (flatten vs)) (2 * k + 1) = Some (Fin ((vZ v - mz) / dZ))
    /\ (0 < Mx - mx -> dX = Mx - mx) /\ (Mx - mx == 0 -> dX = inject_Z 1)
    /\ (0 < Mz - mz -> dZ = Mz - mz) /\ (Mz - mz == 0 -> dZ = inject_Z 1).
Proof.
  intro Hk.
  destruct (uv_at vs k v Hk) as (mx & Mx & mz & Mz & H1 & H2 & H3 & H4 & H5 & H6).
  exists mx, Mx, mz, Mz, (divisor mx Mx), (divisor mz Mz).
  repeat (split; [assumption|]).
  unfold divisor.
  repeat split; intro H.
  - destruct (Qeq_bool (Mx - mx) 0) eqn:E; auto.
    apply Qeq_bool_iff in E. rewrite E in H. discriminate H.
  - apply Qeq_bool_iff in H. rewrite H. reflexivity.
  - destruct (Qeq_bool (Mz - mz) 0) eqn:E; auto.
    apply Qeq_bool_iff in E. rewrite E in H. discriminate H.
  - apply Qeq_bool_iff in H. rewrite H. reflexivity.
Qed.

Lemma C2_repair_divides_by_nonzero_extent_witness :
  exists mx Mx mz Mz dX dZ,
    isMin mx (map vX [(0, 0, 0); (1 # 2, 0, 1 # 4)])
    /\ isMax Mx (map vX [(0, 0, 0); (1 # 2, 0, 1 # 4)])
    /\ isMin mz (map vZ [(0, 0, 0); (1 # 2, 0, 1 # 4)])
    /\ isMax Mz (map vZ [(0, 0, 0); (1 # 2, 0, 1 # 4)])
    /\ nth_error (UVRepair.newUVs (flatten [(0, 0, 0); (1 # 2, 0, 1 # 4)])) (2 * 1)
       = Some (Fin ((vX (1 # 2, 0, 1 # 4) - mx) / dX))
    /\ nth_error (UVRepair.newUVs (flatten [(0, 0, 0); (1 # 2, 0, 1 # 4)])) (2 * 1 + 1)
       = Some (Fin ((vZ (1 # 2, 0, 1 # 4) - mz) / dZ))
    /\ (0 < Mx - mx -> dX = Mx - mx) /\ (Mx - mx == 0 -> dX = inject_Z 1)
    /\ (0 < Mz - mz -> dZ = Mz - mz) /\ (Mz - mz == 0 -> dZ = inject_Z 1).
Proof.
  apply (C2_repair_divides_by_nonzero_extent
           [(0, 0, 0); (1 # 2, 0, 1 # 4)] 1 (1 # 2, 0, 1 # 4)).
  reflexivity.
Defined.

(** C3, counterexample: a single vertex is at the greatest X and Z of its
    buffer and gets (0, 0), because an axis of extent zero is divided by 1. *)
Lemma C3_single_vertex_gets_zero :
  UVRepair.newUVs (flatten [(5, 0, 7)]) = [Fin (0 / 1); Fin (0 / 1)]
  /\ ~ spansUnitSquare [(5, 0, 7)].
Proof.
  split; [reflexivity|].
  intro H. destruct (H 0%nat (5, 0, 7) eq_refl) as (u & w & Hu & _ & _ & _ & _ & H1 & _).
  vm_compute in Hu. injection Hu as <-.
  assert (E : 0 / 1 == 1).
  { apply H1. intros v' [<-|[]]. apply Qle_refl. }
  discriminate E.
Qed.

(** One axis of the planar projection: [f] reads the coordinate, [m] and
    [M] are its extremes over the buffer. *)
Lemma axis_facts (vs : list Vertex) (v : Vertex) (f : Vertex -> Q) (m M : Q) :
  In v vs -> isMin m (map f vs) -> isMax M (map f vs) ->
  0 <= (f v - m) / divisor m M <= 1
  /\ ((forall v', In v' vs -> f v <= f v') -> (f v - m) / divisor m M == 0)
  /\ ((forall v', In v' vs -> f v' <= f v) ->
      (exists v', In v' vs /\ ~ f v' == f v) -> (f v - m) / divisor m M == 1)
  /\ ((forall v', In v' vs -> f v' == f v) -> (f v - m) / divisor m M == 0).
Proof.
  intros Hin Hm HM.
  pose proof (isMin_le_isMax _ _ _ Hm HM) as HmM.
  pose proof (divisor_pos _ _ HmM) as Pd.
  assert (Hlo : m <= f v) by (apply Hm; apply in_map; exact Hin).
  assert (Hhi : f v <= M) by (apply HM; apply in_map; exact Hin).
  assert (Hzero : f v == m -> (f v - m) / divisor m M == 0).
  { intro E. unfold Qdiv. setoid_replace (f v - m) with 0 by lra. ring. }
  assert (Hleast : (forall v', In v' vs -> f v <= f v') -> f v == m).
  { intro Hall. apply Qle_antisym; auto.
    destruct Hm as [Hmin _]. apply in_map_iff in Hmin.
    destruct Hmin as (v' & <- & Hv'). auto. }
  split; [split|split; [|split]].
  - apply Qle_shift_div_l; auto. lra.
  - apply Qle_shift_div_r; auto. unfold divisor.
    destruct (Qeq_bool (M - m) 0) eqn:E.
    + apply Qeq_bool_iff in E. change (inject_Z 1) with 1. lra.
    + lra.
  - intro Hall. apply Hzero. apply Hleast. exact Hall.
  - intros Hall (v' & Hv' & Hne).
    assert (EM : f v == M).
    { apply Qle_antisym; auto.
      destruct HM as [HMin _]. apply in_map_iff in HMin.
      destruct HMin as (v2 & <- & Hv2). auto. }
    assert (Hlt : m < M).
    { apply Qle_lt_trans with (f v').
      - apply Hm. apply in_map. exact Hv'.
      - rewrite <- EM. pose proof (Hall v' Hv') as Hle.
        apply Qle_lteq in Hle. destruct Hle as [Hl|He]; auto. contradiction. }
    unfold divisor. destruct (Qeq_bool (M - m) 0) eqn:E.
    + apply Qeq_bool_iff in E. lra.
    + rewrite EM. field. lra.
  - intro Hall. apply Hzero. apply Hleast.
    intros v' Hv'. rewrite (Hall v' Hv'). apply Qle_refl.
Qed.

(** C3, as the code has it: on a finite buffer both coordinates of every
    vertex lie in [0,1]; a vertex of least X gets u = 0; a vertex of greatest
    X gets u = 1 provided some vertex has another X (on an axis where all
    vertices agree every vertex gets 0); likewise for Z and v. *)
Theorem C3_repair_spans_unit_square (vs : list Vertex) (k : nat) (v : Vertex) :
  nth_error vs k = Some v ->
  exists u w,
    nth_error (UVRepair.newUVs (flatten vs)) (2 * k) = Some (Fin u)
    /\ nth_error (UVRepair.newUVs (flatten vs)) (2 * k + 1) = Some (Fin w)
    /\ 0 <= u <= 1 /\ 0 <= w <= 1
    /\ ((forall v', In v' vs -> vX v <= vX v') -> u == 0)
    /\ ((forall v', In v' vs -> vX v' <= vX v) ->
        (exists v', In v' vs /\ ~ vX v' == vX v) -> u == 1)
    /\ ((forall v', In v' vs -> vX v' == vX v) -> u == 0)
    /\ ((forall v', In v' vs -> vZ v <= vZ v') -> w == 0)
    /\ ((forall v', In v' vs -> vZ v' <= vZ v) ->
        (exists v', In v' vs /\ ~ vZ v' == vZ v) -> w == 1)
    /\ ((forall v', In v' vs -> vZ v' == vZ v) -> w == 0).
Proof.
  intro Hk.
  destruct (uv_at vs k v Hk) as (mx & Mx & mz & Mz & Hmx & HMx & Hmz & HMz & Eu & Ew).
  pose proof (nth_error_In _ _ Hk) as Hin.
  exists ((vX v - mx) / divisor mx Mx), ((vZ v - mz) / divisor mz Mz).
  split; [exact Eu|]. split; [exact Ew|].
  destruct (axis_facts vs v vX mx Mx Hin Hmx HMx) as (A1 & A2 & A3 & A4).
  destruct (axis_facts vs v vZ mz Mz Hin Hmz HMz) as (B1 & B2 & B3 & B4).
  repeat split; tauto.
Qed.

Lemma C3_repair_spans_unit_square_witness :
  exists u w,
    nth_error (UVRepair.newUVs (flatten [(0, 2, 0); (10, 3, 5)])) (2 * 1) = Some (Fin u)
    /\ nth_error (UVRepair.newUVs (flatten [(0, 2, 0); (10, 3, 5)])) (2 * 1 + 1)
       = Some (Fin w)
    /\ 0 <= u <= 1 /\ 0 <= w <= 1
    /\ ((forall v', In v' [(0, 2, 0); (10, 3, 5)] -> vX (10, 3, 5) <= vX v') -> u == 0)
    /\ ((forall v', In v' [(0, 2, 0); (10, 3, 5)] -> vX v' <= vX (10, 3, 5)) ->
        (exists v', In v' [(0, 2, 0); (10, 3, 5)] /\ ~ vX v' == vX (10, 3, 5)) -> u == 1)
    /\ ((forall v', In v' [(0, 2, 0); (10, 3, 5)] -> vX v' == vX (10, 3, 5)) -> u == 0)
    /\ ((forall v', In v' [(0, 2, 0); (10, 3, 5)] -> vZ (10, 3, 5) <= vZ v') -> w == 0)
    /\ ((forall v', In v' [(0, 2, 0); (10, 3, 5)] -> vZ v' <= vZ (10, 3, 5)) ->
        (exists v', In v' [(0, 2, 0); (10, 3, 5)] /\ ~ vZ v' == vZ (10, 3, 5)) -> w == 1)
    /\ ((forall v', In v' [(0, 2, 0); (10, 3, 5)] -> vZ v' == vZ (10, 3, 5)) -> w == 0).
Proof.
  apply (C3_repair_spans_unit_square [(0, 2, 0); (10, 3, 5)] 1 (10, 3, 5)).
  reflexivity.
Defined.

(** Scenario 2 of section 8: positions spanning X in [0,10] and Z in [0,5];
    the vertex at (0, _, 0) gets (0, 0) and the one at (10, _, 5) gets (1, 1). *)
Lemma scenario_planar_uv :
  Forall2 JS.same (UVRepair.newUVs (flatten [(0, 2, 0); (10, 3, 5)]))
          [Fin 0; Fin 0; Fin 1; Fin 1].
Proof. vm_compute. repeat constructor. Qed.

(** ** UV repair: validity of the repaired buffer and idempotence *)

Lemma setUV_setUV (m : Mesh) (a b : list num) : setUV (setUV m a) b = setUV m b.
Proof. reflexivity. Qed.

Lemma badUV_unit (q : Q) : 0 <= q <= 1 -> UVRepair.badUV (Fin q) = false.
Proof.
  intros [H0 H1]. unfold UVRepair.badUV, gtb, n_.
  assert (E1 : (Fin q <? Fin (inject_Z (-1)))%js = false).
  { apply ltb_fin_false. change (inject_Z (-1)) with (-1 # 1). lra. }
  assert (E2 : (Fin (inject_Z 10) <? Fin q)%js = false).
  { apply ltb_fin_false. change (inject_Z 10) with (10 # 1). lra. }
  rewrite E1, E2. reflexivity.
Qed.

(** On a finite buffer the repaired coordinates pass the validity check. *)
Lemma newUVs_valid (vs : list Vertex) :
  UVRepair.needsFix (Some (UVRepair.newUVs (flatten vs))) = false.
Proof.
  simpl. destruct (existsb UVRepair.badUV (UVRepair.newUVs (flatten vs))) eqn:E; auto.
  apply existsb_exists in E. destruct E as (c & Hc & Hbad).
  apply In_nth_error in Hc. destruct Hc as (n & Hn).
  assert (Hlen : (n < 2 * List.length vs)%nat).
  { assert (Hsome : nth_error (UVRepair.newUVs (flatten vs)) n <> None) by congruence.
    apply nth_error_Some in Hsome. unfold UVRepair.newUVs in Hsome.
    rewrite emit_flatten in Hsome. revert Hsome.
    generalize (UVRepair.scan (flatten vs) UVRepair.extent0). intros e Hsome.
    assert (L : List.length (flat_map (uvPair e) vs) = (2 * List.length vs)%nat).
    { clear. induction vs as [|v vs IH]; simpl; auto. rewrite IH. lia. }
    lia. }
  destruct (nth_error vs (n / 2)) as [v|] eqn:Ev.
  - destruct (uv_at vs (n / 2) v Ev) as (mx & Mx & mz & Mz & Hmx & HMx & Hmz & HMz & Hu & Hw).
    pose proof (nth_error_In _ _ Ev) as Hin.
    destruct (axis_facts vs v vX mx Mx Hin Hmx HMx) as (Bu & _).
    destruct (axis_facts vs v vZ mz Mz Hin Hmz HMz) as (Bw & _).
    destruct (Nat.even n) eqn:Par.
    + apply Nat.even_spec in Par. destruct Par as (j & ->).
      replace (2 * j / 2)%nat with j in * by (rewrite Nat.mul_comm, Nat.div_mul; lia).
      rewrite Hu in Hn. injection Hn as <-. rewrite (badUV_unit _ Bu) in Hbad. discriminate.
    + assert (Odd : Nat.odd n = true) by (unfold Nat.odd; rewrite Par; reflexivity).
      apply Nat.odd_spec in Odd. destruct Odd as (j & ->).
      replace ((2 * j + 1) / 2)%nat with j in *
        by (apply (Nat.div_unique (2 * j + 1) 2 j 1); lia).
      rewrite Hw in Hn. injection Hn as <-. rewrite (badUV_unit _ Bw) in Hbad. discriminate.
  - apply nth_error_None in Ev.
    assert (n / 2 < List.length vs)%nat by (apply Nat.Div0.div_lt_upper_bound; lia).
    lia.
Qed.

Lemma repair_with_uv (m : Mesh) (ps l : list num) :
  positions m = Some ps -> uv m = Some l ->
  UVRepair.repairUVs m = UVRepair.fix_ m (Some l).
Proof. intros Hps Huv. unfold UVRepair.repairUVs. rewrite Hps, Huv. reflexivity. Qed.

Lemma fix_after_set (m : Mesh) (ps : list num) :
  positions m = Some ps -> UVRepair.arrayLengthOk ps = true ->
  UVRepair.repairUVs (setUV m (UVRepair.newUVs ps))
  = UVRepair.Done (setUV m (UVRepair.newUVs ps)).
Proof.
  intros Hps Hlen.
  rewrite (repair_with_uv _ ps (UVRepair.newUVs ps)); auto.
  unfold UVRepair.fix_. simpl positions. rewrite Hps, Hlen.
  destruct (UVRepair.needsFix (Some (UVRepair.newUVs ps))); reflexivity.
Qed.

Lemma fix_repeat (m : Mesh) (ps l : list num) :
  positions m = Some ps -> uv m = Some l ->
  UVRepair.repairUVs (UVRepair.meshOf (UVRepair.fix_ m (Some l)))
  = UVRepair.fix_ m (Some l).
Proof.
  intros Hps Huv. unfold UVRepair.fix_ at 1. rewrite Hps.
  destruct (UVRepair.needsFix (Some l)) eqn:Hfix.
  - destruct (UVRepair.arrayLengthOk ps) eqn:Hlen; simpl UVRepair.meshOf.
    + rewrite (fix_after_set m ps Hps Hlen).
      unfold UVRepair.fix_. rewrite Hfix, Hps, Hlen. reflexivity.
    + apply (repair_with_uv m ps l Hps Huv).
  - simpl UVRepair.meshOf. apply (repair_with_uv m ps l Hps Huv).
Qed.

(** C4: the repair callback is idempotent.  Run on the mesh a first run
    leaves behind, it ends the same way and leaves the same mesh, hence the
    same texture-coordinate buffer. *)
Theorem C4_repairUVs_idempotent (m : Mesh) :
  UVRepair.repairUVs (UVRepair.meshOf (UVRepair.repairUVs m)) = UVRepair.repairUVs m.
Proof.
  destruct (positions m) as [ps|] eqn:Hps.
  - destruct (uv m) as [l|] eqn:Huv.
    + rewrite (repair_with_uv m ps l Hps Huv). apply (fix_repeat m ps l Hps Huv).
    + assert (E : UVRepair.repairUVs m =
                  match UVRepair.firstAlt m (tl UV_KIND_ORDER) with
                  | Some alt => UVRepair.fix_ (setUV m alt) (Some alt)
                  | None => UVRepair.fix_ m None
                  end).
      { unfold UVRepair.repairUVs. rewrite Hps, Huv. reflexivity. }
      destruct (UVRepair.firstAlt m (tl UV_KIND_ORDER)) as [alt|] eqn:Halt.
      * rewrite E. apply (fix_repeat (setUV m alt) ps alt); auto.
      * rewrite E. unfold UVRepair.fix_. simpl UVRepair.needsFix. rewrite Hps.
        destruct (UVRepair.arrayLengthOk ps) eqn:Hlen; simpl UVRepair.meshOf.
        -- apply (fix_after_set m ps Hps Hlen).
        -- rewrite E. unfold UVRepair.fix_. simpl UVRepair.needsFix.
           rewrite Hps, Hlen. reflexivity.
  - unfold UVRepair.repairUVs. rewrite Hps. simpl. rewrite Hps. reflexivity.
Qed.

(** On a mesh whose position buffer is finite, what a run leaves in the
    primary channel passes the validity check, so that a second run changes
    nothing. *)
Lemma repaired_is_valid (m : Mesh) (vs : list Vertex) :
  positions m = Some (flatten vs) ->
  UVRepair.needsFix (uv (UVRepair.meshOf (UVRepair.repairUVs m))) = false.
Proof.
  intro Hps.
  assert (F : forall m' l, positions m' = Some (flatten vs) -> uv m' = Some l ->
              UVRepair.needsFix (uv (UVRepair.meshOf (UVRepair.fix_ m' (Some l)))) = false).
  { intros m' l Hp Hu. unfold UVRepair.fix_. rewrite Hp, arrayLengthOk_flatten.
    destruct (UVRepair.needsFix (Some l)) eqn:Hfix; simpl UVRepair.meshOf.
    - simpl uv. apply newUVs_valid.
    - rewrite Hu. exact Hfix. }
  unfold UVRepair.repairUVs. rewrite Hps.
  destruct (uv m) as [l|] eqn:Huv.
  - apply F; auto.
  - destruct (UVRepair.firstAlt m (tl UV_KIND_ORDER)) as [alt|].
    + apply F; auto.
    + unfold UVRepair.fix_. simpl UVRepair.needsFix. rewrite Hps, arrayLengthOk_flatten.
      simpl. apply (newUVs_valid vs).
Qed.

(** ** Accumulated boxes *)

Lemma accumulateWorld_growAll (ms : list Mesh) :
  accumulateWorld ms = growAll (map worldBox ms) infinityBox.
Proof.
  unfold accumulateWorld, growAll. generalize infinityBox.
  induction ms as [|m ms IH]; intro b; simpl; auto.
Qed.

Lemma accumulateLocal_growAll (ms : list Mesh) :
  accumulateLocal ms = growAll (map localBox ms) infinityBox.
Proof.
  unfold accumulateLocal, growAll. generalize infinityBox.
  induction ms as [|m ms IH]; intro b; simpl; auto.
Qed.

Section Components.
Variable boxes : list Bounds.

Lemma growAll_min (f : Vec3 -> num) :
  (forall l r, f (Vector3.Minimize l r) = lower (f l) (f r)) ->
  forall b, f (bmin (growAll boxes b))
            = fold_left lower (map (fun x => f (bmin x)) boxes) (f (bmin b)).
Proof.
  intro Hf. unfold growAll. induction boxes as [|x xs IH]; intro b; simpl; auto.
  rewrite IH. simpl. rewrite Hf. reflexivity.
Qed.

Lemma growAll_max (f : Vec3 -> num) :
  (forall l r, f (Vector3.Maximize l r) = upper (f l) (f r)) ->
  forall b, f (bmax (growAll boxes b))
            = fold_left upper (map (fun x => f (bmax x)) boxes) (f (bmax b)).
Proof.
  intro Hf. unfold growAll. induction boxes as [|x xs IH]; intro b; simpl; auto.
  rewrite IH. simpl. rewrite Hf. reflexivity.
Qed.

End Components.

Lemma vec3_eta (v : Vec3) : v = vec3 (vx v) (vy v) (vz v).
Proof. destruct v; reflexivity. Qed.

(** Over finite boxes, and at least one of them, the accumulated box is
    finite and each of its six components is the least, respectively the
    greatest, of that component over the boxes. *)
Lemma growAll_exact (q : QBox) (qs : list QBox) :
  exists U : QBox,
    growAll (map boxOf (q :: qs)) infinityBox = boxOf U
    /\ isMin (loX U) (map loX (q :: qs)) /\ isMin (loY U) (map loY (q :: qs))
    /\ isMin (loZ U) (map loZ (q :: qs)) /\ isMax (hiX U) (map hiX (q :: qs))
    /\ isMax (hiY U) (map hiY (q :: qs)) /\ isMax (hiZ U) (map hiZ (q :: qs)).
Proof.
  set (bs := map boxOf (q :: qs)).
  assert (Hmap : forall (g : QBox -> Q) (f : Bounds -> num),
            (forall x, f (boxOf x) = Fin (g x)) ->
            map f bs = map Fin (g q :: map g qs)).
  { intros g f H. unfold bs. rewrite map_map.
    change (g q :: map g qs) with (map g (q :: qs)). rewrite map_map.
    apply map_ext. intro a. apply H. }
  destruct (fold_lower_inf (loX q) (map loX qs)) as (mx & Emx & Hmx).
  destruct (fold_lower_inf (loY q) (map loY qs)) as (my & Emy & Hmy).
  destruct (fold_lower_inf (loZ q) (map loZ qs)) as (mz & Emz & Hmz).
  destruct (fold_upper_inf (hiX q) (map hiX qs)) as (Mx & EMx & HMx).
  destruct (fold_upper_inf (hiY q) (map hiY qs)) as (My & EMy & HMy).
  destruct (fold_upper_inf (hiZ q) (map hiZ qs)) as (Mz & EMz & HMz).
  exists (qbox mx my mz Mx My Mz). split; [|simpl; tauto].
  pose proof (growAll_min bs vx (fun _ _ => eq_refl) infinityBox) as H1.
  pose proof (growAll_min bs vy (fun _ _ => eq_refl) infinityBox) as H2.
  pose proof (growAll_min bs vz (fun _ _ => eq_refl) infinityBox) as H3.
  pose proof (growAll_max bs vx (fun _ _ => eq_refl) infinityBox) as H4.
  pose proof (growAll_max bs vy (fun _ _ => eq_refl) infinityBox) as H5.
  pose proof (growAll_max bs vz (fun _ _ => eq_refl) infinityBox) as H6.
  rewrite (Hmap loX (fun x => vx (bmin x)) (fun _ => eq_refl)) in H1.
  rewrite (Hmap loY (fun x => vy (bmin x)) (fun _ => eq_refl)) in H2.
  rewrite (Hmap loZ (fun x => vz (bmin x)) (fun _ => eq_refl)) in H3.
  rewrite (Hmap hiX (fun x => vx (bmax x)) (fun _ => eq_refl)) in H4.
  rewrite (Hmap hiY (fun x => vy (bmax x)) (fun _ => eq_refl)) in H5.
  rewrite (Hmap hiZ (fun x => vz (bmax x)) (fun _ => eq_refl)) in H6.
  change (vx (bmin infinityBox)) with PInf in H1.
  change (vy (bmin infinityBox)) with PInf in H2.
  change (vz (bmin infinityBox)) with PInf in H3.
  change (vx (bmax infinityBox)) with NInf in H4.
  change (vy (bmax infinityBox)) with NInf in H5.
  change (vz (bmax infinityBox)) with NInf in H6.
  rewrite Emx in H1. rewrite Emy in H2. rewrite Emz in H3.
  rewrite EMx in H4. rewrite EMy in H5. rewrite EMz in H6.
  destruct (growAll bs infinityBox) as [lo hi].
  simpl in H1, H2, H3, H4, H5, H6. unfold boxOf, fin3. simpl.
  rewrite (vec3_eta lo), (vec3_eta hi), H1, H2, H3, H4, H5, H6. reflexivity.
Qed.

(** ** Bounds computation: when it answers null *)

(** C8, counterexample: one mesh whose box is finite on X and reaches
    +Infinity on Y.  The box is returned, infinite Y included, by the world
    and by the local computation. *)
Lemma C8_infinite_Y_is_returned :
  let m := boxMesh 1 (fin3 0 0 0) (vec3 (Fin 1) PInf (Fin 1)) in
  SceneControls.computeWorldBounds [m]
  = Some (mkBounds (fin3 0 0 0) (vec3 (Fin 1) PInf (Fin 1)))
  /\ SceneManager.computeLocalBounds [m]
     = Some (mkBounds (fin3 0 0 0) (vec3 (Fin 1) PInf (Fin 1)))
  /\ Spec.nonFinite (accumulateWorld [m]) = true
  /\ ~ nullIffNonFinite [m].
Proof.
  repeat split; try reflexivity.
  intros [_ H]. 
  assert (E : SceneControls.computeWorldBounds
                [boxMesh 1 (fin3 0 0 0) (vec3 (Fin 1) PInf (Fin 1))] = None).
  { apply H. right. reflexivity. }
  discriminate E.
Qed.

Lemma finiteOrNull_None (b : Bounds) :
  finiteOrNull b = None
  <-> isFinite (vx (bmin b)) = false \/ isFinite (vx (bmax b)) = false.
Proof.
  unfold finiteOrNull.
  destruct (isFinite (vx (bmin b))), (isFinite (vx (bmax b))); simpl;
    split; intro H; try discriminate; auto; destruct H; discriminate.
Qed.

Lemma finiteOrNull_Some (b c : Bounds) : finiteOrNull b = Some c -> c = b.
Proof.
  unfold finiteOrNull.
  destruct (negb (isFinite (vx (bmin b))) || negb (isFinite (vx (bmax b))));
    intro H; [discriminate|]. injection H as <-. reflexivity.
Qed.

(** C8, as the code has it: each bounds computation answers null exactly
    when the mesh set is empty or the X component of the accumulated minimum
    or maximum is not finite; otherwise it returns the accumulated box as it
    is, whatever its Y and Z components; and over meshes with finite boxes
    that box is the component-wise least and greatest corner. *)
Theorem C8_null_iff_empty_or_X_not_finite (ms : list Mesh) :
  (SceneControls.computeWorldBounds ms = None
   <-> ms = [] \/ isFinite (vx (bmin (accumulateWorld ms))) = false
              \/ isFinite (vx (bmax (accumulateWorld ms))) = false)
  /\ (forall b, SceneControls.computeWorldBounds ms = Some b -> b = accumulateWorld ms)
  /\ (SceneManager.computeLocalBounds ms = None
      <-> ms = [] \/ isFinite (vx (bmin (accumulateLocal ms))) = false
                 \/ isFinite (vx (bmax (accumulateLocal ms))) = false)
  /\ (forall b, SceneManager.computeLocalBounds ms = Some b -> b = accumulateLocal ms)
  /\ (forall q qs, map worldBox ms = map boxOf (q :: qs) ->
      exists U, SceneControls.computeWorldBounds ms = Some (boxOf U)
        /\ isMin (loX U) (map loX (q :: qs)) /\ isMin (loY U) (map loY (q :: qs))
        /\ isMin (loZ U) (map loZ (q :: qs)) /\ isMax (hiX U) (map hiX (q :: qs))
        /\ isMax (hiY U) (map hiY (q :: qs)) /\ isMax (hiZ U) (map hiZ (q :: qs))).
Proof.
  split; [|split; [|split; [|split]]].
  - destruct ms as [|m ms]; simpl.
    + split; auto.
    + rewrite finiteOrNull_None. split; [auto|]. intros [H|H]; [discriminate|auto].
  - destruct ms as [|m ms]; simpl; [discriminate|]. intro b. intro H.
    apply (finiteOrNull_Some _ _ H).
  - destruct ms as [|m ms]; simpl.
    + split; auto.
    + rewrite finiteOrNull_None. split; [auto|]. intros [H|H]; [discriminate|auto].
  - destruct ms as [|m ms]; simpl; [discriminate|]. intro b. intro H.
    apply (finiteOrNull_Some _ _ H).
  - intros q qs Hms. destruct (growAll_exact q qs) as (U & EU & HU).
    exists U. split; [|exact HU].
    destruct ms as [|m ms]; [discriminate Hms|].
    unfold SceneControls.computeWorldBounds.
    rewrite accumulateWorld_growAll, Hms, EU. reflexivity.
Qed.

Lemma C8_null_iff_empty_or_X_not_finite_witness :
  exists U, SceneControls.computeWorldBounds [cubeMesh] = Some (boxOf U)
    /\ isMin (loX U) [-1] /\ isMin (loY U) [-1] /\ isMin (loZ U) [-1]
    /\ isMax (hiX U) [1] /\ isMax (hiY U) [1] /\ isMax (hiZ U) [1].
Proof.
  apply (proj2 (proj2 (proj2 (proj2 (C8_null_iff_empty_or_X_not_finite [cubeMesh]))))
           (qbox (-1) (-1) (-1) 1 1 1) []).
  reflexivity.
Defined.

(** ** Whole-scene framing *)

(** A radius assigned after [setTarget] overwrites the one the engine
    derived, whatever that was. *)
Lemma setRadius_setTarget (c : Camera) (t : Vec3) (rebuilt r : num) :
  setRadius (setTarget c t rebuilt) r = setTargetThenRadius c t r.
Proof. reflexivity. Qed.

Lemma frame_fold (l : list (list Mesh)) : forall acc,
  fold_left SceneManager.frameStep l acc
  = (growAll (flat_map (fun ms => match SceneManager.computeWorldBounds ms with
                                  | Some b => [b]
                                  | None => []
                                  end) l) (fst acc),
     match flat_map (fun ms => match SceneManager.computeWorldBounds ms with
                               | Some b => [b]
                               | None => []
                               end) l with
     | [] => snd acc
     | _ => true
     end).
Proof.
  induction l as [|ms l IH]; intros [b h]; simpl; auto.
  rewrite IH. unfold SceneManager.frameStep.
  destruct (SceneManager.computeWorldBounds ms) as [bd|]; simpl; auto.
  destruct (flat_map _ l); reflexivity.
Qed.

(** C7, counterexample: after the western tower alone is loaded,
    [CanvasHost.loadModels] leaves the camera aimed at the anchor position
    raised to height 20, at radius 150; the union of the world boxes (here the
    box from (-50, 0, -20) to (-10, 0, 20)) would be framed from its centre
    (-30, 0, 0) at radius 100. *)
Lemma C7_load_frames_anchor_positions :
  let cam := snd (CanvasHost.loadModels exampleLoader [towerWest] camera0 []) in
  let union :=
    growAll (map (anchorWorldBox (fun _ p => p)) (Obj.values towerAnchors)) infinityBox in
  Vector3.same (target cam) (fin3 (-30) 20 0)
  /\ radius cam = n_ 150
  /\ Vector3.same (bmin union) (fin3 (-50) 0 (-20))
  /\ Vector3.same (bmax union) (fin3 (-10) 0 20)
  /\ Vector3.same (target (SceneManager.frameBox union camera0)) (fin3 (-30) 0 0)
  /\ (radius (SceneManager.frameBox union camera0) =~ n_ 100)%js
  /\ ~ framesUnionAfterLoad (fun _ p => p) exampleLoader [towerWest] camera0.
Proof.
  repeat split; try (vm_compute; reflexivity).
  intro H. vm_compute in H. discriminate H.
Qed.

(** C7, as the code has it: [SceneManager.frameAll] frames the union of
    the world bounds of the registered anchors (those whose bounds
    computation answers a box) and falls back to the fixed default view when
    there is none, in particular when no anchor is registered; over finite
    bounds the union is the box of the component-wise least and greatest
    corners.  The view at the end of [CanvasHost.loadModels] uses no bounds:
    its radius is 150 and its target is the mean X and Z of the anchor
    positions at height 20, or the target the camera had when no anchor is
    registered. *)
Theorem C7_scene_framing (anchors : Obj.t (list Mesh)) (cam : Camera) :
  SceneManager.frameAll anchors (Some cam)
  = Some (match worldBoundsOf anchors with
          | [] => mkCamera (vec3 (n_ 0) (n_ 10) (n_ 0)) (n_ 150)
          | bs =>
              let union := growAll bs infinityBox in
              mkCamera (centerOf union)
                       (max2 (maxDimOf union * Fin (15 # 10))%js (n_ 100))
          end)
  /\ (anchors = [] ->
      SceneManager.frameAll anchors (Some cam)
      = Some (mkCamera (vec3 (n_ 0) (n_ 10) (n_ 0)) (n_ 150)))
  /\ (forall q qs, worldBoundsOf anchors = map boxOf (q :: qs) ->
      exists U, growAll (worldBoundsOf anchors) infinityBox = boxOf U
        /\ isMin (loX U) (map loX (q :: qs)) /\ isMin (loY U) (map loY (q :: qs))
        /\ isMin (loZ U) (map loZ (q :: qs)) /\ isMax (hiX U) (map hiX (q :: qs))
        /\ isMax (hiY U) (map hiY (q :: qs)) /\ isMax (hiZ U) (map hiZ (q :: qs)))
  /\ (forall registry : Obj.t CanvasHost.Anchor,
      radius (CanvasHost.frameAnchors registry cam) = n_ 150
      /\ (registry = [] -> target (CanvasHost.frameAnchors registry cam) = target cam)
      /\ (registry <> [] ->
          target (CanvasHost.frameAnchors registry cam)
          = vec3 (fold_left (fun s a => s + vx (CanvasHost.anchorPosition a))%js
                            (Obj.values registry) (n_ 0)
                  / n_ (Z.of_nat (List.length registry)))%js
                 (n_ 20)
                 (fold_left (fun s a => s + vz (CanvasHost.anchorPosition a))%js
                            (Obj.values registry) (n_ 0)
                  / n_ (Z.of_nat (List.length registry)))%js)).
Proof.
  assert (Main : SceneManager.frameAll anchors (Some cam)
    = Some (match worldBoundsOf anchors with
            | [] => mkCamera (vec3 (n_ 0) (n_ 10) (n_ 0)) (n_ 150)
            | bs =>
                let union := growAll bs infinityBox in
                mkCamera (centerOf union)
                         (max2 (maxDimOf union * Fin (15 # 10))%js (n_ 100))
            end)).
  { unfold SceneManager.frameAll. rewrite frame_fold. simpl fst. simpl snd.
    fold (worldBoundsOf anchors).
    destruct (worldBoundsOf anchors) as [|b bs]; reflexivity. }
  split; [exact Main|]. split; [|split].
  - intros ->. reflexivity.
  - intros q qs Hbs. rewrite Hbs. apply growAll_exact.
  - intro registry. split.
    { unfold CanvasHost.frameAnchors.
      destruct (Nat.ltb 0 (List.length (Obj.keys registry))); reflexivity. }
    split.
    + intros ->. reflexivity.
    + intro Hne. destruct registry as [|kv registry]; [contradiction|].
      unfold CanvasHost.frameAnchors, Obj.keys. rewrite !length_map. reflexivity.
Qed.

Lemma C7_scene_framing_witness :
  exists U,
    growAll (worldBoundsOf [("cube"%string, [cubeMesh])]) infinityBox = boxOf U
    /\ isMin (loX U) [-1] /\ isMin (loY U) [-1] /\ isMin (loZ U) [-1]
    /\ isMax (hiX U) [1] /\ isMax (hiY U) [1] /\ isMax (hiZ U) [1].
Proof.
  apply (proj1 (proj2 (proj2 (C7_scene_framing [("cube"%string, [cubeMesh])] camera0)))
           (qbox (-1) (-1) (-1) 1 1 1) []).
  reflexivity.
Defined.

(** ** Normalisation *)

Lemma max3_fin (a b c : Q) :
  exists D, max3 (Fin a) (Fin b) (Fin c) = Fin D
            /\ a <= D /\ b <= D /\ c <= D /\ (D = a \/ D = b \/ D = c).
Proof.
  unfold max3, max2.
  destruct (Fin a <? Fin b)%js eqn:E1.
  - apply ltb_fin in E1. destruct (Fin b <? Fin c)%js eqn:E2.
    + apply ltb_fin in E2. exists c. repeat split; auto; lra.
    + apply ltb_fin_false in E2. exists b. repeat split; auto; lra.
  - apply ltb_fin_false in E1. destruct (Fin a <? Fin c)%js eqn:E2.
    + apply ltb_fin in E2. exists c. repeat split; auto; lra.
    + apply ltb_fin_false in E2. exists a. repeat split; auto; lra.
Qed.

Lemma maxDimOf_fin (U : QBox) :
  exists D, maxDimOf (boxOf U) = Fin D
            /\ hiX U - loX U <= D /\ hiY U - loY U <= D /\ hiZ U - loZ U <= D
            /\ (D = hiX U - loX U \/ D = hiY U - loY U \/ D = hiZ U - loZ U).
Proof.
  apply (max3_fin (hiX U - loX U) (hiY U - loY U) (hiZ U - loZ U)).
Qed.

(** The chain of [CanvasHost.normalize] on finite raw bounds whose largest
    extent [D] is positive. *)
Lemma normalize_fin (cfg : ModelConfig) (U : QBox) (ms : list Mesh) (t D : Q) :
  targetSizeOf cfg = Fin t -> maxDimOf (boxOf U) = Fin D -> 0 < D ->
  CanvasHost.normalize cfg (boxOf U) ms
  = CanvasHost.mkAnchor (String.append (name cfg) "_anchor")
      (positionOf cfg) (rotationOf cfg)
      (fin3 (t / D) (t / D) (t / D))
      (fin3 (- ((loX U + hiX U) * (1 # 2))) (- loY U)
            (- ((loZ U + hiZ U) * (1 # 2))))
      (match pickable cfg with Some false => false | _ => true end)
      ms.
Proof.
  intros Ht HD Dpos. unfold CanvasHost.normalize.
  change (max3 (vx (Vector3.subtract (bmax (boxOf U)) (bmin (boxOf U))))
               (vy (Vector3.subtract (bmax (boxOf U)) (bmin (boxOf U))))
               (vz (Vector3.subtract (bmax (boxOf U)) (bmin (boxOf U)))))
    with (maxDimOf (boxOf U)).
  rewrite Ht, HD, (div_fin_pos _ _ Dpos). reflexivity.
Qed.

Lemma worldOf_fin (rotateBy : Vec3 -> Vec3 -> Vec3) (a : CanvasHost.Anchor)
  (px py pz s ox oy oz x y z : Q) :
  (forall p, rotateBy zero3 p = p) ->
  CanvasHost.anchorRotation a = zero3 ->
  CanvasHost.anchorPosition a = fin3 px py pz ->
  CanvasHost.scalerScaling a = fin3 s s s ->
  CanvasHost.offsetPosition a = fin3 ox oy oz ->
  worldOf rotateBy a (fin3 x y z)
  = fin3 (px + s * (ox + x)) (py + s * (oy + y)) (pz + s * (oz + z)).
Proof.
  intros Hrot Hr Hp Hs Ho. unfold worldOf. rewrite Hr, Hp, Hs, Ho, Hrot.
  reflexivity.
Qed.

Lemma place_fin (cfg : ModelConfig) (U : QBox) (ms : list Mesh) (t D : Q) :
  targetSizeOf cfg = Fin t -> maxDimOf (boxOf U) = Fin D -> 0 < D ->
  SceneManager.place cfg (boxOf U) ms
  = SceneManager.mkAnchor (String.append (name cfg) "_anchor")
      (positionOf cfg) (rotationOf cfg)
      (fin3 (t / D) (t / D) (t / D))
      (fin3 (- ((loX U + hiX U) * (1 # 2) * (t / D))) (- (loY U * (t / D)))
            (- ((loZ U + hiZ U) * (1 # 2) * (t / D))))
      ms.
Proof.
  intros Ht HD Dpos. unfold SceneManager.place.
  change (max3 (vx (Vector3.subtract (bmax (boxOf U)) (bmin (boxOf U))))
               (vy (Vector3.subtract (bmax (boxOf U)) (bmin (boxOf U))))
               (vz (Vector3.subtract (bmax (boxOf U)) (bmin (boxOf U)))))
    with (maxDimOf (boxOf U)).
  rewrite Ht, HD, (div_fin_pos _ _ Dpos). reflexivity.
Qed.

Lemma worldOfGroup_fin (rotateBy : Vec3 -> Vec3 -> Vec3) (a : SceneManager.Anchor)
  (px py pz s gx gy gz x y z : Q) :
  (forall p, rotateBy zero3 p = p) ->
  SceneManager.groupRotation a = zero3 ->
  SceneManager.anchorPosition a = fin3 px py pz ->
  SceneManager.groupScaling a = fin3 s s s ->
  SceneManager.groupPosition a = fin3 gx gy gz ->
  worldOfGroup rotateBy a (fin3 x y z)
  = fin3 (px + (gx + s * x)) (py + (gy + s * y)) (pz + (gz + s * z)).
Proof.
  intros Hrot Hr Hp Hs Hg. unfold worldOfGroup. rewrite Hr, Hp, Hs, Hg, Hrot.
  reflexivity.
Qed.

(** The image of a box under a positive uniform scaling about the centre of
    its base followed by a translation: the largest extent is the scaled
    one and the least Y is that of the translation. *)
Lemma box_image_fits (f : Vec3 -> Vec3) (U : QBox) (t D px py pz : Q) :
  maxDimOf (boxOf U) = Fin D -> 0 < D -> 0 < t ->
  (forall x y z, exists x' y' z',
      f (fin3 x y z) = fin3 x' y' z'
      /\ x' == px + t / D * (x - (loX U + hiX U) * (1 # 2))
      /\ y' == py + t / D * (y - loY U)
      /\ z' == pz + t / D * (z - (loZ U + hiZ U) * (1 # 2))) ->
  exists W : QBox,
    carriesOnto f U W
    /\ (maxDimOf (boxOf W) =~ Fin t)%js
    /\ (vy (bmin (boxOf W)) =~ Fin py)%js.
Proof.
  intros HD Dpos Tpos Hf.
  destruct (maxDimOf_fin U) as (D0 & HD0 & Dx & Dy & Dz & Dcase).
  rewrite HD in HD0. injection HD0 as <-.
  set (s := t / D) in *.
  assert (Spos : 0 < s).
  { unfold s. apply Qlt_shift_div_l; auto. lra. }
  assert (SD : s * D == t).
  { unfold s. field. lra. }
  assert (M : forall u v, u <= v -> s * u <= s * v)
    by (intros u v Huv; apply Qmult_le_l; auto).
  destruct (Hf (loX U) (loY U) (loZ U)) as (x0 & y0 & z0 & E0 & X0 & Y0 & Z0).
  destruct (Hf (hiX U) (hiY U) (hiZ U)) as (x1 & y1 & z1 & E1 & X1 & Y1 & Z1).
  exists (qbox x0 y0 z0 x1 y1 z1). split; [|split].
  - split; [exact E0|]. split; [exact E1|].
    intros x y z [Hx1 Hx2] [Hy1 Hy2] [Hz1 Hz2].
    destruct (Hf x y z) as (x' & y' & z' & E & X & Y & Z).
    exists x', y', z'. split; [exact E|]. simpl.
    pose proof (M _ _ Hx1). pose proof (M _ _ Hx2).
    pose proof (M _ _ Hy1). pose proof (M _ _ Hy2).
    pose proof (M _ _ Hz1). pose proof (M _ _ Hz2).
    repeat split; lra.
  - set (W := qbox _ _ _ _ _ _).
    destruct (maxDimOf_fin W) as (D' & HD' & Wx & Wy & Wz & Wcase).
    rewrite HD'. simpl. unfold W in Wx, Wy, Wz, Wcase. simpl in Wx, Wy, Wz, Wcase.
    pose proof (M _ _ Dx) as Ex. pose proof (M _ _ Dy) as Ey.
    pose proof (M _ _ Dz) as Ez.
    apply Qle_antisym.
    + destruct Wcase as [ -> | [ -> | -> ] ]; lra.
    + destruct Dcase as [E|[E|E]]; rewrite E in SD; lra.
  - simpl. lra.
Qed.

(** C1, counterexample: the cube [-1,1]^3 with footprint 40, turned about
    the vertical axis by the angle of cosine 3/5.  Scale and offset are
    computed from the unrotated bounds, so the cube is scaled to edge 40 and
    then turned: its world box is 56 wide and deep, not 40. *)
Lemma C1_turned_cube_exceeds_footprint :
  let U := qbox (-1) (-1) (-1) 1 1 1 in
  let a := CanvasHost.normalize turnedCubeCfg (accumulateWorld [cubeMesh]) [cubeMesh] in
  let W := worldBoxUnder (worldOf (turnAboutY (3 # 5) (4 # 5)) a) U in
  CanvasHost.anchorRotation a = fin3 0 (9273 # 10000) 0
  /\ CanvasHost.scalerScaling a = fin3 (40 / (1 - -1)) (40 / (1 - -1)) (40 / (1 - -1))
  /\ (maxDimOf W =~ n_ 56)%js
  /\ targetSizeOf turnedCubeCfg = Fin 40
  /\ ~ fitsFootprint (turnAboutY (3 # 5) (4 # 5)) turnedCubeCfg [cubeMesh] U.
Proof.
  intros U a W. split; [reflexivity|]. split; [reflexivity|].
  split; [vm_compute; reflexivity|]. split; [reflexivity|].
  intro H. destruct H as (H & _); [reflexivity|left; reflexivity|reflexivity|].
  vm_compute in H. discriminate H.
Qed.

(** C1, as the code has it: for raw bounds that are finite with a positive
    largest extent, a positive finite target footprint and an anchor that is
    not rotated, the chain built by [CanvasHost.loadModels] has scale
    [targetFootprint / maxDim] and offset [(-center.x, -min.y, -center.z)];
    it carries the raw box onto a world box whose largest extent is the
    target footprint and whose least Y is the anchor's Y, and every point of
    the raw box lands inside that world box.  The group node of
    [SceneManager.loadModels] does the same with the local bounds it
    computes: scale [targetFootprint / maxDim] of those bounds, and their box
    carried onto a box of largest extent the footprint and least Y the
    anchor's Y. *)
Theorem C1_normalized_box_fits_footprint
  (rotateBy : Vec3 -> Vec3 -> Vec3) (cfg : ModelConfig) (ms msL : list Mesh)
  (U L : QBox) (t px py pz : Q) :
  (forall p, rotateBy zero3 p = p) ->
  rotationOf cfg = zero3 ->
  accumulateWorld ms = boxOf U ->
  (loX U < hiX U \/ loY U < hiY U \/ loZ U < hiZ U) ->
  accumulateLocal msL = boxOf L ->
  (loX L < hiX L \/ loY L < hiY L \/ loZ L < hiZ L) ->
  targetSizeOf cfg = Fin t -> 0 < t ->
  positionOf cfg = fin3 px py pz ->
  let raw := accumulateWorld ms in
  let a := CanvasHost.normalize cfg raw ms in
  let rawL := accumulateLocal msL in
  let g := SceneManager.place cfg rawL msL in
  CanvasHost.scalerScaling a
  = vec3 (targetSizeOf cfg / maxDimOf raw)%js (targetSizeOf cfg / maxDimOf raw)%js
         (targetSizeOf cfg / maxDimOf raw)%js
  /\ CanvasHost.offsetPosition a
     = vec3 (- vx (centerOf raw))%js (- vy (bmin raw))%js (- vz (centerOf raw))%js
  /\ (exists W : QBox,
        carriesOnto (worldOf rotateBy a) U W
        /\ (maxDimOf (boxOf W) =~ targetSizeOf cfg)%js
        /\ (vy (bmin (boxOf W)) =~ vy (CanvasHost.anchorPosition a))%js)
  /\ SceneManager.groupScaling g
     = vec3 (targetSizeOf cfg / maxDimOf rawL)%js (targetSizeOf cfg / maxDimOf rawL)%js
            (targetSizeOf cfg / maxDimOf rawL)%js
  /\ (exists W : QBox,
        carriesOnto (worldOfGroup rotateBy g) L W
        /\ (maxDimOf (boxOf W) =~ targetSizeOf cfg)%js
        /\ (vy (bmin (boxOf W)) =~ vy (SceneManager.anchorPosition g))%js).
Proof.
  intros Hrot Hr Hacc Hnd HaccL HndL Ht Tpos Hp raw a rawL g.
  split; [reflexivity|]. split; [reflexivity|].
  split; [|split; [reflexivity|]].
  - subst raw a. rewrite Hacc.
    destruct (maxDimOf_fin U) as (D & HD & Dx & Dy & Dz & Dcase).
    assert (Dpos : 0 < D) by (destruct Hnd as [H|[H|H]]; lra).
    rewrite (normalize_fin cfg U ms t D Ht HD Dpos), Ht.
    cbn [CanvasHost.anchorPosition]. rewrite Hp.
    apply (box_image_fits _ U t D px py pz HD Dpos Tpos).
    intros x y z. eexists _, _, _. split.
    + apply (worldOf_fin rotateBy _ px py pz (t / D)
               (- ((loX U + hiX U) * (1 # 2))) (- loY U)
               (- ((loZ U + hiZ U) * (1 # 2))) x y z); auto.
    + repeat split; ring.
  - subst rawL g. rewrite HaccL.
    destruct (maxDimOf_fin L) as (D & HD & Dx & Dy & Dz & Dcase).
    assert (Dpos : 0 < D) by (destruct HndL as [H|[H|H]]; lra).
    rewrite (place_fin cfg L msL t D Ht HD Dpos), Ht.
    cbn [SceneManager.anchorPosition]. rewrite Hp.
    apply (box_image_fits _ L t D px py pz HD Dpos Tpos).
    intros x y z. eexists _, _, _. split.
    + apply (worldOfGroup_fin rotateBy _ px py pz (t / D)
               (- ((loX L + hiX L) * (1 # 2) * (t / D))) (- (loY L * (t / D)))
               (- ((loZ L + hiZ L) * (1 # 2) * (t / D))) x y z); auto.
    + repeat split; ring.
Qed.

Lemma C1_normalized_box_fits_footprint_witness :
  let rotateBy := fun (_ p : Vec3) => p in
  let raw := accumulateWorld [cubeMesh] in
  let a := CanvasHost.normalize cubeCfg raw [cubeMesh] in
  let rawL := accumulateLocal [cubeMesh] in
  let g := SceneManager.place cubeCfg rawL [cubeMesh] in
  CanvasHost.scalerScaling a
  = vec3 (targetSizeOf cubeCfg / maxDimOf raw)%js (targetSizeOf cubeCfg / maxDimOf raw)%js
         (targetSizeOf cubeCfg / maxDimOf raw)%js
  /\ CanvasHost.offsetPosition a
     = vec3 (- vx (centerOf raw))%js (- vy (bmin raw))%js (- vz (centerOf raw))%js
  /\ (exists W : QBox,
        carriesOnto (worldOf rotateBy a) (qbox (-1) (-1) (-1) 1 1 1) W
        /\ (maxDimOf (boxOf W) =~ targetSizeOf cubeCfg)%js
        /\ (vy (bmin (boxOf W)) =~ vy (CanvasHost.anchorPosition a))%js)
  /\ SceneManager.groupScaling g
     = vec3 (targetSizeOf cubeCfg / maxDimOf rawL)%js
            (targetSizeOf cubeCfg / maxDimOf rawL)%js
            (targetSizeOf cubeCfg / maxDimOf rawL)%js
  /\ (exists W : QBox,
        carriesOnto (worldOfGroup rotateBy g) (qbox (-1) (-1) (-1) 1 1 1) W
        /\ (maxDimOf (boxOf W) =~ targetSizeOf cubeCfg)%js
        /\ (vy (bmin (boxOf W)) =~ vy (SceneManager.anchorPosition g))%js).
Proof.
  apply (C1_normalized_box_fits_footprint (fun _ p => p) cubeCfg [cubeMesh] [cubeMesh]
           (qbox (-1) (-1) (-1) 1 1 1) (qbox (-1) (-1) (-1) 1 1 1) 40 10 0 0).
  - reflexivity.
  - reflexivity.
  - reflexivity.
  - left. reflexivity.
  - reflexivity.
  - left. reflexivity.
  - reflexivity.
  - reflexivity.
  - reflexivity.
Defined.

(** The same invariant for an anchor turned a quarter about the vertical
    axis, as the bridge entry of [MODELS] is: the engine's rotation then
    sends (x, y, z) to (z, y, -x), the world box has the X and Z extents of
    the raw box exchanged, and its corners are the images of two other corners
    of the raw box. *)
Lemma normalized_box_quarter_turn
  (rotateBy : Vec3 -> Vec3 -> Vec3) (cfg : ModelConfig) (ms : list Mesh)
  (U : QBox) (t px py pz : Q) :
  (forall u v w, rotateBy (rotationOf cfg) (fin3 u v w) = fin3 w v (- u)) ->
  accumulateWorld ms = boxOf U ->
  (loX U < hiX U \/ loY U < hiY U \/ loZ U < hiZ U) ->
  targetSizeOf cfg = Fin t -> 0 < t ->
  positionOf cfg = fin3 px py pz ->
  let a := CanvasHost.normalize cfg (accumulateWorld ms) ms in
  exists W : QBox,
    worldOf rotateBy a (fin3 (hiX U) (loY U) (loZ U)) = bmin (boxOf W)
    /\ worldOf rotateBy a (fin3 (loX U) (hiY U) (hiZ U)) = bmax (boxOf W)
    /\ (maxDimOf (boxOf W) =~ targetSizeOf cfg)%js
    /\ (vy (bmin (boxOf W)) =~ vy (CanvasHost.anchorPosition a))%js
    /\ forall x y z,
         loX U <= x <= hiX U -> loY U <= y <= hiY U -> loZ U <= z <= hiZ U ->
         exists x' y' z',
           worldOf rotateBy a (fin3 x y z) = fin3 x' y' z'
           /\ loX W <= x' <= hiX W /\ loY W <= y' <= hiY W
           /\ loZ W <= z' <= hiZ W.
Proof.
  intros Hrot Hacc Hnd Ht Tpos Hp a. subst a. rewrite Hacc.
  destruct (maxDimOf_fin U) as (D & HD & Dx & Dy & Dz & Dcase).
  assert (Dpos : 0 < D) by (destruct Hnd as [H|[H|H]]; lra).
  rewrite (normalize_fin cfg U ms t D Ht HD Dpos).
  set (a := CanvasHost.mkAnchor _ _ _ _ _ _ _).
  set (s := t / D).
  set (ox := - ((loX U + hiX U) * (1 # 2))).
  set (oz := - ((loZ U + hiZ U) * (1 # 2))).
  assert (Spos : 0 < s).
  { unfold s. apply Qlt_shift_div_l; auto. lra. }
  assert (SD : s * D == t).
  { unfold s. field. lra. }
  assert (Hw : forall x y z, worldOf rotateBy a (fin3 x y z)
             = fin3 (px + s * (oz + z)) (py + s * (- loY U + y))
                    (pz + - (s * (ox + x)))).
  { intros x y z. unfold worldOf, a. cbn [CanvasHost.anchorPosition
      CanvasHost.anchorRotation CanvasHost.scalerScaling CanvasHost.offsetPosition].
    match goal with |- Vector3.add _ (rotateBy _ ?v) = _ =>
      change v with (fin3 (s * (ox + x)) (s * (- loY U + y)) (s * (oz + z))) end.
    rewrite Hrot, Hp. reflexivity. }
  exists (qbox (px + s * (oz + loZ U)) (py + s * (- loY U + loY U))
               (pz + - (s * (ox + hiX U)))
               (px + s * (oz + hiZ U)) (py + s * (- loY U + hiY U))
               (pz + - (s * (ox + loX U)))).
  split; [apply Hw|]. split; [apply Hw|]. split; [|split].
  - set (W := qbox _ _ _ _ _ _).
    destruct (maxDimOf_fin W) as (D' & HD' & Wx & Wy & Wz & Wcase).
    rewrite HD', Ht. simpl. unfold W in Wx, Wy, Wz, Wcase. simpl in Wx, Wy, Wz, Wcase.
    assert (Ex : s * (hiX U - loX U) <= s * D) by (apply Qmult_le_l; auto).
    assert (Ey : s * (hiY U - loY U) <= s * D) by (apply Qmult_le_l; auto).
    assert (Ez : s * (hiZ U - loZ U) <= s * D) by (apply Qmult_le_l; auto).
    apply Qle_antisym.
    + destruct Wcase as [ -> | [ -> | -> ] ]; lra.
    + destruct Dcase as [E|[E|E]]; rewrite E in SD; lra.
  - unfold a. simpl. rewrite Hp. simpl. ring.
  - intros x y z [Hx1 Hx2] [Hy1 Hy2] [Hz1 Hz2].
    exists (px + s * (oz + z)), (py + s * (- loY U + y)), (pz + - (s * (ox + x))).
    split; [apply Hw|]. simpl.
    assert (M : forall u v, u <= v -> s * u <= s * v)
      by (intros u v Huv; apply Qmult_le_l; auto).
    pose proof (M _ _ Hx1). pose proof (M _ _ Hx2).
    pose proof (M _ _ Hy1). pose proof (M _ _ Hy2).
    pose proof (M _ _ Hz1). pose proof (M _ _ Hz2).
    repeat split; lra.
Qed.

(** Scenario 1, evaluated: scale 20 and the world corners (-10, 0, -20) and
    (30, 40, 20), an extent of 40 on every axis. *)
Lemma scenario_cube :
  let a := CanvasHost.normalize cubeCfg (accumulateWorld [cubeMesh]) [cubeMesh] in
  Vector3.same (CanvasHost.scalerScaling a) (fin3 20 20 20)
  /\ Vector3.same (worldOf (fun _ p => p) a (fin3 (-1) (-1) (-1))) (fin3 (-10) 0 (-20))
  /\ Vector3.same (worldOf (fun _ p => p) a (fin3 1 1 1)) (fin3 30 40 20).
Proof. vm_compute. repeat split; reflexivity. Qed.

(** ** The anchor registry *)

Lemma get_set_same {A} (o : Obj.t A) (k : string) (v : A) :
  Obj.get (Obj.set o k v) k = Some v.
Proof.
  induction o as [|[k' v'] o IH]; simpl.
  - rewrite String.eqb_refl. reflexivity.
  - destruct (String.eqb k' k) eqn:E; simpl.
    + rewrite String.eqb_refl. reflexivity.
    + rewrite E. exact IH.
Qed.

Lemma get_set_other {A} (o : Obj.t A) (k k2 : string) (v : A) :
  k <> k2 -> Obj.get (Obj.set o k v) k2 = Obj.get o k2.
Proof.
  intro Hne. induction o as [|[k' v'] o IH]; simpl.
  - destruct (String.eqb k k2) eqn:E; auto. apply String.eqb_eq in E. contradiction.
  - destruct (String.eqb k' k) eqn:E; simpl.
    + apply String.eqb_eq in E. subst k'.
      destruct (String.eqb k k2) eqn:E2; auto.
      apply String.eqb_eq in E2. contradiction.
    + rewrite IH. reflexivity.
Qed.

(** Assigning to a name that is registered replaces the value in place. *)
Lemma keys_set_registered {A} (o : Obj.t A) (k : string) (v0 v : A) :
  Obj.get o k = Some v0 -> Obj.keys (Obj.set o k v) = Obj.keys o.
Proof.
  induction o as [|[k' v'] o IH]; simpl; [discriminate|].
  destruct (String.eqb k' k) eqn:E; simpl.
  - apply String.eqb_eq in E. subst. reflexivity.
  - intro H. unfold Obj.keys in *. simpl. f_equal. apply IH. exact H.
Qed.

Lemma loadOne_skips (load : Loader) (cfg : ModelConfig) (anchors : Obj.t CanvasHost.Anchor)
  (container : AssetContainer) :
  load (String.append "/assets/" (file cfg)) = Some container ->
  filter (fun m => Nat.ltb 0 (getTotalVertices m)) (meshes container) = [] ->
  CanvasHost.loadOne load cfg anchors = Ok anchors.
Proof.
  intros Hload Hgeom. unfold CanvasHost.loadOne. rewrite Hload, Hgeom. reflexivity.
Qed.

Lemma loadOne_registers (load : Loader) (cfg : ModelConfig)
  (anchors : Obj.t CanvasHost.Anchor) (container : AssetContainer) (ms : list Mesh) :
  load (String.append "/assets/" (file cfg)) = Some container ->
  CanvasHost.repairAll
    (filter (fun m => Nat.ltb 0 (getTotalVertices m)) (meshes container)) = Ok ms ->
  ms <> [] ->
  CanvasHost.loadOne load cfg anchors
  = Ok (Obj.set anchors (name cfg) (CanvasHost.normalize cfg (accumulateWorld ms) ms)).
Proof.
  intros Hload Hrep Hne. unfold CanvasHost.loadOne. rewrite Hload, Hrep.
  destruct ms as [|m ms]; [contradiction|]. reflexivity.
Qed.

(** ** Duplicate names *)

(** C5, counterexample: two descriptors named "tower", 30 m west and 30 m
    east.  [CanvasHost.loadModels] ends with the single entry "tower" at the
    eastern position: the second registration replaced the first and nothing
    was raised.  [SceneManager.loadModels] keeps the western one and reports
    no error. *)
Lemma C5_duplicate_name_is_not_rejected :
  name towerWest = name towerEast
  /\ ~ rejectsDuplicate exampleLoader towerWest towerEast
  /\ map (fun kv => (fst kv, CanvasHost.anchorPosition (snd kv)))
         (fst (CanvasHost.loadModels exampleLoader [towerWest; towerEast] camera0 []))
     = [("tower"%string, fin3 30 0 0)]
  /\ map (fun kv => (fst kv, SceneManager.anchorPosition (snd kv)))
         (SceneManager.anchors
            (SceneManager.loadEach exampleLoader [towerWest; towerEast]
               (SceneManager.mkState [] [])))
     = [("tower"%string, fin3 (-30) 0 0)]
  /\ SceneManager.errors
       (SceneManager.loadEach exampleLoader [towerWest; towerEast]
          (SceneManager.mkState [] [])) = [].
Proof.
  split; [reflexivity|]. split; [|repeat split; reflexivity].
  intro H.
  destruct (CanvasHost.loadOne exampleLoader towerWest []) as [anchors1|e] eqn:E1.
  - destruct (H anchors1 E1) as (e & He).
    vm_compute in E1. injection E1 as <-. vm_compute in He. discriminate He.
  - vm_compute in E1. discriminate E1.
Qed.

(** C5, as the code has it: a descriptor whose name is already registered
    raises nothing.  In [CanvasHost.loadModels] its anchor is built like any
    other and assigned to the name, replacing the registered anchor in place;
    in [SceneManager.loadModels] the descriptor is passed over, leaving the
    registry and the error log as they were. *)
Theorem C5_duplicate_name_overwrites_or_skips
  (load : Loader) (cfg : ModelConfig) (container : AssetContainer) (ms : list Mesh)
  (anchors : Obj.t CanvasHost.Anchor) (a0 : CanvasHost.Anchor)
  (s : SceneManager.State) (b0 : SceneManager.Anchor) :
  Obj.get anchors (name cfg) = Some a0 ->
  Obj.get (SceneManager.anchors s) (name cfg) = Some b0 ->
  load (String.append "/assets/" (file cfg)) = Some container ->
  CanvasHost.repairAll
    (filter (fun m => Nat.ltb 0 (getTotalVertices m)) (meshes container)) = Ok ms ->
  ms <> [] ->
  (exists anchors',
      CanvasHost.loadOne load cfg anchors = Ok anchors'
      /\ Obj.get anchors' (name cfg)
         = Some (CanvasHost.normalize cfg (accumulateWorld ms) ms)
      /\ Obj.keys anchors' = Obj.keys anchors
      /\ forall k, k <> name cfg -> Obj.get anchors' k = Obj.get anchors k)
  /\ SceneManager.loadOne load cfg s = s.
Proof.
  intros Hreg HregS Hload Hrep Hne. split.
  - exists (Obj.set anchors (name cfg) (CanvasHost.normalize cfg (accumulateWorld ms) ms)).
    split; [apply (loadOne_registers load cfg anchors container ms); auto|].
    split; [apply get_set_same|].
    split; [apply (keys_set_registered _ _ a0); auto|].
    intros k Hk. apply get_set_other. auto.
  - unfold SceneManager.loadOne, Obj.truthyAt. rewrite HregS. reflexivity.
Qed.

Lemma C5_duplicate_name_overwrites_or_skips_witness :
  (exists anchors',
      CanvasHost.loadOne exampleLoader towerEast towerAnchors = Ok anchors'
      /\ Obj.get anchors' (name towerEast)
         = Some (CanvasHost.normalize towerEast (accumulateWorld [triMesh]) [triMesh])
      /\ Obj.keys anchors' = Obj.keys towerAnchors
      /\ forall k, k <> name towerEast -> Obj.get anchors' k = Obj.get towerAnchors k)
  /\ SceneManager.loadOne exampleLoader towerEast towerState = towerState.
Proof.
  eapply (C5_duplicate_name_overwrites_or_skips exampleLoader towerEast
            (mkContainer [triMesh]) [triMesh] towerAnchors _ towerState _).
  - reflexivity.
  - reflexivity.
  - reflexivity.
  - reflexivity.
  - discriminate.
Defined.

(** ** Geometry of extent zero *)

(** C6, counterexample: a model made of one mesh whose vertices coincide.
    Its largest extent is 0, yet it is registered, by both loaders, with the
    scale 40 / 0 = +Infinity. *)
Lemma C6_zero_extent_is_registered :
  (maxDimOf (accumulateWorld [pointMesh]) =~ n_ 0)%js
  /\ ~ skipsDegenerate exampleLoader dotCfg
  /\ map (fun kv => (fst kv, CanvasHost.scalerScaling (snd kv)))
         (fst (CanvasHost.loadModels exampleLoader [dotCfg] camera0 []))
     = [("dot"%string, vec3 PInf PInf PInf)]
  /\ map (fun kv => (fst kv, SceneManager.groupScaling (snd kv)))
         (SceneManager.anchors
            (SceneManager.loadEach exampleLoader [dotCfg] (SceneManager.mkState [] [])))
     = [("dot"%string, vec3 PInf PInf PInf)].
Proof.
  split; [vm_compute; reflexivity|]. split; [|split; reflexivity].
  intro H.
  specialize (H (mkContainer [pointMesh]) [pointMesh] eq_refl eq_refl eq_refl [] eq_refl).
  vm_compute in H. discriminate H.
Qed.

Lemma div_fin_by (t D : Q) :
  0 < t -> (Fin t / Fin D)%js = if Qeq_bool D 0 then PInf else Fin (t / D).
Proof.
  intro Ht. unfold div. rewrite (sgn_gt t Ht). unfold sgn.
  destruct (Qeq_bool D 0) eqn:E.
  - apply Qeq_bool_iff in E. apply Qeq_alt in E. rewrite E. reflexivity.
  - destruct (D ?= 0) eqn:C; try reflexivity.
    apply Qeq_alt in C. apply Qeq_bool_iff in C. congruence.
Qed.

(** C6, as the code has it: the largest extent is never tested and no
    error is raised for it.  A loaded model is registered whatever its
    largest extent [D] is, zero and negative values included:
    [CanvasHost.loadModels], when some mesh has vertices and the repair
    raises nothing, returns normally with the anchor assigned to the name;
    [SceneManager.loadModels], when the name is free and the local bounds are
    not null, registers its anchor and reports no error.  In both the scale
    is [targetSize / maxDim], that is +Infinity for a largest extent of 0 and
    a positive footprint, and the number [t / D] otherwise. *)
Theorem C6_degenerate_model_is_registered
  (load : Loader) (cfg : ModelConfig) (container : AssetContainer) (ms : list Mesh)
  (anchors : Obj.t CanvasHost.Anchor) (s : SceneManager.State) (b : Bounds)
  (t D DL : Q) :
  load (String.append "/assets/" (file cfg)) = Some container ->
  CanvasHost.repairAll
    (filter (fun m => Nat.ltb 0 (getTotalVertices m)) (meshes container)) = Ok ms ->
  ms <> [] ->
  maxDimOf (accumulateWorld ms) = Fin D ->
  Obj.truthyAt (SceneManager.anchors s) (name cfg) = false ->
  SceneManager.computeLocalBounds (meshes container) = Some b ->
  maxDimOf b = Fin DL ->
  targetSizeOf cfg = Fin t -> 0 < t ->
  let k := fun d : Q => if Qeq_bool d 0 then PInf else Fin (t / d) in
  (exists a,
      CanvasHost.loadOne load cfg anchors = Ok (Obj.set anchors (name cfg) a)
      /\ Obj.get (Obj.set anchors (name cfg) a) (name cfg) = Some a
      /\ CanvasHost.scalerScaling a = vec3 (k D) (k D) (k D))
  /\ (exists g,
      SceneManager.loadOne load cfg s
      = SceneManager.mkState (Obj.set (SceneManager.anchors s) (name cfg) g)
                             (SceneManager.errors s)
      /\ Obj.get (Obj.set (SceneManager.anchors s) (name cfg) g) (name cfg) = Some g
      /\ SceneManager.groupScaling g = vec3 (k DL) (k DL) (k DL)).
Proof.
  intros Hload Hrep Hne HD Hfree Hb HDL Ht Tpos k. split.
  - exists (CanvasHost.normalize cfg (accumulateWorld ms) ms).
    split; [apply (loadOne_registers load cfg anchors container ms); auto|].
    split; [apply get_set_same|].
    unfold CanvasHost.normalize. cbn [CanvasHost.scalerScaling].
    change (max3 (vx (Vector3.subtract (bmax (accumulateWorld ms))
                                       (bmin (accumulateWorld ms))))
                 (vy (Vector3.subtract (bmax (accumulateWorld ms))
                                       (bmin (accumulateWorld ms))))
                 (vz (Vector3.subtract (bmax (accumulateWorld ms))
                                       (bmin (accumulateWorld ms)))))
      with (maxDimOf (accumulateWorld ms)).
    rewrite Ht, HD, (div_fin_by t D Tpos). reflexivity.
  - exists (SceneManager.place cfg b (meshes container)).
    split; [|split; [apply get_set_same|]].
    + unfold SceneManager.loadOne. rewrite Hfree, Hload, Hb. reflexivity.
    + unfold SceneManager.place. cbn [SceneManager.groupScaling].
      change (max3 (vx (Vector3.subtract (bmax b) (bmin b)))
                   (vy (Vector3.subtract (bmax b) (bmin b)))
                   (vz (Vector3.subtract (bmax b) (bmin b))))
        with (maxDimOf b).
      rewrite Ht, HDL, (div_fin_by t DL Tpos). reflexivity.
Qed.

Lemma C6_degenerate_model_is_registered_witness :
  (exists a,
      CanvasHost.loadOne exampleLoader dotCfg [] = Ok (Obj.set [] (name dotCfg) a)
      /\ Obj.get (Obj.set [] (name dotCfg) a) (name dotCfg) = Some a
      /\ CanvasHost.scalerScaling a = vec3 PInf PInf PInf)
  /\ (exists g,
      SceneManager.loadOne exampleLoader dotCfg (SceneManager.mkState [] [])
      = SceneManager.mkState (Obj.set [] (name dotCfg) g) []
      /\ Obj.get (Obj.set [] (name dotCfg) g) (name dotCfg) = Some g
      /\ SceneManager.groupScaling g = vec3 PInf PInf PInf).
Proof.
  apply (C6_degenerate_model_is_registered exampleLoader dotCfg
           (mkContainer [pointMesh]) [pointMesh] [] (SceneManager.mkState [] [])
           (mkBounds (fin3 1 1 1) (fin3 1 1 1)) 40 0 0).
  - reflexivity.
  - reflexivity.
  - discriminate.
  - reflexivity.
  - reflexivity.
  - reflexivity.
  - reflexivity.
  - reflexivity.
  - reflexivity.
Defined.

(** ** Hover exclusivity *)

Section Hover.
Import CanvasHost.
Variable highlightLayer : bool.

Lemma setFlag_same (f : nat -> bool) (k : nat) (v : bool) : setFlag f k v k = v.
Proof. unfold setFlag. rewrite Nat.eqb_refl. reflexivity. Qed.

Lemma setFlag_other (f : nat -> bool) (k i : nat) (v : bool) :
  i <> k -> setFlag f k v i = f i.
Proof.
  intro H. unfold setFlag. destruct (Nat.eqb i k) eqn:E; auto.
  apply Nat.eqb_eq in E. contradiction.
Qed.

Lemma highlighted_mark (s : HoverState) (k i : nat) :
  highlighted highlightLayer (mark highlightLayer k s) i
  = if Nat.eqb i k then true else highlighted highlightLayer s i.
Proof. unfold highlighted, mark, setFlag. destruct highlightLayer; reflexivity. Qed.

Lemma highlighted_unmark (s : HoverState) (k i : nat) :
  highlighted highlightLayer (unmark highlightLayer k s) i
  = if Nat.eqb i k then false else highlighted highlightLayer s i.
Proof. unfold highlighted, unmark, setFlag. destruct highlightLayer; reflexivity. Qed.

Lemma highlighted_setLast (s : HoverState) (l : option nat) (i : nat) :
  highlighted highlightLayer (setLast l s) i = highlighted highlightLayer s i.
Proof. unfold highlighted, setLast. destruct highlightLayer; reflexivity. Qed.

Lemma last_mark (s : HoverState) (k : nat) :
  lastHoveredMesh (mark highlightLayer k s) = lastHoveredMesh s.
Proof. unfold mark. destruct highlightLayer; reflexivity. Qed.

Lemma last_unmark (s : HoverState) (k : nat) :
  lastHoveredMesh (unmark highlightLayer k s) = lastHoveredMesh s.
Proof. unfold unmark. destruct highlightLayer; reflexivity. Qed.

Lemma over_preserves (s : HoverState) (mesh : nat) :
  hoverInv highlightLayer s -> hoverInv highlightLayer (onPointerOver highlightLayer mesh s).
Proof.
  intros I m. unfold onPointerOver.
  destruct (isInteracting s); [apply I|].
  destruct (lastHoveredMesh s) as [l|] eqn:L.
  - destruct (Nat.eqb l mesh) eqn:E; [apply I|].
    rewrite highlighted_mark, last_mark, highlighted_setLast, highlighted_unmark.
    destruct (Nat.eqb m mesh) eqn:Em.
    + apply Nat.eqb_eq in Em. subst. reflexivity.
    + destruct (Nat.eqb m l) eqn:El; [discriminate|].
      intro H. apply I in H. rewrite L in H. injection H as ->.
      rewrite Nat.eqb_refl in El. discriminate.
  - rewrite highlighted_mark, last_mark, highlighted_setLast.
    destruct (Nat.eqb m mesh) eqn:Em.
    + apply Nat.eqb_eq in Em. subst. reflexivity.
    + intro H. apply I in H. rewrite L in H. discriminate.
Qed.

Lemma out_preserves (s : HoverState) (mesh : nat) :
  hoverInv highlightLayer s -> hoverInv highlightLayer (onPointerOut highlightLayer mesh s).
Proof.
  intros I m. unfold onPointerOut.
  destruct (isInteracting s); [apply I|].
  rewrite highlighted_unmark, last_unmark.
  destruct (Nat.eqb m mesh) eqn:Em; [discriminate|].
  destruct (lastHoveredMesh s) as [l|] eqn:L.
  - destruct (Nat.eqb l mesh) eqn:E.
    + rewrite highlighted_setLast. intro H. apply I in H. rewrite L in H.
      injection H as ->. rewrite E in Em. discriminate.
    + intro H. rewrite L. apply I in H. rewrite L in H. exact H.
  - intro H. apply I in H. rewrite L in H. discriminate.
Qed.

Lemma handle_preserves (s : HoverState) (e : Event) :
  hoverInv highlightLayer s -> hoverInv highlightLayer (handle highlightLayer s e).
Proof.
  intro I. destruct e; simpl.
  - apply over_preserves; auto.
  - apply out_preserves; auto.
  - intros m H. apply I. exact H.
  - intros m H. unfold setInteracting in *. simpl in *. apply I. exact H.
  - intros m H. apply I. exact H.
  - intros m. unfold timeoutFires. destruct (interactionTimeout s); [|apply I].
    intro H. apply I. exact H.
Qed.

Lemma run_preserves (events : list Event) : forall s,
  hoverInv highlightLayer s -> hoverInv highlightLayer (run highlightLayer events s).
Proof.
  induction events as [|e events IH]; intros s I; simpl; auto.
  apply IH. apply handle_preserves. exact I.
Qed.

Lemma initial_inv : hoverInv highlightLayer initialHover.
Proof. intros m H. unfold highlighted in H. destruct highlightLayer; discriminate. Qed.

End Hover.

(** C9: after any sequence of pointer-over, pointer-out, pointer-down,
    pointer-up, wheel and timeout events, with either highlighting
    mechanism, at most one mesh is highlighted; and a pointer-over that puts
    the highlight on a new mesh takes it off the mesh highlighted before. *)
Theorem C9_at_most_one_highlight (highlightLayer : bool) (events : list CanvasHost.Event) :
  let s := CanvasHost.run highlightLayer events CanvasHost.initialHover in
  (forall m1 m2,
      CanvasHost.highlighted highlightLayer s m1 = true ->
      CanvasHost.highlighted highlightLayer s m2 = true -> m1 = m2)
  /\ (forall l m,
      CanvasHost.isInteracting s = false ->
      CanvasHost.lastHoveredMesh s = Some l -> l <> m ->
      let s' := CanvasHost.onPointerOver highlightLayer m s in
      CanvasHost.highlighted highlightLayer s' l = false
      /\ CanvasHost.highlighted highlightLayer s' m = true
      /\ CanvasHost.lastHoveredMesh s' = Some m).
Proof.
  intro s.
  assert (I : hoverInv highlightLayer s).
  { apply run_preserves. apply initial_inv. }
  split.
  - intros m1 m2 H1 H2. apply I in H1. apply I in H2. congruence.
  - intros l m Hint Hlast Hne s'. subst s'. unfold CanvasHost.onPointerOver.
    rewrite Hint, Hlast.
    destruct (Nat.eqb l m) eqn:E; [apply Nat.eqb_eq in E; contradiction|].
    rewrite !highlighted_mark, last_mark, highlighted_setLast, highlighted_unmark.
    rewrite E, !Nat.eqb_refl. repeat split; reflexivity.
Qed.

Lemma C9_at_most_one_highlight_witness :
  let s := CanvasHost.run false
             [CanvasHost.PointerOver 1; CanvasHost.PointerDown;
              CanvasHost.PointerOut 1; CanvasHost.PointerUp;
              CanvasHost.TimeoutFires; CanvasHost.PointerOver 2]
             CanvasHost.initialHover in
  CanvasHost.highlighted false s 2 = true
  /\ forall m, CanvasHost.highlighted false s m = true -> m = 2%nat.
Proof.
  split; [reflexivity|].
  intros m H.
  apply (proj1 (C9_at_most_one_highlight false
                  [CanvasHost.PointerOver 1; CanvasHost.PointerDown;
                   CanvasHost.PointerOut 1; CanvasHost.PointerUp;
                   CanvasHost.TimeoutFires; CanvasHost.PointerOver 2]) m 2%nat H).
  reflexivity.
Defined.

(** Interacting suppression (section 8): while [isInteracting] holds, a
    pointer-over or pointer-out changes nothing. *)
Lemma interacting_suppresses (highlightLayer : bool) (s : CanvasHost.HoverState)
  (mesh : nat) :
  CanvasHost.isInteracting s = true ->
  CanvasHost.onPointerOver highlightLayer mesh s = s
  /\ CanvasHost.onPointerOut highlightLayer mesh s = s.
Proof.
  intro H. unfold CanvasHost.onPointerOver, CanvasHost.onPointerOut.
  rewrite H. split; reflexivity.
Qed.

(** ** Camera snapping *)






(** A snap by half a metre, evaluated: X 1.3 goes to 1.5, Z -0.25 goes to 0
    (the upper multiple on a tie), Y stays, and the radius is the one derived
    for the new target. *)
Lemma snap_example (rebuilt : Camera -> Vec3 -> num) :
  let cam := mkCamera (fin3 (13 # 10) 20 (-1 # 4)) (n_ 150) in
  let cam' := CanvasHost.applySnap rebuilt (Fin (1 # 2)) cam in
  Vector3.same (target cam') (fin3 (3 # 2) 20 0)
  /\ radius cam' = rebuilt cam (target cam').
Proof. split; [vm_compute; repeat split; reflexivity|reflexivity]. Qed.

(** * Further properties of the code *)

(** ** UV repair: what it leaves alone and what it establishes *)

(** The repair callback writes the primary texture-coordinate channel and
    nothing else: positions, the five other channels, the vertex count, the
    identity and the bounding boxes of the mesh are as before, however the
    callback ends. *)
Theorem repair_writes_only_primary_channel (m : Mesh) :
  let m' := UVRepair.meshOf (UVRepair.repairUVs m) in
  uniqueId m' = uniqueId m /\ totalVertices m' = totalVertices m
  /\ positions m' = positions m
  /\ uv2 m' = uv2 m /\ uv3 m' = uv3 m /\ uv4 m' = uv4 m
  /\ uv5 m' = uv5 m /\ uv6 m' = uv6 m
  /\ minimum m' = minimum m /\ maximum m' = maximum m
  /\ minimumWorld m' = minimumWorld m /\ maximumWorld m' = maximumWorld m.
Proof.
  assert (F : forall m0 uvs,
    let m' := UVRepair.meshOf (UVRepair.fix_ m0 uvs) in
    uniqueId m' = uniqueId m0 /\ totalVertices m' = totalVertices m0
    /\ positions m' = positions m0
    /\ uv2 m' = uv2 m0 /\ uv3 m' = uv3 m0 /\ uv4 m' = uv4 m0
    /\ uv5 m' = uv5 m0 /\ uv6 m' = uv6 m0
    /\ minimum m' = minimum m0 /\ maximum m' = maximum m0
    /\ minimumWorld m' = minimumWorld m0 /\ maximumWorld m' = maximumWorld m0).
  { intros m0 uvs. unfold UVRepair.fix_.
    destruct (UVRepair.needsFix uvs); [|simpl; repeat split; reflexivity].
    destruct (positions m0) as [ps|] eqn:E;
      [|simpl; rewrite ?E; repeat split; reflexivity].
    destruct (UVRepair.arrayLengthOk ps); simpl; rewrite ?E; repeat split; reflexivity. }
  unfold UVRepair.repairUVs.
  destruct (positions m) as [ps|] eqn:E;
    [|simpl; rewrite ?E; repeat split; reflexivity].
  rewrite <- E.
  destruct (uv m) as [l|]; [apply F|].
  destruct (UVRepair.firstAlt m (tl UV_KIND_ORDER)) as [alt|]; [|apply F].
  apply (F (setUV m alt) (Some alt)).
Qed.

Lemma valid_entries (l : list num) :
  UVRepair.needsFix (Some l) = false ->
  Forall (fun c => exists q, c = Fin q /\ -1 <= q <= 10) l.
Proof.
  simpl. intro H. apply Forall_forall. intros c Hc.
  destruct (UVRepair.badUV c) eqn:B.
  - assert (E : existsb UVRepair.badUV l = true)
      by (apply existsb_exists; exists c; auto).
    congruence.
  - unfold UVRepair.badUV in B. apply orb_false_iff in B. destruct B as [B B3].
    apply orb_false_iff in B. destruct B as [B1 B2].
    destruct c as [| | |q]; try discriminate B1.
    exists q. split; auto. unfold gtb in B3.
    apply ltb_fin_false in B2. apply ltb_fin_false in B3.
    change (inject_Z (-1)) with (-1 # 1) in B2. change (inject_Z 10) with (10 # 1) in B3.
    split; lra.
Qed.

(** On a mesh whose position buffer holds finite vertices, the repair ends
    normally and leaves a primary channel that is present and whose every
    entry is a finite number between -1 and 10. *)
Theorem repair_establishes_valid_uv (m : Mesh) (vs : list Vertex) :
  positions m = Some (flatten vs) ->
  exists m' l,
    UVRepair.repairUVs m = UVRepair.Done m'
    /\ uv m' = Some l
    /\ Forall (fun c => exists q, c = Fin q /\ -1 <= q <= 10) l.
Proof.
  intro Hps.
  pose proof (repaired_is_valid m vs Hps) as V.
  assert (D : exists m', UVRepair.repairUVs m = UVRepair.Done m').
  { assert (F : forall m0 uvs, positions m0 = Some (flatten vs) ->
                exists m', UVRepair.fix_ m0 uvs = UVRepair.Done m').
    { intros m0 uvs H0. unfold UVRepair.fix_. rewrite H0, arrayLengthOk_flatten.
      destruct (UVRepair.needsFix uvs); eauto. }
    unfold UVRepair.repairUVs. rewrite Hps.
    destruct (uv m); [apply F; auto|].
    destruct (UVRepair.firstAlt m (tl UV_KIND_ORDER)); apply F; auto. }
  destruct D as (m' & D). rewrite D in V. simpl in V.
  destruct (uv m') as [l|] eqn:U; [|discriminate V].
  exists m', l. repeat split; auto. apply valid_entries. exact V.
Qed.

Lemma repair_establishes_valid_uv_witness :
  exists m' l,
    UVRepair.repairUVs (mkMesh 9 2 (Some (flatten [(0, 2, 0); (10, 3, 5)]))
                          (Some [NaN; Fin 0; Fin 0; Fin 0])
                          None None None None None zero3 zero3 zero3 zero3)
    = UVRepair.Done m'
    /\ uv m' = Some l
    /\ Forall (fun c => exists q, c = Fin q /\ -1 <= q <= 10) l.
Proof.
  apply (repair_establishes_valid_uv _ [(0, 2, 0); (10, 3, 5)]). reflexivity.
Defined.

Lemma emit_length (n : nat) : forall ps e,
  List.length ps = (3 * n)%nat -> List.length (UVRepair.emit ps e) = (2 * n)%nat.
Proof.
  induction n as [|n IH]; intros ps e H.
  - destruct ps; [reflexivity|discriminate].
  - destruct ps as [|x [|y [|z rest]]]; simpl in H; try lia.
    simpl. rewrite (IH rest e); lia.
Qed.

(** Whatever numbers a position buffer of whole triples holds (NaN and
    infinities included), the synthesized buffer has exactly two entries per
    vertex. *)
Theorem newUVs_two_per_vertex (ps : list num) :
  UVRepair.arrayLengthOk ps = true ->
  List.length (UVRepair.newUVs ps) = (2 * (List.length ps / 3))%nat.
Proof.
  unfold UVRepair.arrayLengthOk. intro H. apply Nat.eqb_eq in H.
  pose proof (Nat.div_mod_eq (List.length ps) 3) as E. rewrite H in E.
  unfold UVRepair.newUVs. apply emit_length. lia.
Qed.

Lemma newUVs_two_per_vertex_witness :
  List.length (UVRepair.newUVs [NaN; Fin 1; PInf; Fin 2; Fin 3; Fin 4])
  = (2 * (List.length [NaN; Fin 1; PInf; Fin 2; Fin 3; Fin 4] / 3))%nat.
Proof. apply newUVs_two_per_vertex. reflexivity. Defined.

(** ** Bounds: composition and order *)

Lemma lower_nan_r (a : num) : lower a NaN = a.
Proof. destruct a; reflexivity. Qed.
Lemma lower_nan_l (v : num) : lower NaN v = NaN.
Proof. destruct v; reflexivity. Qed.
Lemma lower_pinf_r (a : num) : lower a PInf = a.
Proof. destruct a; reflexivity. Qed.
Lemma lower_ninf_l (v : num) : lower NInf v = NInf.
Proof. destruct v; reflexivity. Qed.
Lemma lower_pinf_fin (v : Q) : lower PInf (Fin v) = Fin v.
Proof. reflexivity. Qed.
Lemma lower_ninf_r (a : num) : a <> NaN -> lower a NInf = NInf.
Proof. destruct a; try reflexivity. intro H. contradiction. Qed.

Lemma upper_nan_r (a : num) : upper a NaN = a.
Proof. destruct a; reflexivity. Qed.
Lemma upper_nan_l (v : num) : upper NaN v = NaN.
Proof. destruct v; reflexivity. Qed.
Lemma upper_ninf_r (a : num) : upper a NInf = a.
Proof. destruct a; reflexivity. Qed.
Lemma upper_pinf_l (v : num) : upper PInf v = PInf.
Proof. destruct v; reflexivity. Qed.
Lemma upper_ninf_fin (v : Q) : upper NInf (Fin v) = Fin v.
Proof. reflexivity. Qed.
Lemma upper_pinf_r (a : num) : a <> NaN -> upper a PInf = PInf.
Proof. destruct a; try reflexivity. intro H. contradiction. Qed.

Ltac settle_lower :=
  repeat (rewrite ?lower_nan_r, ?lower_nan_l, ?lower_pinf_r, ?lower_ninf_l,
            ?lower_pinf_fin, ?lower_ninf_r by discriminate;
          try match goal with
              | |- context [lower (Fin ?x) (Fin ?y)] =>
                  destruct (lower_fin x y) as [[-> ?]|[-> ?]]
              end);
  try reflexivity; try (exfalso; lra).

Ltac settle_upper :=
  repeat (rewrite ?upper_nan_r, ?upper_nan_l, ?upper_ninf_r, ?upper_pinf_l,
            ?upper_ninf_fin, ?upper_pinf_r by discriminate;
          try match goal with
              | |- context [upper (Fin ?x) (Fin ?y)] =>
                  destruct (upper_fin x y) as [[-> ?]|[-> ?]]
              end);
  try reflexivity; try (exfalso; lra).

(** Taking the running minimum of three values does not depend on how the
    steps are grouped. *)
Lemma lower_assoc (a v n : num) :
  lower (lower a v) n = lower a (lower (lower PInf v) n).
Proof. destruct a as [| | |a], v as [| | |v], n as [| | |n]; settle_lower. Qed.

Lemma upper_assoc (a v n : num) :
  upper (upper a v) n = upper a (upper (upper NInf v) n).
Proof. destruct a as [| | |a], v as [| | |v], n as [| | |n]; settle_upper. Qed.

Lemma fold_lower_from (l : list num) : forall a,
  fold_left lower l a = lower a (fold_left lower l PInf).
Proof.
  induction l as [|v l IH]; intro a; simpl.
  - unfold lower. destruct a; reflexivity.
  - rewrite (IH (lower a v)), (IH (lower PInf v)). apply lower_assoc.
Qed.

Lemma fold_upper_from (l : list num) : forall a,
  fold_left upper l a = upper a (fold_left upper l NInf).
Proof.
  induction l as [|v l IH]; intro a; simpl.
  - unfold upper. destruct a; reflexivity.
  - rewrite (IH (upper a v)), (IH (upper NInf v)). apply upper_assoc.
Qed.

(** Growing a box by a list of boxes is growing it by what the list
    accumulates from the box at infinity. *)
Lemma growAll_from (bs : list Bounds) (b : Bounds) :
  growAll bs b
  = grow b (bmin (growAll bs infinityBox)) (bmax (growAll bs infinityBox)).
Proof.
  pose proof (growAll_min bs vx (fun _ _ => eq_refl)) as X1.
  pose proof (growAll_min bs vy (fun _ _ => eq_refl)) as Y1.
  pose proof (growAll_min bs vz (fun _ _ => eq_refl)) as Z1.
  pose proof (growAll_max bs vx (fun _ _ => eq_refl)) as X2.
  pose proof (growAll_max bs vy (fun _ _ => eq_refl)) as Y2.
  pose proof (growAll_max bs vz (fun _ _ => eq_refl)) as Z2.
  unfold grow, Vector3.Minimize, Vector3.Maximize.
  fold (lower (vx (bmin b)) (vx (bmin (growAll bs infinityBox)))).
  fold (lower (vy (bmin b)) (vy (bmin (growAll bs infinityBox)))).
  fold (lower (vz (bmin b)) (vz (bmin (growAll bs infinityBox)))).
  fold (upper (vx (bmax b)) (vx (bmax (growAll bs infinityBox)))).
  fold (upper (vy (bmax b)) (vy (bmax (growAll bs infinityBox)))).
  fold (upper (vz (bmax b)) (vz (bmax (growAll bs infinityBox)))).
  rewrite (X1 infinityBox), (Y1 infinityBox), (Z1 infinityBox).
  rewrite (X2 infinityBox), (Y2 infinityBox), (Z2 infinityBox).
  change (vx (bmin infinityBox)) with PInf. change (vy (bmin infinityBox)) with PInf.
  change (vz (bmin infinityBox)) with PInf. change (vx (bmax infinityBox)) with NInf.
  change (vy (bmax infinityBox)) with NInf. change (vz (bmax infinityBox)) with NInf.
  rewrite <- !fold_lower_from, <- !fold_upper_from.
  rewrite <- (X1 b), <- (Y1 b), <- (Z1 b), <- (X2 b), <- (Y2 b), <- (Z2 b).
  destruct (growAll bs b) as [[x1 y1 z1] [x2 y2 z2]]. reflexivity.
Qed.

Lemma fold_growByMesh (ms : list Mesh) : forall b,
  fold_left growByMesh ms b = growAll (map worldBox ms) b.
Proof.
  unfold growAll. induction ms as [|m ms IH]; intro b; simpl; auto.
Qed.

Lemma union_fold (l : list (list Mesh)) : forall b,
  Forall (fun ms => SceneManager.computeWorldBounds ms <> None) l ->
  growAll (flat_map (fun ms => match SceneManager.computeWorldBounds ms with
                               | Some x => [x]
                               | None => []
                               end) l) b
  = fold_left growByMesh (List.concat l) b.
Proof.
  induction l as [|ms l IH]; intros b H; [reflexivity|].
  inversion H as [|? ? Hms Hl]; subst.
  simpl flat_map. simpl List.concat. rewrite fold_left_app.
  destruct (SceneManager.computeWorldBounds ms) as [x|] eqn:E; [|contradiction].
  assert (Ex : x = accumulateWorld ms).
  { destruct ms as [|m ms]; [discriminate E|]. apply (finiteOrNull_Some _ _ E). }
  unfold growAll in *. rewrite fold_left_app. simpl fold_left at 2.
  fold (growAll (flat_map (fun ms0 => match SceneManager.computeWorldBounds ms0 with
                                      | Some x0 => [x0]
                                      | None => []
                                      end) l) (grow b (bmin x) (bmax x))).
  unfold growAll. rewrite (IH _ Hl). f_equal.
  rewrite fold_growByMesh, growAll_from, Ex, accumulateWorld_growAll. reflexivity.
Qed.

(** When the bounds computation answers a box for every registered anchor,
    the union box [frameAll] accumulates over the anchors is the box
    accumulated over all their meshes at once, whatever numbers the boxes
    hold, and that is the box [frameAll] frames. *)
Theorem frameAll_union_is_bounds_of_all_meshes (anchors : Obj.t (list Mesh))
  (cam : Camera) :
  anchors <> [] ->
  Forall (fun ms => SceneManager.computeWorldBounds ms <> None) (Obj.values anchors) ->
  growAll (worldBoundsOf anchors) infinityBox
  = accumulateWorld (List.concat (Obj.values anchors))
  /\ SceneManager.frameAll anchors (Some cam)
     = Some (SceneManager.frameBox (accumulateWorld (List.concat (Obj.values anchors))) cam).
Proof.
  intros Hne H.
  assert (U : growAll (worldBoundsOf anchors) infinityBox
              = accumulateWorld (List.concat (Obj.values anchors))).
  { unfold worldBoundsOf. rewrite (union_fold _ _ H). reflexivity. }
  split; [exact U|].
  unfold SceneManager.frameAll. rewrite frame_fold. simpl fst. simpl snd.
  fold (worldBoundsOf anchors). rewrite U.
  destruct anchors as [|[k ms] rest]; [contradiction|].
  unfold worldBoundsOf. simpl Obj.values. simpl flat_map.
  simpl in H. inversion H as [|? ? Hms Hl]; subst.
  destruct (SceneManager.computeWorldBounds ms); [reflexivity|contradiction].
Qed.

Lemma frameAll_union_is_bounds_of_all_meshes_witness :
  growAll (worldBoundsOf [("a"%string, [cubeMesh]); ("b"%string, [triMesh; pointMesh])])
          infinityBox
  = accumulateWorld
      (List.concat (Obj.values [("a"%string, [cubeMesh]); ("b"%string, [triMesh; pointMesh])]))
  /\ SceneManager.frameAll [("a"%string, [cubeMesh]); ("b"%string, [triMesh; pointMesh])]
                           (Some camera0)
     = Some (SceneManager.frameBox
               (accumulateWorld
                  (List.concat (Obj.values [("a"%string, [cubeMesh]);
                                       ("b"%string, [triMesh; pointMesh])]))) camera0).
Proof.
  apply frameAll_union_is_bounds_of_all_meshes.
  - discriminate.
  - repeat constructor; discriminate.
Defined.

Lemma finite_boxes_list (ms : list Mesh) :
  finiteBoxes ms -> exists qs, map worldBox ms = map boxOf qs.
Proof.
  induction 1 as [|m ms (q & Hq) _ (qs & IH)].
  - exists []. reflexivity.
  - exists (q :: qs). simpl. rewrite Hq, IH. reflexivity.
Qed.

Lemma In_component (g : QBox -> Q) (f : Bounds -> num) (qs : list QBox) (x : Q) :
  (forall q, f (boxOf q) = Fin (g q)) ->
  In x (map g qs) <-> In (Fin x) (map f (map boxOf qs)).
Proof.
  intro H. rewrite map_map. split; intro Hin; apply in_map_iff in Hin;
    destruct Hin as (q & Hq & Hqs); apply in_map_iff; exists q; split; auto.
  - rewrite H, Hq. reflexivity.
  - rewrite H in Hq. injection Hq as ->. reflexivity.
Qed.

Lemma isMin_ext (m : Q) (l l' : list Q) :
  (forall x, In x l <-> In x l') -> isMin m l -> isMin m l'.
Proof.
  intros E [Hin Hle]. split; [apply E; auto|]. intros q Hq. apply Hle, E, Hq.
Qed.

Lemma isMax_ext (m : Q) (l l' : list Q) :
  (forall x, In x l <-> In x l') -> isMax m l -> isMax m l'.
Proof.
  intros E [Hin Hle]. split; [apply E; auto|]. intros q Hq. apply Hle, E, Hq.
Qed.

Lemma component_perm (g : QBox -> Q) (f : Bounds -> num) (qs qs' : list QBox) :
  (forall q, f (boxOf q) = Fin (g q)) ->
  Permutation (map boxOf qs) (map boxOf qs') ->
  forall x, In x (map g qs) <-> In x (map g qs').
Proof.
  intros H P x. rewrite (In_component g f qs x H), (In_component g f qs' x H).
  split; apply Permutation_in; [|apply Permutation_sym];
    apply Permutation_map; exact P.
Qed.

(** Over meshes with finite boxes the computed bounds do not depend on the
    order in which the meshes are visited: two orders give boxes with the same
    corners. *)
Theorem bounds_do_not_depend_on_mesh_order (ms ms' : list Mesh) :
  Permutation ms ms' -> ms <> [] -> finiteBoxes ms ->
  exists b b',
    SceneControls.computeWorldBounds ms = Some b
    /\ SceneControls.computeWorldBounds ms' = Some b'
    /\ sameBounds b b'.
Proof.
  intros P Hne F.
  assert (F' : finiteBoxes ms') by (unfold finiteBoxes; rewrite <- P; exact F).
  destruct (finite_boxes_list ms F) as (qs & Hqs).
  destruct (finite_boxes_list ms' F') as (qs' & Hqs').
  assert (PB : Permutation (map boxOf qs) (map boxOf qs')).
  { rewrite <- Hqs, <- Hqs'. apply Permutation_map. exact P. }
  destruct ms as [|m0 ms0]; [contradiction|].
  destruct ms' as [|m0' ms0'].
  { apply Permutation_sym, Permutation_nil in P. discriminate P. }
  destruct qs as [|q qs]; [discriminate Hqs|].
  destruct qs' as [|q' qs']; [discriminate Hqs'|].
  destruct (growAll_exact q qs) as (U & EU & A1 & A2 & A3 & A4 & A5 & A6).
  destruct (growAll_exact q' qs') as (U' & EU' & B1 & B2 & B3 & B4 & B5 & B6).
  exists (boxOf U), (boxOf U'). split; [|split].
  - unfold SceneControls.computeWorldBounds.
    rewrite accumulateWorld_growAll, Hqs, EU. reflexivity.
  - unfold SceneControls.computeWorldBounds.
    rewrite accumulateWorld_growAll, Hqs', EU'. reflexivity.
  - unfold sameBounds, Vector3.same. simpl. repeat split.
    + apply (isMin_unique _ _ (map loX (q' :: qs'))); auto.
      apply (isMin_ext _ (map loX (q :: qs))); auto.
      apply (component_perm loX (fun b => vx (bmin b))); auto.
    + apply (isMin_unique _ _ (map loY (q' :: qs'))); auto.
      apply (isMin_ext _ (map loY (q :: qs))); auto.
      apply (component_perm loY (fun b => vy (bmin b))); auto.
    + apply (isMin_unique _ _ (map loZ (q' :: qs'))); auto.
      apply (isMin_ext _ (map loZ (q :: qs))); auto.
      apply (component_perm loZ (fun b => vz (bmin b))); auto.
    + apply (isMax_unique _ _ (map hiX (q' :: qs'))); auto.
      apply (isMax_ext _ (map hiX (q :: qs))); auto.
      apply (component_perm hiX (fun b => vx (bmax b))); auto.
    + apply (isMax_unique _ _ (map hiY (q' :: qs'))); auto.
      apply (isMax_ext _ (map hiY (q :: qs))); auto.
      apply (component_perm hiY (fun b => vy (bmax b))); auto.
    + apply (isMax_unique _ _ (map hiZ (q' :: qs'))); auto.
      apply (isMax_ext _ (map hiZ (q :: qs))); auto.
      apply (component_perm hiZ (fun b => vz (bmax b))); auto.
Qed.

Lemma bounds_do_not_depend_on_mesh_order_witness :
  exists b b',
    SceneControls.computeWorldBounds [cubeMesh; triMesh; pointMesh] = Some b
    /\ SceneControls.computeWorldBounds [pointMesh; cubeMesh; triMesh] = Some b'
    /\ sameBounds b b'.
Proof.
  apply bounds_do_not_depend_on_mesh_order.
  - apply Permutation_sym. apply (Permutation_cons_app [cubeMesh; triMesh] []).
    apply Permutation_refl.
  - discriminate.
  - repeat constructor.
    + exists (qbox (-1) (-1) (-1) 1 1 1). reflexivity.
    + exists (qbox 0 0 0 1 0 1). reflexivity.
    + exists (qbox 1 1 1 1 1 1). reflexivity.
Defined.

(** ** Normalisation: where the base of the model lands *)

Lemma same_zero_fin (c : num) : (c =~ n_ 0)%js -> exists q, c = Fin q /\ q == 0.
Proof.
  destruct c as [| | |q]; simpl; try contradiction. intro H. exists q. auto.
Qed.

(** Whatever rotation the anchor has (any map that keeps the origin in
    place), the chain of [CanvasHost.loadModels] puts the centre of the base
    of the raw box, (center.x, min.y, center.z), exactly on the anchor
    position. *)
Theorem normalize_puts_base_centre_on_anchor
  (rotateBy : Vec3 -> Vec3 -> Vec3) (cfg : ModelConfig) (ms : list Mesh)
  (U : QBox) (t px py pz : Q) :
  (forall r v, Vector3.same v zero3 -> Vector3.same (rotateBy r v) zero3) ->
  (loX U < hiX U \/ loY U < hiY U \/ loZ U < hiZ U) ->
  targetSizeOf cfg = Fin t ->
  positionOf cfg = fin3 px py pz ->
  let a := CanvasHost.normalize cfg (boxOf U) ms in
  Vector3.same
    (worldOf rotateBy a
       (fin3 ((loX U + hiX U) * (1 # 2)) (loY U) ((loZ U + hiZ U) * (1 # 2))))
    (CanvasHost.anchorPosition a).
Proof.
  intros Hrot Hnd Ht Hp a. subst a.
  destruct (maxDimOf_fin U) as (D & HD & Dx & Dy & Dz & Dcase).
  assert (Dpos : 0 < D) by (destruct Hnd as [H|[H|H]]; lra).
  rewrite (normalize_fin cfg U ms t D Ht HD Dpos).
  unfold worldOf. cbn [CanvasHost.anchorPosition CanvasHost.anchorRotation
                       CanvasHost.scalerScaling CanvasHost.offsetPosition].
  set (s := t / D).
  set (cx := (loX U + hiX U) * (1 # 2)). set (cz := (loZ U + hiZ U) * (1 # 2)).
  match goal with |- Vector3.same (Vector3.add _ (rotateBy _ ?v)) _ =>
    change v with (fin3 (s * (- cx + cx)) (s * (- loY U + loY U)) (s * (- cz + cz)));
    assert (Z : Vector3.same (fin3 (s * (- cx + cx)) (s * (- loY U + loY U))
                                   (s * (- cz + cz))) zero3)
  end.
  { unfold Vector3.same, fin3, zero3, n_. simpl. repeat split; ring. }
  apply (Hrot (rotationOf cfg)) in Z.
  destruct (rotateBy (rotationOf cfg) _) as [rx ry rz].
  destruct Z as (Zx & Zy & Zz). cbn [vx vy vz] in Zx, Zy, Zz.
  apply same_zero_fin in Zx, Zy, Zz.
  destruct Zx as (qx & -> & Hx). destruct Zy as (qy & -> & Hy).
  destruct Zz as (qz & -> & Hz).
  rewrite Hp. unfold Vector3.same, Vector3.add, fin3. simpl.
  repeat split; lra.
Qed.

Lemma normalize_puts_base_centre_on_anchor_witness :
  let quarter := fun (_ v : Vec3) => vec3 (vz v) (vy v) (- vx v)%js in
  let a := CanvasHost.normalize cubeCfg (boxOf (qbox 0 1 2 4 3 8)) [cubeMesh] in
  Vector3.same
    (worldOf quarter a
       (fin3 ((loX (qbox 0 1 2 4 3 8) + hiX (qbox 0 1 2 4 3 8)) * (1 # 2))
             (loY (qbox 0 1 2 4 3 8))
             ((loZ (qbox 0 1 2 4 3 8) + hiZ (qbox 0 1 2 4 3 8)) * (1 # 2))))
    (CanvasHost.anchorPosition a).
Proof.
  apply (normalize_puts_base_centre_on_anchor
           (fun (_ v : Vec3) => vec3 (vz v) (vy v) (- vx v)%js)
           cubeCfg [cubeMesh] (qbox 0 1 2 4 3 8) 40 10 0 0).
  - intros r v (Hx & Hy & Hz). unfold Vector3.same. simpl.
    apply same_zero_fin in Hx, Hy, Hz.
    destruct Hx as (qx & -> & Hx). destruct Hy as (qy & -> & Hy).
    destruct Hz as (qz & -> & Hz). simpl.
    change (inject_Z 0) with 0. repeat split; lra.
  - left. reflexivity.
  - reflexivity.
  - reflexivity.
Defined.

(** ** The loading loops as folds over the registry *)

Lemma canvas_loadEach_fold (load : Loader) (configs : list ModelConfig)
  (anchors : Obj.t CanvasHost.Anchor) :
  CanvasHost.loadEach load configs anchors
  = fold_left (registerBuilt load) configs anchors.
Proof.
  revert anchors. induction configs as [|cfg rest IH]; intro anchors; simpl; auto.
  assert (E : match CanvasHost.loadOne load cfg anchors with
              | Ok a' => a' | Throw _ => anchors end
              = registerBuilt load anchors cfg).
  { unfold CanvasHost.loadOne, registerBuilt, builtBy.
    destruct (load _) as [c|]; auto.
    destruct (CanvasHost.repairAll _) as [[|m ms]|e]; reflexivity. }
  rewrite <- E. destruct (CanvasHost.loadOne load cfg anchors); apply IH.
Qed.

Lemma manager_loadEach_fold (load : Loader) (configs : list ModelConfig)
  (s : SceneManager.State) :
  SceneManager.anchors (SceneManager.loadEach load configs s)
  = fold_left (registerPlaced load) configs (SceneManager.anchors s).
Proof.
  unfold SceneManager.loadEach. revert s.
  induction configs as [|cfg rest IH]; intro s; simpl; auto.
  rewrite IH. f_equal.
  unfold SceneManager.loadOne, registerPlaced, placedBy.
  destruct (Obj.truthyAt (SceneManager.anchors s) (name cfg)); auto.
  destruct (load _) as [c|]; auto.
  destruct (SceneManager.computeLocalBounds _); reflexivity.
Qed.

Lemma truthyAt_false {A} (o : Obj.t A) (k : string) :
  Obj.truthyAt o k = false -> Obj.get o k = None /\ Obj.inherited k = false.
Proof.
  unfold Obj.truthyAt. destruct (Obj.get o k); [discriminate|]. auto.
Qed.

Lemma built_none_of_throw (load : Loader) (cfg : ModelConfig) (e : Exn) :
  CanvasHost.loadOne load cfg [] = Throw e -> builtBy load cfg = None.
Proof.
  unfold CanvasHost.loadOne, builtBy. destruct (load _) as [c|]; auto.
  destruct (CanvasHost.repairAll _) as [[|m ms]|e']; simpl; auto; discriminate.
Qed.

(** Entries of other names, and entries that build nothing, leave the
    registration of a name as it is. *)
Lemma registerBuilt_keeps (load : Loader) (k : string) (l : list ModelConfig) :
  forall anchors,
  (forall c, In c l -> name c = k -> builtBy load c = None) ->
  Obj.get (fold_left (registerBuilt load) l anchors) k = Obj.get anchors k.
Proof.
  induction l as [|c l IH]; intros anchors H; simpl; auto.
  rewrite IH by (intros c' Hc'; apply H; right; exact Hc').
  unfold registerBuilt. destruct (builtBy load c) as [a|] eqn:E; auto.
  apply get_set_other. intro Hk.
  rewrite (H c (or_introl eq_refl) Hk) in E. discriminate.
Qed.

(** What [SceneManager.loadModels] finds registered stays registered. *)
Lemma registerPlaced_keeps (load : Loader) (k : string) (v : SceneManager.Anchor)
  (l : list ModelConfig) :
  forall anchors,
  Obj.get anchors k = Some v ->
  Obj.get (fold_left (registerPlaced load) l anchors) k = Some v.
Proof.
  induction l as [|c l IH]; intros anchors H; simpl; auto.
  apply IH. unfold registerPlaced.
  destruct (Obj.truthyAt anchors (name c)) eqn:G; auto.
  apply truthyAt_false in G. destruct G as (G & _).
  destruct (placedBy load c); auto.
  rewrite get_set_other; auto. intro Hk. rewrite Hk in G. congruence.
Qed.

Lemma registerPlaced_free (load : Loader) (k : string) (l : list ModelConfig) :
  forall anchors,
  Obj.get anchors k = None ->
  (forall c, In c l -> name c = k -> placedBy load c = None) ->
  Obj.get (fold_left (registerPlaced load) l anchors) k = None.
Proof.
  induction l as [|c l IH]; intros anchors G H; simpl; auto.
  apply IH; [|intros c' Hc'; apply H; right; exact Hc'].
  unfold registerPlaced.
  destruct (Obj.truthyAt anchors (name c)); auto.
  destruct (placedBy load c) eqn:E; auto.
  rewrite get_set_other; auto. intro Hk.
  rewrite (H c (or_introl eq_refl) Hk) in E. discriminate.
Qed.

(** ** CanvasHost.loadModels: which entry a name ends up with *)

(** When several entries share a name, [CanvasHost.loadModels] leaves the
    name with the anchor of the last one that gets as far as the
    registration (its asset loads, the repair raises nothing, some mesh has
    vertices), whatever was registered before. *)
Theorem canvas_load_last_built_entry_wins (load : Loader)
  (before after : list ModelConfig) (cfg : ModelConfig) (a : CanvasHost.Anchor)
  (camera : Camera) (anchors : Obj.t CanvasHost.Anchor) :
  builtBy load cfg = Some a ->
  (forall c, In c after -> name c = name cfg -> builtBy load c = None) ->
  Obj.get (fst (CanvasHost.loadModels load (before ++ cfg :: after) camera anchors))
          (name cfg) = Some a.
Proof.
  intros Hb Hafter. unfold CanvasHost.loadModels. cbn [fst].
  rewrite canvas_loadEach_fold, fold_left_app. simpl.
  rewrite (registerBuilt_keeps load (name cfg) after _ Hafter).
  unfold registerBuilt at 1. rewrite Hb. apply get_set_same.
Qed.

Lemma canvas_load_last_built_entry_wins_witness :
  exists a,
    CanvasHost.anchorPosition a = fin3 30 0 0 /\
    Obj.get (fst (CanvasHost.loadModels exampleLoader
                    ([towerWest] ++ towerEast :: [dotCfg]) camera0 []))
            (name towerEast) = Some a.
Proof.
  eexists. split;
    [| apply (canvas_load_last_built_entry_wins exampleLoader [towerWest] [dotCfg]
                towerEast _ camera0 []);
       [ reflexivity
       | intros c [<-|[]] Hn; vm_compute in Hn; discriminate ] ].
  reflexivity.
Defined.

(** An entry whose asset is rejected, or whose repair raises, leaves no
    trace: registry and camera end as they do for the list without it. *)
Theorem canvas_load_failed_entry_leaves_no_trace (load : Loader)
  (before after : list ModelConfig) (bad : ModelConfig) (e : Exn)
  (camera : Camera) (anchors : Obj.t CanvasHost.Anchor) :
  CanvasHost.loadOne load bad [] = Throw e ->
  CanvasHost.loadModels load (before ++ bad :: after) camera anchors
  = CanvasHost.loadModels load (before ++ after) camera anchors.
Proof.
  intro H. apply built_none_of_throw in H. unfold CanvasHost.loadModels.
  assert (E : CanvasHost.loadEach load (before ++ bad :: after) anchors
              = CanvasHost.loadEach load (before ++ after) anchors).
  { rewrite !canvas_loadEach_fold, !fold_left_app. simpl.
    unfold registerBuilt at 2. rewrite H. reflexivity. }
  rewrite E. reflexivity.
Qed.

Lemma canvas_load_failed_entry_leaves_no_trace_witness :
  let ghost := mkModelConfig "ghost" "missing.glb" None None None None None in
  CanvasHost.loadModels exampleLoader ([towerWest] ++ ghost :: [dotCfg]) camera0 []
  = CanvasHost.loadModels exampleLoader ([towerWest] ++ [dotCfg]) camera0 [].
Proof.
  exact (canvas_load_failed_entry_leaves_no_trace exampleLoader [towerWest] [dotCfg]
           (mkModelConfig "ghost" "missing.glb" None None None None None)
           LoadRejected camera0 [] eq_refl).
Defined.

Lemma manager_frameAll_fields (childMeshes : SceneManager.Anchor -> list Mesh)
  (s : Manager.State) :
  Manager.core (Manager.frameAll childMeshes s) = Manager.core s
  /\ Manager.inited (Manager.frameAll childMeshes s) = Manager.inited s
  /\ Manager.hasScene (Manager.frameAll childMeshes s) = Manager.hasScene s
  /\ Manager.camera (Manager.frameAll childMeshes s)
     = SceneManager.frameAll
         (Manager.viewOf childMeshes (SceneManager.anchors (Manager.core s)))
         (Manager.camera s).
Proof.
  unfold Manager.frameAll.
  destruct (SceneManager.frameAll _ (Manager.camera s)) as [cam|] eqn:F; simpl; auto.
  repeat split. destruct (Manager.camera s) as [cam|]; [|reflexivity].
  unfold SceneManager.frameAll in F. destruct (fold_left _ _ _) as [b h].
  destruct (negb h); discriminate.
Qed.

(** ** SceneManager.loadModels: which entry a name ends up with *)

(** [SceneManager.loadModels] never replaces or removes an anchor it finds
    registered, whatever the entries and whether or not the scene exists. *)
Theorem manager_load_keeps_registered_anchors (load : Loader)
  (childMeshes : SceneManager.Anchor -> list Mesh) (configs : list ModelConfig)
  (s : Manager.State) (k : string) (v : SceneManager.Anchor) :
  Obj.get (SceneManager.anchors (Manager.core s)) k = Some v ->
  Obj.get (SceneManager.anchors
             (Manager.core (Manager.loadModels load childMeshes configs s))) k
  = Some v.
Proof.
  intro H. unfold Manager.loadModels.
  destruct (negb (Manager.hasScene s)); [exact H|].
  destruct (manager_frameAll_fields childMeshes
              (Manager.mkState (Manager.inited s) (Manager.hasScene s)
                 (Manager.camera s)
                 (SceneManager.loadEach load configs (Manager.core s))))
    as (C & _).
  rewrite C. cbn [Manager.core]. rewrite manager_loadEach_fold.
  apply registerPlaced_keeps. exact H.
Qed.

Lemma manager_load_keeps_registered_anchors_witness :
  let s := Manager.mkState true true (Some camera0) towerState in
  exists v,
    SceneManager.anchorPosition v = fin3 (-30) 0 0 /\
    Obj.get (SceneManager.anchors
               (Manager.core (Manager.loadModels exampleLoader
                                SceneManager.groupMeshes [towerEast; dotCfg] s)))
            "tower" = Some v.
Proof.
  eexists. split;
    [| apply (manager_load_keeps_registered_anchors exampleLoader
                SceneManager.groupMeshes [towerEast; dotCfg]
                (Manager.mkState true true (Some camera0) towerState) "tower");
       reflexivity ].
  reflexivity.
Defined.

(** A name that is free, and that an object does not inherit from
    [Object.prototype], goes to the first entry of that name whose asset
    loads with bounds that are not null; later entries of the name are
    passed over.  (An entry named like an inherited property, such as
    [constructor], is passed over by the guard and never loaded.) *)
Theorem manager_load_first_placed_entry_wins (load : Loader)
  (before after : list ModelConfig) (cfg : ModelConfig) (a : SceneManager.Anchor)
  (s : SceneManager.State) :
  Obj.get (SceneManager.anchors s) (name cfg) = None ->
  Obj.inherited (name cfg) = false ->
  placedBy load cfg = Some a ->
  (forall c, In c before -> name c = name cfg -> placedBy load c = None) ->
  Obj.get (SceneManager.anchors
             (SceneManager.loadEach load (before ++ cfg :: after) s)) (name cfg)
  = Some a.
Proof.
  intros Hfree Hown Hp Hbefore.
  rewrite manager_loadEach_fold, fold_left_app. simpl.
  apply registerPlaced_keeps. unfold registerPlaced at 1, Obj.truthyAt.
  rewrite (registerPlaced_free load (name cfg) before _ Hfree Hbefore), Hown, Hp.
  apply get_set_same.
Qed.

Lemma manager_load_first_placed_entry_wins_witness :
  let ghost := mkModelConfig "tower" "missing.glb" None None None None None in
  exists a,
    SceneManager.anchorPosition a = fin3 (-30) 0 0 /\
    Obj.get (SceneManager.anchors
               (SceneManager.loadEach exampleLoader
                  ([ghost] ++ towerWest :: [towerEast])
                  (SceneManager.mkState [] []))) (name towerWest) = Some a.
Proof.
  eexists. split;
    [| apply (manager_load_first_placed_entry_wins exampleLoader
                [mkModelConfig "tower" "missing.glb" None None None None None]
                [towerEast] towerWest _ (SceneManager.mkState [] []));
       [ reflexivity | reflexivity | reflexivity
       | intros c [<-|[]] _; reflexivity ] ].
  reflexivity.
Defined.

(** ** SceneManager.loadModels: loading again *)

Lemma registerPlaced_settled (load : Loader) (l1 l2 : list ModelConfig)
  (c : ModelConfig) (anchors : Obj.t SceneManager.Anchor) :
  let anchors' := fold_left (registerPlaced load) (l1 ++ c :: l2) anchors in
  registerPlaced load anchors' c = anchors'.
Proof.
  intro anchors'. unfold registerPlaced at 1.
  destruct (Obj.truthyAt anchors' (name c)) eqn:G; auto.
  destruct (placedBy load c) as [a|] eqn:E; auto.
  exfalso. apply truthyAt_false in G. destruct G as (G & Hown).
  subst anchors'. rewrite fold_left_app in G. simpl in G.
  set (A1 := fold_left (registerPlaced load) l1 anchors) in G.
  assert (R : exists v, Obj.get (registerPlaced load A1 c) (name c) = Some v).
  { unfold registerPlaced, Obj.truthyAt. destruct (Obj.get A1 (name c)) eqn:G1.
    - eexists. exact G1.
    - rewrite Hown, E. eexists. apply get_set_same. }
  destruct R as (v & R).
  rewrite (registerPlaced_keeps load (name c) v l2 _ R) in G. discriminate.
Qed.

Lemma registerPlaced_again (load : Loader) (configs : list ModelConfig)
  (anchors : Obj.t SceneManager.Anchor) :
  let anchors' := fold_left (registerPlaced load) configs anchors in
  fold_left (registerPlaced load) configs anchors' = anchors'.
Proof.
  intro anchors'.
  assert (H : forall c, In c configs -> registerPlaced load anchors' c = anchors').
  { intros c Hc. apply in_split in Hc. destruct Hc as (l1 & l2 & ->).
    apply registerPlaced_settled. }
  clearbody anchors'. induction configs as [|c l IH]; simpl; auto.
  rewrite (H c (or_introl eq_refl)). apply IH.
  intros c' Hc'. apply H. right. exact Hc'.
Qed.

Lemma frameAll_absorbs (view : Obj.t (list Mesh)) (camera : option Camera) :
  SceneManager.frameAll view (SceneManager.frameAll view camera)
  = SceneManager.frameAll view camera.
Proof.
  destruct camera as [cam|]; [|reflexivity]. unfold SceneManager.frameAll.
  destruct (fold_left SceneManager.frameStep (Obj.values view) (infinityBox, false))
    as [box hasModels].
  destruct (negb hasModels); reflexivity.
Qed.

Lemma manager_loadEach_again (load : Loader) (configs : list ModelConfig)
  (s : SceneManager.State) :
  SceneManager.anchors
    (SceneManager.loadEach load configs (SceneManager.loadEach load configs s))
  = SceneManager.anchors (SceneManager.loadEach load configs s).
Proof.
  rewrite (manager_loadEach_fold load configs (SceneManager.loadEach load configs s)).
  rewrite manager_loadEach_fold. apply registerPlaced_again.
Qed.

(** Calling [loadModels] a second time with the same entries and the same
    loader outcomes changes neither the registry nor where the camera looks:
    registered names are passed over and the other entries fail as before. *)
Theorem manager_load_again_changes_nothing (load : Loader)
  (childMeshes : SceneManager.Anchor -> list Mesh) (configs : list ModelConfig)
  (s : Manager.State) :
  let s1 := Manager.loadModels load childMeshes configs s in
  let s2 := Manager.loadModels load childMeshes configs s1 in
  SceneManager.anchors (Manager.core s2) = SceneManager.anchors (Manager.core s1)
  /\ Manager.camera s2 = Manager.camera s1
  /\ Manager.inited s2 = Manager.inited s1
  /\ Manager.hasScene s2 = Manager.hasScene s1.
Proof.
  intros s1 s2. subst s2 s1. unfold Manager.loadModels.
  destruct (Manager.hasScene s) eqn:Hs; cbn [negb].
  - set (t1 := Manager.mkState (Manager.inited s) true (Manager.camera s)
                 (SceneManager.loadEach load configs (Manager.core s))).
    destruct (manager_frameAll_fields childMeshes t1) as (C1 & I1 & H1 & K1).
    rewrite H1. cbn [Manager.hasScene t1 negb].
    set (t2 := Manager.mkState _ _ _ _).
    destruct (manager_frameAll_fields childMeshes t2) as (C2 & I2 & H2 & K2).
    rewrite C2, I2, H2, K2, C1, I1, K1. subst t2 t1.
    cbn [Manager.core Manager.camera Manager.inited Manager.hasScene].
    rewrite C1, K1. cbn [Manager.core Manager.camera].
    rewrite manager_loadEach_again, frameAll_absorbs. auto.
  - unfold Manager.report. simpl. rewrite Hs. simpl. auto.
Qed.

(** ** Camera snapping: the effect and the callback *)

(** The [snapMeters] effect and the view callback agree on when snapping is
    on, once there is a camera: for a snap distance that is a number, the
    effect sets the panning inertia to 0 exactly when the callback gets past
    its [snap <= 0] test, and when it sets the inertia to 0.5 the callback
    leaves every camera as it is.  Without a camera the effect records the
    snap distance and sets no inertia. *)
Theorem snap_inertia_matches_snap_guard (rebuilt : Camera -> Vec3 -> num)
  (snapMeters inertia : num) (st : CanvasEffects.SnapSetting) :
  snapMeters <> NaN ->
  CanvasEffects.panningInertia st = Some inertia ->
  let st' := CanvasEffects.onSnapMeters snapMeters st in
  CanvasEffects.snapRef st' = snapMeters
  /\ (CanvasEffects.panningInertia st' = Some (n_ 0)
      <-> (snapMeters <=? n_ 0)%js = false)
  /\ (CanvasEffects.panningInertia st' = Some (Fin (1 # 2))
      <-> (snapMeters <=? n_ 0)%js = true)
  /\ (CanvasEffects.panningInertia st' = Some (Fin (1 # 2))
      -> forall cam, CanvasEffects.onViewChanged rebuilt st' cam = cam).
Proof.
  intros Hn Hi st'. subst st'.
  unfold CanvasEffects.onViewChanged, CanvasEffects.onSnapMeters,
    CanvasHost.applySnap. rewrite Hi.
  cbn [CanvasEffects.panningInertia CanvasEffects.snapRef].
  split; [reflexivity|].
  destruct snapMeters as [| | |p]; try contradiction; simpl.
  - repeat split; auto; discriminate.
  - repeat split; auto; discriminate.
  - change (inject_Z 0) with 0.
    destruct (Qle_bool p 0) eqn:E; simpl; repeat split; auto; discriminate.
Qed.

Lemma snap_inertia_matches_snap_guard_witness :
  let st' := CanvasEffects.onSnapMeters (Fin (1 # 2))
               (CanvasEffects.mkSnapSetting (n_ 0) (Some (Fin (9 # 10)))) in
  CanvasEffects.snapRef st' = Fin (1 # 2)
  /\ (CanvasEffects.panningInertia st' = Some (n_ 0)
      <-> (Fin (1 # 2) <=? n_ 0)%js = false).
Proof.
  intro st'.
  destruct (snap_inertia_matches_snap_guard (fun _ _ => n_ 151)
              (Fin (1 # 2)) (Fin (9 # 10))
              (CanvasEffects.mkSnapSetting (n_ 0) (Some (Fin (9 # 10)))))
    as (A & B & _).
  - discriminate.
  - reflexivity.
  - exact (conj A B).
Defined.

(** ** Hover: the recorded mesh and the highlight go together *)

Section HoverRecorded.
Import CanvasHost.
Variable highlightLayer : bool.

Lemma last_setLast (s : HoverState) (l : option nat) :
  lastHoveredMesh (setLast l s) = l.
Proof. reflexivity. Qed.

Lemma over_records (s : HoverState) (mesh : nat) :
  hoverRecorded highlightLayer s ->
  hoverRecorded highlightLayer (onPointerOver highlightLayer mesh s).
Proof.
  intros R m. unfold onPointerOver.
  destruct (isInteracting s); [apply R|].
  destruct (lastHoveredMesh s) as [l|] eqn:L.
  - destruct (Nat.eqb l mesh); [apply R|].
    rewrite last_mark, last_setLast, highlighted_mark.
    intro H. injection H as <-. rewrite Nat.eqb_refl. reflexivity.
  - rewrite last_mark, last_setLast, highlighted_mark.
    intro H. injection H as <-. rewrite Nat.eqb_refl. reflexivity.
Qed.

Lemma out_records (s : HoverState) (mesh : nat) :
  hoverRecorded highlightLayer s ->
  hoverRecorded highlightLayer (onPointerOut highlightLayer mesh s).
Proof.
  intros R m. unfold onPointerOut.
  destruct (isInteracting s); [apply R|].
  rewrite last_unmark, highlighted_unmark.
  destruct (lastHoveredMesh s) as [l|] eqn:L.
  - destruct (Nat.eqb l mesh) eqn:E.
    + rewrite last_setLast. discriminate.
    + rewrite L. intro H. injection H as <-. rewrite E. apply R. exact L.
  - rewrite L. discriminate.
Qed.

Lemma handle_records (s : HoverState) (e : Event) :
  hoverRecorded highlightLayer s ->
  hoverRecorded highlightLayer (handle highlightLayer s e).
Proof.
  intro R. destruct e; simpl.
  - apply over_records; auto.
  - apply out_records; auto.
  - intros m H. apply R. exact H.
  - intros m H. apply R. exact H.
  - intros m H. apply R. exact H.
  - intros m. unfold timeoutFires. destruct (interactionTimeout s); [|apply R].
    intro H. apply R. exact H.
Qed.

Lemma run_records (events : list Event) : forall s,
  hoverRecorded highlightLayer s ->
  hoverRecorded highlightLayer (run highlightLayer events s).
Proof.
  induction events as [|e events IH]; intros s R; simpl; auto.
  apply IH. apply handle_records. exact R.
Qed.

End HoverRecorded.

(** After any sequence of pointer and timeout events the highlight is on a
    mesh exactly when that mesh is the one recorded in [lastHoveredMesh]:
    no highlight is left behind by the handlers, and the recorded mesh never
    goes without its highlight. *)
Theorem highlight_is_exactly_on_recorded_mesh (highlightLayer : bool)
  (events : list CanvasHost.Event) (m : nat) :
  let s := CanvasHost.run highlightLayer events CanvasHost.initialHover in
  CanvasHost.highlighted highlightLayer s m = true
  <-> CanvasHost.lastHoveredMesh s = Some m.
Proof.
  intro s. split.
  - apply (run_preserves highlightLayer events). apply initial_inv.
  - apply (run_records highlightLayer events). intros m' H. discriminate H.
Qed.

(** ** The interaction window *)

Lemma step_while_interacting (highlightLayer : bool) (s : Session.State)
  (i : Session.Input) :
  CanvasHost.isInteracting (Session.hover s) = true ->
  i <> Session.Pointer CanvasHost.TimeoutFires ->
  let s' := Session.step highlightLayer s i in
  CanvasHost.isInteracting (Session.hover s') = true
  /\ Session.refs s' = Session.refs s
  /\ CanvasHost.lastHoveredMesh (Session.hover s')
     = CanvasHost.lastHoveredMesh (Session.hover s)
  /\ CanvasHost.renderOutline (Session.hover s')
     = CanvasHost.renderOutline (Session.hover s)
  /\ CanvasHost.layerMeshes (Session.hover s')
     = CanvasHost.layerMeshes (Session.hover s).
Proof.
  intros H Hi. destruct i as [e|name]; simpl.
  - destruct e; simpl;
      unfold CanvasHost.onPointerOver, CanvasHost.onPointerOut; rewrite ?H;
      simpl; auto.
    contradiction Hi. reflexivity.
  - rewrite H. auto.
Qed.

(** From the moment [isInteracting] is set until the 150 ms timeout fires,
    whatever pointer-over, pointer-out, pointer-down, pointer-up, wheel and
    pick events arrive: the flag stays set, the hover record and every
    highlight stay as they were, and no pick starts a camera move. *)
Theorem interaction_freezes_hover_and_pick (highlightLayer : bool)
  (inputs : list Session.Input) (s : Session.State) :
  CanvasHost.isInteracting (Session.hover s) = true ->
  Forall (fun i => i <> Session.Pointer CanvasHost.TimeoutFires) inputs ->
  let s' := Session.run highlightLayer inputs s in
  CanvasHost.isInteracting (Session.hover s') = true
  /\ Session.refs s' = Session.refs s
  /\ CanvasHost.lastHoveredMesh (Session.hover s')
     = CanvasHost.lastHoveredMesh (Session.hover s)
  /\ forall m, CanvasHost.highlighted highlightLayer (Session.hover s') m
               = CanvasHost.highlighted highlightLayer (Session.hover s) m.
Proof.
  intros H F. revert s H. unfold Session.run.
  induction F as [|i inputs Hi F IH]; intros s H; simpl.
  - auto.
  - destruct (step_while_interacting highlightLayer s i H Hi)
      as (H1 & R1 & L1 & O1 & Y1).
    destruct (IH _ H1) as (H2 & R2 & L2 & M2).
    repeat split; try congruence.
    intro m. rewrite M2. unfold CanvasHost.highlighted. rewrite O1, Y1.
    reflexivity.
Qed.

Lemma interaction_freezes_hover_and_pick_witness :
  let refs0 :=
    Controls.setSceneRefs (Some [])
      (Some (Controls.mkArcCamera (vec3 (n_ 0) (n_ 20) (n_ 0)) (n_ 150)
               (n_ 20) (n_ 500) None))
      false [("tower"%string, [triMesh])] in
  let s := Session.mkState
             (CanvasHost.handle false CanvasHost.initialHover CanvasHost.PointerDown)
             refs0 in
  let s' := Session.run false
              [Session.Pointer (CanvasHost.PointerOver 7); Session.Pick "tower";
               Session.Pointer CanvasHost.PointerUp; Session.Pointer CanvasHost.Wheel;
               Session.Pick "tower"] s in
  CanvasHost.isInteracting (Session.hover s') = true
  /\ Session.refs s' = refs0
  /\ CanvasHost.lastHoveredMesh (Session.hover s') = None.
Proof.
  intros refs0 s s'.
  destruct (interaction_freezes_hover_and_pick false
              [Session.Pointer (CanvasHost.PointerOver 7); Session.Pick "tower";
               Session.Pointer CanvasHost.PointerUp; Session.Pointer CanvasHost.Wheel;
               Session.Pick "tower"] s eq_refl)
    as (A & B & C & _).
  - repeat constructor; discriminate.
  - exact (conj A (conj B C)).
Defined.

(** ** sceneControls.ts: focusing a model *)

Lemma max2_fin (a b : Q) :
  exists D, max2 (Fin a) (Fin b) = Fin D /\ a <= D /\ b <= D /\ (D = a \/ D = b).
Proof.
  unfold max2. destruct (Fin a <? Fin b)%js eqn:E.
  - apply ltb_fin in E. exists b. repeat split; auto; lra.
  - apply ltb_fin_false in E. exists a. repeat split; auto; lra.
Qed.

Lemma world_bounds_finite (ms : list Mesh) :
  ms <> [] -> finiteBoxes ms ->
  exists U, SceneControls.computeWorldBounds ms = Some (boxOf U).
Proof.
  intros Hne F. destruct (finite_boxes_list ms F) as (qs & Hqs).
  destruct ms as [|m0 ms0]; [contradiction|].
  destruct qs as [|q qs]; [discriminate Hqs|].
  destruct (growAll_exact q qs) as (U & EU & _).
  exists U. unfold SceneControls.computeWorldBounds.
  rewrite accumulateWorld_growAll, Hqs, EU. reflexivity.
Qed.

(** [focusModel] on a registered model with finite mesh boxes, camera and
    scene being set: the radius limits become 0.2 and 1500, the camera stays
    where it is, and the animation installed runs in 30 frames at 60 per
    second from the current target and radius to a target over the centre of
    the model's box, raised by at least 1.5 and by at least a tenth of the
    height, and to a radius that is at least 2 and at least 1.1 times every
    extent of the box.  The end radius is thus never under the lower limit
    the same call sets. *)
Theorem focus_animates_to_the_model (r : Controls.Refs) (name : string)
  (ms : list Mesh) (cam : Controls.ArcCamera) (sc : list (option bool)) :
  Obj.get (Controls.anchorsRef r) name = Some ms ->
  ms <> [] -> finiteBoxes ms ->
  Controls.cameraRef r = Some cam ->
  Controls.sceneRef r = Some sc ->
  exists (U : QBox) (ty rho : Q),
    SceneControls.computeWorldBounds ms = Some (boxOf U)
    /\ Controls.focusModel r name
       = Controls.mkRefs (Some sc)
           (Some (Controls.mkArcCamera (Controls.camTarget cam) (Controls.camRadius cam)
                    (Fin (2 # 10)) (n_ 1500)
                    (Some (Controls.mkAnimations 60 30
                             (Controls.camTarget cam)
                             (fin3 ((loX U + hiX U) * (1 # 2)) ty
                                   ((loZ U + hiZ U) * (1 # 2)))
                             (Controls.camRadius cam) (Fin rho)))))
           (Controls.highlightLayerRef r) (Controls.anchorsRef r)
    /\ (loY U + hiY U) * (1 # 2) + (3 # 2) <= ty
    /\ (loY U + hiY U) * (1 # 2) + (hiY U - loY U) * (1 # 10) <= ty
    /\ 2 <= rho
    /\ (hiX U - loX U) * (11 # 10) <= rho
    /\ (hiY U - loY U) * (11 # 10) <= rho
    /\ (hiZ U - loZ U) * (11 # 10) <= rho.
Proof.
  intros Hget Hne F Hcam Hsc.
  destruct (world_bounds_finite ms Hne F) as (U & HU).
  destruct (max3_fin (hiX U - loX U) (hiY U - loY U) (hiZ U - loZ U))
    as (D & ED & Dx & Dy & Dz & _).
  destruct (max2_fin (D * (11 # 10)) 2) as (rho & Erho & R1 & R2 & _).
  destruct (max2_fin ((hiY U - loY U) * (1 # 10)) (3 # 2)) as (lift & El & L1 & L2 & _).
  exists U, ((loY U + hiY U) * (1 # 2) + lift), rho.
  split; [exact HU|]. split.
  - unfold Controls.focusModel. rewrite Hget, Hcam, Hsc, HU.
    unfold Controls.animateCameraTo, Controls.withCamera, Controls.setLimits.
    cbn [Controls.cameraRef Controls.sceneRef Controls.highlightLayerRef
         Controls.anchorsRef Controls.camTarget Controls.camRadius
         Controls.lowerRadiusLimit Controls.upperRadiusLimit Controls.animations].
    rewrite Hsc.
    change (Vector3.subtract (bmax (boxOf U)) (bmin (boxOf U)))
      with (fin3 (hiX U - loX U) (hiY U - loY U) (hiZ U - loZ U)).
    cbn [vx vy vz fin3]. rewrite ED.
    change (Fin D * Fin (11 # 10))%js with (Fin (D * (11 # 10))).
    change (n_ 2) with (Fin 2). rewrite Erho.
    change (Fin (hiY U - loY U) * Fin (1 # 10))%js
      with (Fin ((hiY U - loY U) * (1 # 10))).
    rewrite El. reflexivity.
  - repeat split; lra.
Qed.

Lemma focus_animates_to_the_model_witness :
  let cam := Controls.mkArcCamera (vec3 (n_ 0) (n_ 20) (n_ 0)) (n_ 150)
               (n_ 20) (n_ 500) None in
  let r := Controls.setSceneRefs (Some []) (Some cam) false
             [("tower"%string, [triMesh])] in
  exists (U : QBox) (ty rho : Q),
    SceneControls.computeWorldBounds [triMesh] = Some (boxOf U)
    /\ Controls.focusModel r "tower"
       = Controls.mkRefs (Some [])
           (Some (Controls.mkArcCamera (Controls.camTarget cam) (Controls.camRadius cam)
                    (Fin (2 # 10)) (n_ 1500)
                    (Some (Controls.mkAnimations 60 30
                             (Controls.camTarget cam)
                             (fin3 ((loX U + hiX U) * (1 # 2)) ty
                                   ((loZ U + hiZ U) * (1 # 2)))
                             (Controls.camRadius cam) (Fin rho)))))
           (Controls.highlightLayerRef r) (Controls.anchorsRef r)
    /\ (loY U + hiY U) * (1 # 2) + (3 # 2) <= ty
    /\ (loY U + hiY U) * (1 # 2) + (hiY U - loY U) * (1 # 10) <= ty
    /\ 2 <= rho
    /\ (hiX U - loX U) * (11 # 10) <= rho
    /\ (hiY U - loY U) * (11 # 10) <= rho
    /\ (hiZ U - loZ U) * (11 # 10) <= rho.
Proof.
  intros cam r.
  apply (focus_animates_to_the_model r "tower" [triMesh] cam []).
  - reflexivity.
  - discriminate.
  - constructor; [|constructor]. exists (qbox 0 0 0 1 0 1). reflexivity.
  - reflexivity.
  - reflexivity.
Defined.

(** ** sceneControls.ts: the other controls *)

(** Once [clearSceneRefs] has run, no sequence of [focusModel], [resetView]
    and [toggleWireframe] calls brings anything back: the references stay
    cleared, so no camera limit is set and no animation is installed. *)
Theorem controls_do_nothing_once_cleared (cs : list ControlCall) (r : Controls.Refs) :
  controlCalls cs (Controls.clearSceneRefs r) = Controls.noRefs.
Proof.
  unfold controlCalls, Controls.clearSceneRefs.
  induction cs as [|c cs IH]; simpl; auto.
  destruct c; exact IH.
Qed.

(** The last [toggleWireframe] decides: two calls in a row leave the scene
    as the second alone does, meshes without a material staying without
    one, and camera, highlight layer and anchors are not touched. *)
Theorem wireframe_last_toggle_decides (r : Controls.Refs) (a b : bool) :
  Controls.toggleWireframe (Controls.toggleWireframe r a) b
  = Controls.toggleWireframe r b
  /\ Controls.cameraRef (Controls.toggleWireframe r b) = Controls.cameraRef r
  /\ Controls.anchorsRef (Controls.toggleWireframe r b) = Controls.anchorsRef r
  /\ Controls.highlightLayerRef (Controls.toggleWireframe r b)
     = Controls.highlightLayerRef r
  /\ (forall ms, Controls.sceneRef r = Some ms ->
      exists ms', Controls.sceneRef (Controls.toggleWireframe r b) = Some ms'
        /\ List.length ms' = List.length ms
        /\ forall k, nth_error ms' k
                     = match nth_error ms k with
                       | Some (Some _) => Some (Some b)
                       | other => other
                       end).
Proof.
  unfold Controls.toggleWireframe.
  destruct (Controls.sceneRef r) as [ms|] eqn:S; simpl; rewrite ?S.
  - repeat split.
    + f_equal. f_equal. rewrite map_map. apply map_ext. intros [w|]; reflexivity.
    + intros ms0 H. injection H as <-. eexists. split; [reflexivity|].
      split; [apply length_map|].
      intro k. rewrite nth_error_map. destruct (nth_error ms k) as [[w|]|]; reflexivity.
  - repeat split. intros ms H. discriminate H.
Qed.

(** ** SceneManager.ts: the life cycle *)

Lemma frameAll_some (view : Obj.t (list Mesh)) (cam : Camera) :
  SceneManager.frameAll view (Some cam) <> None.
Proof.
  unfold SceneManager.frameAll. destruct (fold_left _ _ _) as [b h].
  destruct (negb h); discriminate.
Qed.

Lemma call_keeps_managerInv (childMeshes : SceneManager.Anchor -> list Mesh)
  (s : Manager.State) (c : Manager.Call) :
  managerInv s -> managerInv (Manager.call childMeshes s c).
Proof.
  intros Inv. pose proof Inv as (I0 & I1). destruct c as [gpu engineOk| |load configs| |name]; simpl.
  - unfold Manager.init. destruct (Manager.inited s) eqn:E; [exact Inv|].
    destruct (negb gpu); [exact Inv|].
    destruct engineOk; simpl.
    + split; [discriminate|]. intros _. split; [discriminate|reflexivity].
    + split; [exact I0|]. intro H. destruct (I1 H) as (_ & H'). congruence.
  - split; simpl; [auto|discriminate].
  - unfold Manager.loadModels.
    destruct (Manager.hasScene s) eqn:E; cbn [negb]; [|exact Inv].
    destruct (manager_frameAll_fields childMeshes
                (Manager.mkState (Manager.inited s) true (Manager.camera s)
                   (SceneManager.loadEach load configs (Manager.core s))))
      as (C & I & H & K).
    split; rewrite H; cbn [Manager.hasScene]; [discriminate|].
    intros _. rewrite K, I. cbn [Manager.camera Manager.inited Manager.core].
    destruct (I1 eq_refl) as (Hc & Hi). split; [|exact Hi].
    destruct (Manager.camera s) as [cam|]; [apply frameAll_some|contradiction].
  - destruct (manager_frameAll_fields childMeshes s) as (C & I & H & K).
    split; rewrite H, ?C, ?K, ?I.
    + intro E. destruct (I0 E) as (A & B). rewrite B. split; [exact A|reflexivity].
    + intro E. destruct (I1 E) as (Hc & Hi). split; [|exact Hi].
      destruct (Manager.camera s) as [cam|]; [apply frameAll_some|contradiction].
  - unfold Manager.focusModel.
    destruct (Obj.get _ name); [|exact Inv].
    destruct (Manager.camera s) as [cam|] eqn:Ec; [|exact Inv].
    destruct (SceneManager.computeWorldBounds _); [|exact Inv].
    split; simpl.
    + intro E. destruct (I0 E) as (_ & B). discriminate B.
    + intro E. destruct (I1 E) as (_ & Hi). split; [discriminate|exact Hi].
Qed.

(** Whatever calls are made on a new [SceneManager], in whatever order:
    anchors are registered only while the scene exists, there is a camera
    exactly when there is a scene, and a scene only while [inited] is set. *)
Theorem manager_registry_needs_scene (childMeshes : SceneManager.Anchor -> list Mesh)
  (cs : list Manager.Call) :
  let s := Manager.calls childMeshes cs Manager.fresh in
  (SceneManager.anchors (Manager.core s) <> [] -> Manager.hasScene s = true)
  /\ (Manager.hasScene s = true <-> Manager.camera s <> None)
  /\ (Manager.hasScene s = true -> Manager.inited s = true).
Proof.
  intro s.
  assert (I : managerInv s).
  { subst s. unfold Manager.calls.
    assert (I0 : managerInv Manager.fresh).
    { split; simpl; [auto|discriminate]. }
    revert I0. generalize Manager.fresh.
    induction cs as [|c cs IH]; intros s0 I0; simpl; auto.
    apply IH. apply call_keeps_managerInv. exact I0. }
  destruct I as (I0 & I1).
  destruct (Manager.hasScene s) eqn:E.
  - destruct (I1 eq_refl) as (Hc & Hi). repeat split; auto.
  - destruct (I0 eq_refl) as (A & B). repeat split; try discriminate.
    + intro H. contradiction.
    + intro H. contradiction.
Qed.

(** ** ControlsPanel.tsx: the frame counter at a steady rate *)

Lemma steadyFrames_S (t0 d : Q) (j : nat) :
  steadyFrames t0 d (S j)
  = steadyFrames t0 d j ++ [Fin (t0 + inject_Z (Z.of_nat (S j)) * d)].
Proof. unfold steadyFrames. rewrite seq_S, map_app. reflexivity. Qed.

Lemma frames_before_report (t0 d : Q) (n : nat) :
  0 < d -> (inject_Z (Z.of_nat n) - 1) * d < 1000 ->
  forall j, (j < n)%nat ->
  FpsCounter.frames (steadyFrames t0 d j) (FpsCounter.start (Fin t0))
  = FpsCounter.mkCounter j (Fin t0) 0.
Proof.
  intros Hd Hn. induction j as [|j IH]; intro Hj; [reflexivity|].
  rewrite steadyFrames_S. unfold FpsCounter.frames in *.
  rewrite fold_left_app, IH by lia. cbn [fold_left].
  unfold FpsCounter.measureFps. cbn [FpsCounter.frameCount FpsCounter.lastTime
                                      FpsCounter.fps].
  set (J := inject_Z (Z.of_nat (S j))).
  assert (HJ : J <= inject_Z (Z.of_nat n) - 1).
  { unfold J. setoid_replace (inject_Z (Z.of_nat n) - 1)
      with (inject_Z (Z.of_nat n - 1)).
    - rewrite <- Zle_Qle. lia.
    - unfold Zminus. rewrite inject_Z_plus. reflexivity. }
  assert (P : J * d <= (inject_Z (Z.of_nat n) - 1) * d).
  { apply Qmult_le_compat_r; lra. }
  destruct (n_ 1000 <=? Fin (t0 + J * d) - Fin t0)%js eqn:E; [|reflexivity].
  simpl in E. apply Qle_bool_iff in E. change (inject_Z 1000) with 1000 in E. lra.
Qed.

(** At a steady rate of one frame every [d] milliseconds the counter shows
    nothing new until the first frame that is at least 1000 ms after the
    start, the [n]-th one; then it shows [n], restarts its count and its
    window from that frame.  As (n - 1) d < 1000 <= n d, the figure shown is
    the true rate 1000 / d rounded up, never less. *)
Theorem fps_counts_frames_of_first_full_second (t0 d : Q) (n : nat) :
  0 < d ->
  (inject_Z (Z.of_nat n) - 1) * d < 1000 ->
  1000 <= inject_Z (Z.of_nat n) * d ->
  (forall j, (j < n)%nat ->
     FpsCounter.fps (FpsCounter.frames (steadyFrames t0 d j)
                       (FpsCounter.start (Fin t0))) = 0%nat)
  /\ FpsCounter.frames (steadyFrames t0 d n) (FpsCounter.start (Fin t0))
     = FpsCounter.mkCounter 0 (Fin (t0 + inject_Z (Z.of_nat n) * d)) n.
Proof.
  intros Hd Hlt Hge. split.
  - intros j Hj. rewrite (frames_before_report t0 d n Hd Hlt j Hj). reflexivity.
  - destruct n as [|j].
    { change (inject_Z (Z.of_nat 0)) with 0 in Hge. lra. }
    rewrite steadyFrames_S. unfold FpsCounter.frames.
    rewrite fold_left_app.
    pose proof (frames_before_report t0 d (S j) Hd Hlt j (Nat.lt_succ_diag_r j)) as B.
    unfold FpsCounter.frames in B. rewrite B. cbn [fold_left].
    unfold FpsCounter.measureFps. cbn [FpsCounter.frameCount FpsCounter.lastTime
                                        FpsCounter.fps].
    set (J := inject_Z (Z.of_nat (S j))) in *.
    destruct (n_ 1000 <=? Fin (t0 + J * d) - Fin t0)%js eqn:E; [reflexivity|].
    exfalso. assert (T : (n_ 1000 <=? Fin (t0 + J * d) - Fin t0)%js = true).
    { simpl. apply Qle_bool_iff. change (inject_Z 1000) with 1000. lra. }
    congruence.
Qed.

Lemma fps_counts_frames_of_first_full_second_witness :
  FpsCounter.frames (steadyFrames 0 (50 # 3) 60) (FpsCounter.start (Fin 0))
  = FpsCounter.mkCounter 0 (Fin (0 + inject_Z (Z.of_nat 60) * (50 # 3))) 60.
Proof.
  apply (fps_counts_frames_of_first_full_second 0 (50 # 3) 60);
    vm_compute; congruence.
Defined.

(** ** map.config.ts: the projection onto the ground plane *)

Lemma max2_fin_left (a b : Q) : b <= a -> max2 (Fin a) (Fin b) = Fin a.
Proof.
  intro H. unfold max2. destruct (Fin a <? Fin b)%js eqn:E; [|reflexivity].
  apply ltb_fin in E. lra.
Qed.

Lemma or_else_fin_pos (q : Q) (b : num) : 0 < q -> or_else (Fin q) b = Fin q.
Proof.
  intro H. unfold or_else, truthy. destruct (Qeq_bool q 0) eqn:E; [|reflexivity].
  apply Qeq_bool_iff in E. lra.
Qed.

(** For a preset with finite corners, a longitude extent of at least
    [Number.EPSILON], a finite ground width and a positive cosine at the
    middle latitude, [project] sends the middle of the extent to the origin
    of the ground plane, and the east and west edges of the extent to
    x = +width/2 and x = -width/2, at every latitude: the longitude extent
    spans the ground exactly. *)
Theorem map_projection_spans_the_ground_width
  (cosDeg : num -> num) (buildUrl : MapConfig.GeoExtent -> num -> string)
  (config : MapConfig.MapPresetConfig) (south north west east w c : Q) :
  MapConfig.extent config
  = MapConfig.mkGeoExtent (Fin south) (Fin north) (Fin west) (Fin east) ->
  MapConfig.groundWidth config = Fin w ->
  cosDeg ((Fin south + Fin north) / n_ 2)%js = Fin c ->
  0 < c ->
  (1 # 4503599627370496) <= east - west ->
  let info := MapConfig.createMapInfo cosDeg buildUrl config in
  (let '(x, z) := MapConfig.project info (MapConfig.centerLat info)
                    (MapConfig.centerLon info) in
   (x =~ n_ 0)%js /\ (z =~ n_ 0)%js)
  /\ forall lat : Q,
       (fst (MapConfig.project info (Fin lat) (Fin east)) =~ Fin (w / 2))%js
       /\ (fst (MapConfig.project info (Fin lat) (Fin west)) =~ Fin (- (w / 2)))%js.
Proof.
  intros Hext Hw Hcos Hc Heps info. subst info.
  unfold MapConfig.createMapInfo.
  cbn [MapConfig.project MapConfig.centerLat MapConfig.centerLon].
  rewrite Hext, Hw.
  cbn [MapConfig.minLat MapConfig.maxLat MapConfig.minLon MapConfig.maxLon].
  unfold MapConfig.metersPerLonDegree. rewrite Hcos.
  change (Fin east - Fin west)%js with (Fin (east - west)).
  unfold MapConfig.EPSILON. rewrite (max2_fin_left _ _ Heps).
  change (Fin c * n_ 111321)%js with (Fin (c * 111321)).
  change (Fin (east - west) * Fin (c * 111321))%js
    with (Fin ((east - west) * (c * 111321))).
  assert (Hq : 0 < (east - west) * (c * 111321)).
  { apply Qmult_lt_0_compat; lra. }
  rewrite (or_else_fin_pos _ _ Hq), (div_fin_pos _ _ Hq).
  assert (H2 : 0 < inject_Z 2) by reflexivity.
  change (Fin west + Fin east)%js with (Fin (west + east)).
  change (Fin south + Fin north)%js with (Fin (south + north)).
  unfold n_. rewrite !(div_fin_pos _ _ H2).
  change (inject_Z 2) with 2. change (inject_Z 0) with 0.
  simpl. split; [split|intro lat; split]; field; split; lra.
Qed.

Lemma map_projection_spans_the_ground_width_witness :
  let extent := MapConfig.mkGeoExtent (Fin (303222 # 10000)) (Fin (303278 # 10000))
                  (Fin (-816612 # 10000)) (Fin (-816538 # 10000)) in
  let config := MapConfig.mkPreset "Downtown Jacksonville (OpenStreetMap)" extent
                  (Fin 420) (Some (n_ 2048)) None in
  let info := MapConfig.createMapInfo (fun _ => Fin (863 # 1000))
                (fun _ _ => EmptyString) config in
  (let '(x, z) := MapConfig.project info (MapConfig.centerLat info)
                    (MapConfig.centerLon info) in
   (x =~ n_ 0)%js /\ (z =~ n_ 0)%js)
  /\ forall lat : Q,
       (fst (MapConfig.project info (Fin lat) (Fin (-816538 # 10000)))
        =~ Fin (420 / 2))%js
       /\ (fst (MapConfig.project info (Fin lat) (Fin (-816612 # 10000)))
           =~ Fin (- (420 / 2)))%js.
Proof.
  intros extent config info.
  apply (map_projection_spans_the_ground_width (fun _ => Fin (863 # 1000))
           (fun _ _ => EmptyString) config
           (303222 # 10000) (303278 # 10000) (-816612 # 10000) (-816538 # 10000)
           420 (863 # 1000)).
  - reflexivity.
  - reflexivity.
  - reflexivity.
  - reflexivity.
  - vm_compute. discriminate.
Defined.

(** ** SceneManager.ts: focusing a model *)

(** [SceneManager.focusModel] on a registered model with finite mesh boxes,
    the camera being set: the camera looks at the centre of the model's box
    from a radius that is at least 60 and at least twice every extent of the
    box; registry, error log and the other fields are as before. *)
Theorem manager_focus_looks_at_the_model
  (childMeshes : SceneManager.Anchor -> list Mesh) (name : string)
  (s : Manager.State) (a : SceneManager.Anchor) (cam : Camera) :
  Obj.get (SceneManager.anchors (Manager.core s)) name = Some a ->
  childMeshes a <> [] -> finiteBoxes (childMeshes a) ->
  Manager.camera s = Some cam ->
  exists (U : QBox) (rho : Q),
    SceneManager.computeWorldBounds (childMeshes a) = Some (boxOf U)
    /\ Manager.focusModel childMeshes name s
       = Manager.mkState (Manager.inited s) (Manager.hasScene s)
           (Some (mkCamera (fin3 ((loX U + hiX U) * (1 # 2))
                                 ((loY U + hiY U) * (1 # 2))
                                 ((loZ U + hiZ U) * (1 # 2)))
                           (Fin rho)))
           (Manager.core s)
    /\ 60 <= rho
    /\ (hiX U - loX U) * 2 <= rho
    /\ (hiY U - loY U) * 2 <= rho
    /\ (hiZ U - loZ U) * 2 <= rho.
Proof.
  intros Hget Hne F Hcam.
  destruct (world_bounds_finite _ Hne F) as (U & HU).
  change (SceneControls.computeWorldBounds (childMeshes a))
    with (SceneManager.computeWorldBounds (childMeshes a)) in HU.
  destruct (max3_fin (hiX U - loX U) (hiY U - loY U) (hiZ U - loZ U))
    as (D & ED & Dx & Dy & Dz & _).
  destruct (max2_fin (D * 2) 60) as (rho & Erho & R1 & R2 & _).
  exists U, rho. split; [exact HU|]. split.
  - unfold Manager.focusModel. rewrite Hget, Hcam, HU.
    change (Vector3.subtract (bmax (boxOf U)) (bmin (boxOf U)))
      with (fin3 (hiX U - loX U) (hiY U - loY U) (hiZ U - loZ U)).
    cbn [vx vy vz fin3]. rewrite ED.
    change (Fin D * n_ 2)%js with (Fin (D * 2)).
    change (n_ 60) with (Fin 60). rewrite Erho. reflexivity.
  - repeat split; lra.
Qed.

Lemma manager_focus_looks_at_the_model_witness :
  let s := Manager.mkState true true (Some camera0) towerState in
  exists (a : SceneManager.Anchor) (U : QBox) (rho : Q),
    SceneManager.computeWorldBounds (SceneManager.groupMeshes a) = Some (boxOf U)
    /\ Manager.focusModel SceneManager.groupMeshes "tower" s
       = Manager.mkState true true
           (Some (mkCamera (fin3 ((loX U + hiX U) * (1 # 2))
                                 ((loY U + hiY U) * (1 # 2))
                                 ((loZ U + hiZ U) * (1 # 2)))
                           (Fin rho)))
           towerState
    /\ 60 <= rho
    /\ (hiX U - loX U) * 2 <= rho
    /\ (hiY U - loY U) * 2 <= rho
    /\ (hiZ U - loZ U) * 2 <= rho.
Proof.
  intro s. eexists.
  apply (manager_focus_looks_at_the_model SceneManager.groupMeshes "tower" s _ camera0).
  - reflexivity.
  - discriminate.
  - constructor; [|constructor]. exists (qbox 0 0 0 1 0 1). reflexivity.
  - reflexivity.
Defined.

(** ** SceneManager.loadModels: rotation and the base of the model *)

(** In [SceneManager.loadModels] the group node carries rotation, scaling
    and the centring offset together, so the rotation turns the model about
    the origin of its own coordinates: with [v] the scaled centre of the
    base of the raw box, the centre of the base ends at the anchor position
    plus (R v - v).  It is on the anchor position exactly when the rotation
    leaves [v] in place. *)
Theorem manager_rotation_turns_about_model_origin
  (rotateBy : Vec3 -> Vec3 -> Vec3) (cfg : ModelConfig) (ms : list Mesh)
  (U : QBox) (t D px py pz rx ry rz : Q) :
  targetSizeOf cfg = Fin t -> maxDimOf (boxOf U) = Fin D -> 0 < D ->
  positionOf cfg = fin3 px py pz ->
  let cx := (loX U + hiX U) * (1 # 2) in
  let cz := (loZ U + hiZ U) * (1 # 2) in
  let v := fin3 (t / D * cx) (t / D * loY U) (t / D * cz) in
  rotateBy (rotationOf cfg) v = fin3 rx ry rz ->
  let a := SceneManager.place cfg (boxOf U) ms in
  let w := worldOfGroup rotateBy a (fin3 cx (loY U) cz) in
  Vector3.same w (fin3 (px + (rx - t / D * cx)) (py + (ry - t / D * loY U))
                       (pz + (rz - t / D * cz)))
  /\ (Vector3.same w (SceneManager.anchorPosition a)
      <-> Vector3.same (fin3 rx ry rz) v).
Proof.
  intros Ht HD Dpos Hp cx cz v Hrot a w. subst w a.
  rewrite (place_fin cfg U ms t D Ht HD Dpos).
  unfold worldOfGroup.
  cbn [SceneManager.anchorPosition SceneManager.groupRotation
       SceneManager.groupScaling SceneManager.groupPosition].
  match goal with |- context [rotateBy _ ?x] => change x with v end.
  rewrite Hrot, Hp. clear Hrot. subst v. fold cx cz. generalize (t / D). intro s.
  unfold Vector3.same, Vector3.add, fin3. simpl.
  split; [repeat split; ring|].
  split; intros (A & B & C); repeat split; lra.
Qed.

Lemma manager_rotation_turns_about_model_origin_witness :
  let quarter := fun (_ v : Vec3) => vec3 (vz v) (vy v) (- vx v)%js in
  let U := qbox 0 1 2 4 3 8 in
  let cx := (loX U + hiX U) * (1 # 2) in
  let cz := (loZ U + hiZ U) * (1 # 2) in
  let a := SceneManager.place cubeCfg (boxOf U) [cubeMesh] in
  let w := worldOfGroup quarter a (fin3 cx (loY U) cz) in
  Vector3.same w (fin3 (10 + (40 / 6 * cz - 40 / 6 * cx))
                       (0 + (40 / 6 * loY U - 40 / 6 * loY U))
                       (0 + (- (40 / 6 * cx) - 40 / 6 * cz))).
Proof.
  intros quarter U cx cz a w.
  apply (manager_rotation_turns_about_model_origin quarter cubeCfg [cubeMesh]
           U 40 6 10 0 0 (40 / 6 * cz) (40 / 6 * loY U) (- (40 / 6 * cx)));
    reflexivity.
Defined.
